(** * py4cast: the graph models of [pnia/models/nlam/models.py], the dataset
    registry of [py4cast/datasets/__init__.py] and the entry point of
    [bin/train_vincent.py], embedded as Rocq functions.

    Tensors are nested lists of scalars that carry their shape, as a torch
    tensor carries its [shape] attribute.  Python exceptions are the [Raise]
    branch of a result type.  A forward pass runs in a small monad that
    threads the list of sub-modules ([nn.Module]s) that have been called so
    far, so that statements such as "this GNN is applied once" can be made
    about the code itself. *)

From stdpp Require Import base list strings gmap.
From Stdlib Require Import ZArith Lia.

Local Open Scope Z_scope.
Local Open Scope nat_scope.

(* ===================================================================== *)
(** * Python: exceptions, results, sequences                              *)
(* ===================================================================== *)

Module Py.

(** The exception classes the three source files can raise or catch. *)
Inductive exn : Type :=
| RuntimeError          (* torch shape errors *)
| IndexError
| ValueError
| TypeError
| KeyError
| NotImplementedError
| AssertionError
| AttributeError (name : string)
| UnboundLocalError (name : string)
| ImportError
| ModuleNotFoundError
| FileNotFoundError
| OSError.

#[global] Instance exn_eq_dec : EqDecision exn.
Proof. solve_decision. Defined.

(** The outcome of evaluating a Python expression or statement. *)
Inductive res (A : Type) : Type :=
| Ok (a : A)
| Raise (e : exn).
Arguments Ok {A} a.
Arguments Raise {A} e.

Definition rbind {A B} (m : res A) (k : A -> res B) : res B :=
  match m with
  | Ok a => k a
  | Raise e => Raise e
  end.

Definition is_ok {A} (m : res A) : bool :=
  match m with Ok _ => true | Raise _ => false end.

(** [seq[i]] with Python's negative indices; [IndexError] out of range. *)
Definition getitem {A} (l : list A) (i : Z) : res A :=
  let j := if (i <? 0)%Z then (Z.of_nat (length l) + i)%Z else i in
  if (j <? 0)%Z then Raise IndexError
  else match l !! Z.to_nat j with
       | Some x => Ok x
       | None => Raise IndexError
       end.

(** [seq[i] = x]. *)
Definition setitem {A} (l : list A) (i : Z) (x : A) : res (list A) :=
  let j := if (i <? 0)%Z then (Z.of_nat (length l) + i)%Z else i in
  if (j <? 0)%Z then Raise IndexError
  else if decide (Z.to_nat j < length l) then Ok (<[Z.to_nat j := x]> l)
       else Raise IndexError.

(** A slice bound, clamped as Python clamps it. *)
Definition slice_bound (len : nat) (i : Z) : nat :=
  if (i <? 0)%Z then Z.to_nat (Z.max 0 (Z.of_nat len + i))
  else Z.to_nat (Z.min i (Z.of_nat len)).

(** [seq[a:b]]. *)
Definition slice {A} (l : list A) (a b : Z) : list A :=
  let s := slice_bound (length l) a in
  let e := slice_bound (length l) b in
  take (e - s) (drop s l).

(** [seq[a:]]. *)
Definition slice_from {A} (l : list A) (a : Z) : list A :=
  drop (slice_bound (length l) a) l.

(** [seq[:b]]. *)
Definition slice_to {A} (l : list A) (b : Z) : list A :=
  take (slice_bound (length l) b) l.

(** [range(start, stop, -1)]. *)
Definition range_down (start stop : Z) : list Z :=
  (fun k => (start - Z.of_nat k)%Z) <$> seq 0 (Z.to_nat (start - stop)).

(** [enumerate(seq, start=s)]. *)
Fixpoint enumerate {A} (s : Z) (l : list A) : list (Z * A) :=
  match l with
  | [] => []
  | x :: l' => (s, x) :: enumerate (s + 1)%Z l'
  end.

End Py.
Export Py.

(* ===================================================================== *)
(** * Torch: shaped tensors                                               *)
(* ===================================================================== *)

Module Torch.

(** The scalars of a tensor, with the two operations the models apply to
    them directly. *)
Class Scalar (F : Type) := {
  fzero : F;
  fadd : F -> F -> F;
  fmul : F -> F -> F
}.

Section Tensors.
Context {F : Type}.

(** A 2-D tensor [(N, d)]: static node or edge features. *)
Record T2 := mkT2 {
  rows2 : nat;
  cols2 : nat;
  val2 : list (list F)
}.

(** A 3-D tensor [(B, N, d)]: a batch of node or edge representations. *)
Record T3 := mkT3 {
  dimB : nat;
  dimN : nat;
  dimD : nat;
  val3 : list (list (list F))
}.

(** The data agrees with the shape it is labelled with. *)
Definition wf2 (t : T2) : Prop :=
  length (val2 t) = rows2 t /\ Forall (fun r => length r = cols2 t) (val2 t).

Definition wf_mat (n d : nat) (m : list (list F)) : Prop :=
  length m = n /\ Forall (fun r => length r = d) m.

Definition wf3 (t : T3) : Prop :=
  length (val3 t) = dimB t /\ Forall (wf_mat (dimN t) (dimD t)) (val3 t).

Definition shape3 (t : T3) : nat * nat * nat := (dimB t, dimN t, dimD t).

(** [t] is a well-formed tensor of shape [(B, N, D)]. *)
Definition has_shape (B N D : nat) (t : T3) : Prop :=
  wf3 t /\ shape3 t = (B, N, D).

(** Per-level (or per-family) tensors: the [k]-th one has shape
    [(B, Ns[k], D)]. *)
Definition shapes (B D : nat) (Ns : list nat) (ts : list T3) : Prop :=
  Forall2 (fun n t => has_shape B n D t) Ns ts.

(** The data of a concatenation along the node axis, batch item by batch
    item. *)
Definition cat_vals (B : nat) (ts : list T3) : list (list (list F)) :=
  foldr (fun t acc => zip_with app (val3 t) acc) (replicate B []) ts.

(** [torch.cat(ts, dim=1)]: all tensors agree on the batch and feature
    sizes; the node axes are appended. *)
Definition cat_dim1 (ts : list T3) : res T3 :=
  match ts with
  | [] => Raise RuntimeError
  | t0 :: _ =>
      if forallb (fun t => (dimB t =? dimB t0) && (dimD t =? dimD t0)) ts
      then Ok (mkT3 (dimB t0) (sum_list (dimN <$> ts)) (dimD t0)
                 (cat_vals (dimB t0) ts))
      else Raise RuntimeError
  end.

(** The entries of the tensors of [ts], feature rows appended node by
    node. *)
Definition cat_last_vals (B N : nat) (ts : list T3) : list (list (list F)) :=
  foldr (fun t acc => zip_with (zip_with app) (val3 t) acc)
        (replicate B (replicate N [])) ts.

(** [torch.cat(ts, dim=-1)]: all tensors agree on the batch and node
    sizes; the feature axes are appended. *)
Definition cat_last (ts : list T3) : res T3 :=
  match ts with
  | [] => Raise RuntimeError
  | t0 :: _ =>
      if forallb (fun t => (dimB t =? dimB t0) && (dimN t =? dimN t0)) ts
      then Ok (mkT3 (dimB t0) (dimN t0) (sum_list (dimD <$> ts))
                 (cat_last_vals (dimB t0) (dimN t0) ts))
      else Raise RuntimeError
  end.

(** The data of [torch.split]: consecutive chunks of the node axis. *)
Fixpoint split_vals (v : list (list (list F))) (sizes : list nat)
  : list (list (list (list F))) :=
  match sizes with
  | [] => []
  | n :: rest => (take n <$> v) :: split_vals (drop n <$> v) rest
  end.

(** [torch.split(t, sizes, dim=1)]: the sizes must sum to the node size. *)
Definition split_dim1 (t : T3) (sizes : list nat) : res (list T3) :=
  if sum_list sizes =? dimN t
  then Ok (zip_with (fun n v => mkT3 (dimB t) n (dimD t) v)
             sizes (split_vals (val3 t) sizes))
  else Raise RuntimeError.

(** Modelled from the spec: [expand_to_batch] is a method of [ARModel]
    (pnia/models/ar_model.py, which is not among the sources); the spec
    calls its result the batch-expanded features: the 2-D tensor repeated
    along a new leading batch axis. *)
Definition expand_to_batch (x : T2) (batch_size : nat) : T3 :=
  mkT3 batch_size (rows2 x) (cols2 x) (replicate batch_size (val2 x)).

(** The size of an axis of a broadcast result. *)
Definition bdim (a b : nat) : res nat :=
  if a =? b then Ok a
  else if a =? 1 then Ok b
  else if b =? 1 then Ok a
  else Raise RuntimeError.

(** Broadcasting along one axis: equal sizes pair up, a size of one is
    repeated. *)
Definition bzip {A} (f : A -> A -> A) (xs ys : list A) : list A :=
  if length xs =? length ys then zip_with f xs ys
  else match xs, ys with
       | [x], _ => f x <$> ys
       | _, [y] => (fun x => f x y) <$> xs
       | _, _ => []
       end.

Context `{Scalar F}.

(** [a + b] for two 3-D tensors. *)
Definition tadd (a b : T3) : res T3 :=
  rbind (bdim (dimB a) (dimB b)) (fun B =>
  rbind (bdim (dimN a) (dimN b)) (fun N =>
  rbind (bdim (dimD a) (dimD b)) (fun D =>
  Ok (mkT3 B N D (bzip (bzip (bzip fadd)) (val3 a) (val3 b)))))).

(** [a * v] and [a + v] for a 3-D tensor and a 1-D tensor, which
    broadcasts over the batch and node axes. *)
Definition tmul_vec (a : T3) (v : list F) : res T3 :=
  rbind (bdim (dimD a) (length v)) (fun D =>
  Ok (mkT3 (dimB a) (dimN a) D
        ((fun mat : list (list F) => (fun r => bzip fmul r v) <$> mat)
           <$> val3 a))).

Definition tadd_vec (a : T3) (v : list F) : res T3 :=
  rbind (bdim (dimD a) (length v)) (fun D =>
  Ok (mkT3 (dimB a) (dimN a) D
        ((fun mat : list (list F) => (fun r => bzip fadd r v) <$> mat)
           <$> val3 a))).

End Tensors.
Arguments T2 F : clear implicits.
Arguments T3 F : clear implicits.

End Torch.
Export Torch.

(* ===================================================================== *)
(** * Sub-modules and the forward-pass monad                              *)
(* ===================================================================== *)

Module Net.

(** The name of a sub-module ([nn.Module]) of a model: the attribute it is
    stored under, with its positions when the attribute is a [ModuleList]
    (or a [ModuleList] of [ModuleList]s). *)
Inductive modid : Type :=
| nm_grid_embedder
| nm_g2m_embedder
| nm_m2g_embedder
| nm_g2m_gnn
| nm_encoding_grid_mlp
| nm_m2g_gnn
| nm_output_map
| nm_mesh_embedder
| nm_m2m_embedder
| nm_processor (layer : nat)
| nm_mesh_embedders (level : nat)
| nm_mesh_same_embedders (level : nat)
| nm_mesh_up_embedders (level : nat)
| nm_mesh_down_embedders (level : nat)
| nm_mesh_init_gnns (level : nat)
| nm_mesh_read_gnns (level : nat)
| nm_mesh_down_gnns (layer level : nat)
| nm_mesh_down_same_gnns (layer level : nat)
| nm_mesh_up_gnns (layer level : nat)
| nm_mesh_up_same_gnns (layer level : nat).

#[global] Instance modid_eq_dec : EqDecision modid.
Proof. solve_decision. Defined.

(** A forward pass: it may raise, and it extends the list of the
    sub-modules called so far. *)
Definition M (A : Type) : Type := list modid -> res (A * list modid).

Definition ret {A} (a : A) : M A := fun tr => Ok (a, tr).

Definition bind {A B} (m : M A) (k : A -> M B) : M B :=
  fun tr =>
    match m tr with
    | Ok (a, tr') => k a tr'
    | Raise e => Raise e
    end.

Definition lift {A} (r : res A) : M A :=
  fun tr =>
    match r with
    | Ok a => Ok (a, tr)
    | Raise e => Raise e
    end.

Definition called (n : modid) : M unit := fun tr => Ok (tt, tr ++ [n]).

Declare Scope fwd_scope.
Delimit Scope fwd_scope with fwd.
Notation "x <- m ; k" := (bind m (fun x => k))
  (at level 20, m at level 100, k at level 200, only parsing) : fwd_scope.
Notation "' p <- m ; k" := (bind m (fun p => k))
  (at level 20, p pattern, m at level 100, k at level 200, only parsing)
  : fwd_scope.
Local Open Scope fwd_scope.

(** A [for] loop that updates its variables [s] over the items of [l]. *)
Fixpoint foldM {A S} (f : S -> A -> M S) (l : list A) (s : S) : M S :=
  match l with
  | [] => ret s
  | x :: l' => s' <- f s x ; foldM f l' s'
  end.

(** A list comprehension [[f x for x in l]]. *)
Fixpoint mapM {A B} (f : A -> M B) (l : list A) : M (list B) :=
  match l with
  | [] => ret []
  | x :: l' => y <- f x ; ys <- mapM f l' ; ret (y :: ys)
  end.

Section Modules.
Context {F : Type}.

(** A multi-layer perceptron built by [utils.make_mlp]: it acts on the last
    axis of its input, which must have [mlp_in] entries. *)
Record MLP := mkMLP {
  mlp_name : modid;
  mlp_in : nat;
  mlp_out : nat;
  mlp_fn : list F -> list F
}.

(** The dimensions of the weights: a vector of [mlp_in] entries is mapped
    to one of [mlp_out] entries. *)
Definition mlp_ok (m : MLP) : Prop :=
  forall v, length v = mlp_in m -> length (mlp_fn m v) = mlp_out m.

(** An embedder fits the static features it is applied to and maps them to
    [d] features. *)
Definition embedder_ok (d : nat) (emb : MLP) (feat : T2 F) : Prop :=
  wf2 feat /\ mlp_ok emb /\ mlp_in emb = cols2 feat /\ mlp_out emb = d.

Definition mlp2 (m : MLP) (t : T2 F) : res (T2 F) :=
  if cols2 t =? mlp_in m
  then Ok (mkT2 (rows2 t) (mlp_out m) (mlp_fn m <$> val2 t))
  else Raise RuntimeError.

Definition mlp3 (m : MLP) (t : T3 F) : res (T3 F) :=
  if dimD t =? mlp_in m
  then Ok (mkT3 (dimB t) (dimN t) (mlp_out m)
             ((fun mat : list (list F) => mlp_fn m <$> mat) <$> val3 t))
  else Raise RuntimeError.

(** [m(t)] for a 2-D and for a 3-D input. *)
Definition call_mlp2 (m : MLP) (t : T2 F) : M (T2 F) :=
  _ <- called (mlp_name m) ; lift (mlp2 m t).

Definition call_mlp3 (m : MLP) (t : T3 F) : M (T3 F) :=
  _ <- called (mlp_name m) ; lift (mlp3 m t).

(** An [InteractionNet] layer: from sender, receiver and edge
    representations to new receiver and edge representations.  With
    [update_edges=False] the caller gets the receiver part only. *)
Record InteractionNet := mkNet {
  net_name : modid;
  net_update_edges : bool;
  net_fn : T3 F -> T3 F -> T3 F -> res (T3 F * T3 F)
}.

(** The arguments of [InteractionNet(...)] that the models pass. *)
Record net_args := mkArgs {
  a_edge_index : list (Z * Z);
  a_input_dim : nat;
  a_hidden_layers : nat;
  a_update_edges : bool;
  a_edge_chunk_sizes : option (list nat);
  a_aggr_chunk_sizes : option (list nat)
}.

(** [InteractionNet(...)]: a new layer stored under [name].  What the layer
    computes is the business of neural_lam's [InteractionNet] class and of
    the layer's weights, so it is the parameter [forward]. *)
Definition InteractionNet_new
    (forward : modid -> net_args -> T3 F -> T3 F -> T3 F -> res (T3 F * T3 F))
    (name : modid) (args : net_args) : InteractionNet :=
  mkNet name (a_update_edges args) (forward name args).

(** [new_node_rep, new_edge_rep = gnn(send, rec, edge)]: the unpacking
    needs a layer that returns both. *)
Definition call_gnn2 (g : InteractionNet) (s r e : T3 F) : M (T3 F * T3 F) :=
  _ <- called (net_name g) ;
  if net_update_edges g then lift (net_fn g s r e) else lift (Raise ValueError).

(** [new_node_rep = gnn(send, rec, edge)]: the value is used as a tensor,
    so the layer must return the receiver part only. *)
Definition call_gnn1 (g : InteractionNet) (s r e : T3 F) : M (T3 F) :=
  _ <- called (net_name g) ;
  if net_update_edges g then lift (Raise TypeError)
  else lift (rbind (net_fn g s r e) (fun p => Ok (fst p))).

(** What an [InteractionNet] over a fixed edge set does to shapes: [Ns]
    senders, [Nr] receivers and [Me] edges, all with [d] features. *)
Definition net_spec (g : InteractionNet) (Ns Nr Me d : nat) : Prop :=
  forall B s r e,
    has_shape B Ns d s -> has_shape B Nr d r -> has_shape B Me d e ->
    exists r' e', net_fn g s r e = Ok (r', e')
                  /\ has_shape B Nr d r' /\ has_shape B Me d e'.

(** [pyg.nn.Sequential("mesh_rep, edge_rep", [(net, "mesh_rep, mesh_rep,
    edge_rep -> mesh_rep, edge_rep") for net in nets])]. *)
Definition sequential (nets : list InteractionNet) (mesh_rep edge_rep : T3 F)
  : M (T3 F * T3 F) :=
  foldM (fun st net => call_gnn2 net (fst st) (fst st) (snd st))
        nets (mesh_rep, edge_rep).

End Modules.
Arguments MLP F : clear implicits.
Arguments InteractionNet F : clear implicits.

End Net.
Export Net.

(* ===================================================================== *)
(** * pnia/models/nlam/models.py                                          *)
(* ===================================================================== *)

(** An edge index: a [(2, M)] integer tensor, kept as the list of its [M]
    columns (sender, receiver).  [ei.shape[1]] is its length and
    [torch.cat(..., dim=1)] appends. *)
Abbreviation EdgeIndex := (list (Z * Z)).

(** The architecture part of [HyperParam] ([hp.graph]). *)
Record Graph := mkGraph {
  hidden_dim : nat;
  hidden_layers : nat;
  processor_layers : nat
}.

Record HyperParam := mkHyperParam {
  graph : Graph
}.

Local Open Scope fwd_scope.

(** ** class BaseGraphModel *)
Module BaseGraphModel.
Section Def.
Context {F : Type} `{Scalar F}.

(** The buffers and sub-modules [__init__] leaves on the object. *)
Record t := mk {
  grid_static_features : T2 F;
  g2m_features : T2 F;
  m2g_features : T2 F;
  step_diff_std : list F;
  step_diff_mean : list F;
  grid_embedder : MLP F;
  g2m_embedder : MLP F;
  m2g_embedder : MLP F;
  g2m_gnn : InteractionNet F;
  encoding_grid_mlp : MLP F;
  m2g_gnn : InteractionNet F;
  output_map : MLP F
}.

(** The methods a subclass overrides. *)
Record overrides := mkOverrides {
  embedd_mesh_nodes : M (T2 F);
  process_step : T3 F -> M (T3 F)
}.

(** The base class leaves them unimplemented. *)
Definition abstract : overrides :=
  mkOverrides (lift (Raise NotImplementedError))
              (fun _ => lift (Raise NotImplementedError)).

(** Lines 136-140: rescale with the one-step difference statistics, then
    the residual connection. *)
Definition rescale_residual (self : t) (prev_state net_output : T3 F)
  : res (T3 F) :=
  rbind (tmul_vec net_output (step_diff_std self)) (fun scaled =>
  rbind (tadd_vec scaled (step_diff_mean self)) (fun rescaled_net_output =>
  tadd prev_state rescaled_net_output)).

Definition predict_step (self : t) (cls : overrides)
    (prev_state prev_prev_state batch_static_features forcing : T3 F)
  : M (T3 F) :=
  let batch_size := dimB prev_state in
  grid_features <- lift (cat_last
    [prev_state; prev_prev_state; batch_static_features; forcing;
     expand_to_batch (grid_static_features self) batch_size]);
  grid_emb <- call_mlp3 (grid_embedder self) grid_features;
  g2m_emb <- call_mlp2 (g2m_embedder self) (g2m_features self);
  m2g_emb <- call_mlp2 (m2g_embedder self) (m2g_features self);
  mesh_emb <- embedd_mesh_nodes cls;
  let mesh_emb_expanded := expand_to_batch mesh_emb batch_size in
  let g2m_emb_expanded := expand_to_batch g2m_emb batch_size in
  mesh_rep <- call_gnn1 (g2m_gnn self) grid_emb mesh_emb_expanded
                        g2m_emb_expanded;
  enc <- call_mlp3 (encoding_grid_mlp self) grid_emb;
  grid_rep <- lift (tadd grid_emb enc);
  mesh_rep <- process_step cls mesh_rep;
  let m2g_emb_expanded := expand_to_batch m2g_emb batch_size in
  grid_rep <- call_gnn1 (m2g_gnn self) mesh_rep grid_rep m2g_emb_expanded;
  net_output <- call_mlp3 (output_map self) grid_rep;
  lift (rescale_residual self prev_state net_output).

(** *** Well-formed models and valid batches

    The sizes [__init__] reads off the graph and the dataset. *)
Record dims := mkDims {
  N_grid : nat;
  grid_state_dim : nat;
  grid_static_dim : nat;
  grid_forcing_dim : nat;
  batch_static_feature_dim : nat;
  N_mesh : nat;
  g2m_edges : nat;
  m2g_edges : nat;
  d_h : nat
}.

(** [grid_dim = 2*self.grid_state_dim + grid_static_dim +
    self.grid_forcing_dim + self.batch_static_feature_dim]. *)
Definition grid_dim (D : dims) : nat :=
  2 * grid_state_dim D + grid_static_dim D + grid_forcing_dim D
  + batch_static_feature_dim D.

(** The buffers and sub-modules of [self] have the sizes [__init__] gives
    them for [D]. *)
Definition wf (self : t) (D : dims) : Prop :=
  (wf2 (grid_static_features self)
   /\ rows2 (grid_static_features self) = N_grid D
   /\ cols2 (grid_static_features self) = grid_static_dim D)
  /\ (mlp_ok (grid_embedder self)
      /\ mlp_in (grid_embedder self) = grid_dim D
      /\ mlp_out (grid_embedder self) = d_h D)
  /\ (embedder_ok (d_h D) (g2m_embedder self) (g2m_features self)
      /\ rows2 (g2m_features self) = g2m_edges D)
  /\ (embedder_ok (d_h D) (m2g_embedder self) (m2g_features self)
      /\ rows2 (m2g_features self) = m2g_edges D)
  /\ (net_update_edges (g2m_gnn self) = false
      /\ net_spec (g2m_gnn self) (N_grid D) (N_mesh D) (g2m_edges D) (d_h D))
  /\ (mlp_ok (encoding_grid_mlp self)
      /\ mlp_in (encoding_grid_mlp self) = d_h D
      /\ mlp_out (encoding_grid_mlp self) = d_h D)
  /\ (net_update_edges (m2g_gnn self) = false
      /\ net_spec (m2g_gnn self) (N_mesh D) (N_grid D) (m2g_edges D) (d_h D))
  /\ (mlp_ok (output_map self)
      /\ mlp_in (output_map self) = d_h D
      /\ mlp_out (output_map self) = grid_state_dim D)
  /\ length (step_diff_std self) = grid_state_dim D
  /\ length (step_diff_mean self) = grid_state_dim D.

(** What [predict_step] needs of the two methods of a subclass. *)
Definition overrides_ok (cls : overrides) (D : dims) : Prop :=
  (forall tr, exists mesh_emb tr',
      embedd_mesh_nodes cls tr = Ok (mesh_emb, tr')
      /\ wf2 mesh_emb /\ rows2 mesh_emb = N_mesh D /\ cols2 mesh_emb = d_h D)
  /\ (forall B mesh_rep tr,
        has_shape B (N_mesh D) (d_h D) mesh_rep ->
        exists mesh_rep' tr',
          process_step cls mesh_rep tr = Ok (mesh_rep', tr')
          /\ has_shape B (N_mesh D) (d_h D) mesh_rep').

(** A batch as the docstring of [predict_step] describes it. *)
Definition valid_batch (D : dims) (B : nat)
    (prev_state prev_prev_state batch_static_features forcing : T3 F) : Prop :=
  has_shape B (N_grid D) (grid_state_dim D) prev_state
  /\ has_shape B (N_grid D) (grid_state_dim D) prev_prev_state
  /\ has_shape B (N_grid D) (batch_static_feature_dim D) batch_static_features
  /\ has_shape B (N_grid D) (grid_forcing_dim D) forcing.

(** The value of the residual update, entry by entry:
    [prev + (net * std + mean)]. *)
Definition residual_vals (std mean : list F)
    (prev net : list (list (list F))) : list (list (list F)) :=
  zip_with (zip_with (fun p o =>
     zip_with fadd p (zip_with fadd (zip_with fmul o std) mean))) prev net.

End Def.
Arguments t F : clear implicits.
Arguments overrides F : clear implicits.
End BaseGraphModel.

(** ** class BaseHiGraphModel(BaseGraphModel) *)
Module BaseHiGraphModel.
Section Def.
Context {F : Type} `{Scalar F}.

(** The hierarchical graph and the sub-modules [__init__] builds over it;
    [super] is the [BaseGraphModel] part of the object. *)
Record t := mk {
  super : BaseGraphModel.t F;
  mesh_static_features : list (T2 F);
  m2m_features : list (T2 F);
  mesh_up_features : list (T2 F);
  mesh_down_features : list (T2 F);
  m2m_edge_index : list EdgeIndex;
  mesh_up_edge_index : list EdgeIndex;
  mesh_down_edge_index : list EdgeIndex;
  mesh_embedders : list (MLP F);
  mesh_same_embedders : list (MLP F);
  mesh_up_embedders : list (MLP F);
  mesh_down_embedders : list (MLP F);
  mesh_init_gnns : list (InteractionNet F);
  mesh_read_gnns : list (InteractionNet F)
}.

(** [self.N_levels = len(self.mesh_static_features)]. *)
Definition N_levels (self : t) : nat := length (mesh_static_features self).

(** [self.N_mesh_levels = [mesh_feat.shape[0] for mesh_feat in
    self.mesh_static_features]]. *)
Definition N_mesh_levels (self : t) : list nat :=
  rows2 <$> mesh_static_features self.

Definition get_num_mesh (self : t) : res (nat * nat) :=
  let N_mesh := sum_list (rows2 <$> mesh_static_features self) in
  rbind (getitem (mesh_static_features self) 0) (fun f0 =>
  Ok (N_mesh, N_mesh - rows2 f0)).

Definition embedd_mesh_nodes (self : t) : M (T2 F) :=
  emb <- lift (getitem (mesh_embedders self) 0);
  feat <- lift (getitem (mesh_static_features self) 0);
  call_mlp2 emb feat.

(** The four lists a processor step works on. *)
Definition reps : Type :=
  (list (T3 F) * list (T3 F) * list (T3 F) * list (T3 F))%type.

(** [self.expand_to_batch(emb(feat), batch_size)]. *)
Definition embed_expand (batch_size : nat) (p : MLP F * T2 F) : M (T3 F) :=
  e <- call_mlp2 (fst p) (snd p);
  ret (expand_to_batch e batch_size).

(** The body of the mesh-init loop (lines 247-257). *)
Definition init_body (st : list (T3 F) * list (T3 F))
    (it : Z * InteractionNet F) : M (list (T3 F) * list (T3 F)) :=
  let '(mesh_rep_levels, mesh_up_rep) := st in
  let '(level_l, gnn) := it in
  send_node_rep <- lift (getitem mesh_rep_levels (level_l - 1));
  rec_node_rep <- lift (getitem mesh_rep_levels level_l);
  edge_rep <- lift (getitem mesh_up_rep (level_l - 1));
  '(new_node_rep, new_edge_rep) <-
     call_gnn2 gnn send_node_rep rec_node_rep edge_rep;
  mesh_rep_levels <- lift (setitem mesh_rep_levels level_l new_node_rep);
  mesh_up_rep <- lift (setitem mesh_up_rep (level_l - 1) new_edge_rep);
  ret (mesh_rep_levels, mesh_up_rep).

(** The body of the read-out loop (lines 268-277). *)
Definition read_body (mesh_down_rep : list (T3 F))
    (mesh_rep_levels : list (T3 F)) (it : Z * InteractionNet F)
  : M (list (T3 F)) :=
  let '(level_l, gnn) := it in
  send_node_rep <- lift (getitem mesh_rep_levels (level_l + 1));
  rec_node_rep <- lift (getitem mesh_rep_levels level_l);
  edge_rep <- lift (getitem mesh_down_rep level_l);
  new_node_rep <- call_gnn1 gnn send_node_rep rec_node_rep edge_rep;
  lift (setitem mesh_rep_levels level_l new_node_rep).

(** [hi_processor_step] is the method a subclass overrides. *)
Definition process_step (self : t)
    (hi_processor_step :
       list (T3 F) -> list (T3 F) -> list (T3 F) -> list (T3 F) -> M reps)
    (mesh_rep : T3 F) : M (T3 F) :=
  let batch_size := dimB mesh_rep in
  upper <- mapM (embed_expand batch_size)
             (zip (drop 1 (mesh_embedders self))
                  (drop 1 (mesh_static_features self)));
  let mesh_rep_levels := mesh_rep :: upper in
  mesh_same_rep <- mapM (embed_expand batch_size)
             (zip (mesh_same_embedders self) (m2m_features self));
  mesh_up_rep <- mapM (embed_expand batch_size)
             (zip (mesh_up_embedders self) (mesh_up_features self));
  mesh_down_rep <- mapM (embed_expand batch_size)
             (zip (mesh_down_embedders self) (mesh_down_features self));
  '(mesh_rep_levels, mesh_up_rep) <-
     foldM init_body (enumerate 1 (mesh_init_gnns self))
           (mesh_rep_levels, mesh_up_rep);
  '(mesh_rep_levels, _, _, mesh_down_rep) <-
     hi_processor_step mesh_rep_levels mesh_same_rep mesh_up_rep
                       mesh_down_rep;
  mesh_rep_levels <-
     foldM (read_body mesh_down_rep)
           (zip (range_down (Z.of_nat (N_levels self) - 2) (-1))
                (reverse (mesh_read_gnns self)))
           mesh_rep_levels;
  lift (getitem mesh_rep_levels 0).

(** The base class leaves [hi_processor_step] unimplemented. *)
Definition hi_processor_step_abstract
    (mesh_rep_levels mesh_same_rep mesh_up_rep mesh_down_rep : list (T3 F))
  : M reps :=
  lift (Raise NotImplementedError).

(** *** Well-formed hierarchical models

    The number of edges of each family, per level, as the edge indices
    give them. *)
Definition M_same (self : t) : list nat := length <$> m2m_edge_index self.
Definition M_up (self : t) : list nat := length <$> mesh_up_edge_index self.
Definition M_down (self : t) : list nat :=
  length <$> mesh_down_edge_index self.

(** A graph of [L >= 1] levels: one same-level edge set per level, one up
    and one down edge set per pair of adjacent levels. *)
Definition wf_graph (self : t) : Prop :=
  1 <= N_levels self
  /\ length (m2m_edge_index self) = N_levels self
  /\ length (mesh_up_edge_index self) = N_levels self - 1
  /\ length (mesh_down_edge_index self) = N_levels self - 1.

(** The four lists of representations fit the graph, with batch size [B]
    and [d] features. *)
Definition reps_ok (self : t) (B d : nat) (r : reps) : Prop :=
  let '(mesh_rep_levels, mesh_same_rep, mesh_up_rep, mesh_down_rep) := r in
  shapes B d (N_mesh_levels self) mesh_rep_levels
  /\ shapes B d (M_same self) mesh_same_rep
  /\ shapes B d (M_up self) mesh_up_rep
  /\ shapes B d (M_down self) mesh_down_rep.

(** Static edge features: one row per edge of the edge index. *)
Definition edge_features_ok (d : nat) (embs : list (MLP F))
    (feats : list (T2 F)) (eis : list EdgeIndex) : Prop :=
  Forall2 (embedder_ok d) embs feats
  /\ Forall2 (fun feat ei => rows2 feat = length ei) feats eis.

(** The [l]-th layer of an inter-level list of GNNs sends from level
    [l + src] to level [l + dst] over the [l]-th edge set of [Ms]. *)
Definition level_gnns_ok (self : t) (d : nat) (update : bool)
    (src dst : nat) (Ms : list nat) (gnns : list (InteractionNet F)) : Prop :=
  length gnns = length Ms
  /\ forall l g, gnns !! l = Some g ->
       net_update_edges g = update
       /\ exists ns nr m,
            N_mesh_levels self !! (l + src) = Some ns
            /\ N_mesh_levels self !! (l + dst) = Some nr
            /\ Ms !! l = Some m
            /\ net_spec g ns nr m d.

(** The items of the mesh-init loop and of the read-out loop: a level and
    the GNN that updates it. *)
Definition init_item (self : t) (d : nat) (it : Z * InteractionNet F) : Prop :=
  exists l ns nr m,
    it.1 = Z.of_nat (S l)
    /\ net_update_edges it.2 = true
    /\ N_mesh_levels self !! l = Some ns
    /\ N_mesh_levels self !! S l = Some nr
    /\ M_up self !! l = Some m
    /\ net_spec it.2 ns nr m d.

Definition read_item (self : t) (d : nat) (it : Z * InteractionNet F) : Prop :=
  exists l ns nr m,
    it.1 = Z.of_nat l
    /\ net_update_edges it.2 = false
    /\ N_mesh_levels self !! S l = Some ns
    /\ N_mesh_levels self !! l = Some nr
    /\ M_down self !! l = Some m
    /\ net_spec it.2 ns nr m d.

(** A hierarchical model over a well-formed graph, with hidden size [d]:
    what [__init__] builds from a graph whose static features and edge
    indices fit together. *)
Definition wf (self : t) (d : nat) : Prop :=
  wf_graph self
  /\ Forall2 (embedder_ok d) (mesh_embedders self) (mesh_static_features self)
  /\ edge_features_ok d (mesh_same_embedders self) (m2m_features self)
                      (m2m_edge_index self)
  /\ edge_features_ok d (mesh_up_embedders self) (mesh_up_features self)
                      (mesh_up_edge_index self)
  /\ edge_features_ok d (mesh_down_embedders self) (mesh_down_features self)
                      (mesh_down_edge_index self)
  /\ level_gnns_ok self d true 0 1 (M_up self) (mesh_init_gnns self)
  /\ level_gnns_ok self d false 1 0 (M_down self) (mesh_read_gnns self).

(** What [process_step] needs of the [hi_processor_step] of a subclass:
    on representations that fit the graph it returns representations that
    fit the graph. *)
Definition hi_spec (self : t) (d : nat)
    (hi_processor_step :
       list (T3 F) -> list (T3 F) -> list (T3 F) -> list (T3 F) -> M reps)
  : Prop :=
  forall B mesh_rep_levels mesh_same_rep mesh_up_rep mesh_down_rep tr,
    reps_ok self B d
      (mesh_rep_levels, mesh_same_rep, mesh_up_rep, mesh_down_rep) ->
    exists r tr',
      hi_processor_step mesh_rep_levels mesh_same_rep mesh_up_rep
                        mesh_down_rep tr = Ok (r, tr')
      /\ reps_ok self B d r.

(** The overrides a hierarchical model hands to [predict_step]. *)
Definition as_base (self : t)
    (hi_processor_step :
       list (T3 F) -> list (T3 F) -> list (T3 F) -> list (T3 F) -> M reps)
  : BaseGraphModel.overrides F :=
  BaseGraphModel.mkOverrides (embedd_mesh_nodes self)
                             (process_step self hi_processor_step).

End Def.
Arguments t F : clear implicits.
Arguments reps F : clear implicits.
End BaseHiGraphModel.

(** ** class HiLAMParallel(BaseHiGraphModel) *)
Module HiLAMParallel.
Section Def.
Context {F : Type} `{Scalar F}.
Variable forward :
  modid -> net_args -> T3 F -> T3 F -> T3 F -> res (T3 F * T3 F).

Record t := mk {
  super : BaseHiGraphModel.t F;
  edge_split_sections : list nat;
  processor : T3 F -> T3 F -> M (T3 F * T3 F)
}.

(** [__init__], after [super().__init__(hp)] has built [sup]. *)
Definition init (sup : BaseHiGraphModel.t F) (hp : HyperParam) : res t :=
  let total_edge_index_list :=
    BaseHiGraphModel.m2m_edge_index sup
    ++ BaseHiGraphModel.mesh_up_edge_index sup
    ++ BaseHiGraphModel.mesh_down_edge_index sup in
  rbind (match total_edge_index_list with
         | [] => Raise RuntimeError
         | _ => Ok (concat total_edge_index_list)
         end) (fun total_edge_index =>
  let edge_split_sections := length <$> total_edge_index_list in
  let processor :=
    if processor_layers (graph hp) =? 0
    then (fun x edge_attr => ret (x, edge_attr))
    else
      let processor_nets :=
        (fun i => InteractionNet_new forward (nm_processor i)
             (mkArgs total_edge_index (hidden_dim (graph hp))
                     (hidden_layers (graph hp)) true
                     (Some edge_split_sections)
                     (Some (BaseHiGraphModel.N_mesh_levels sup))))
          <$> seq 0 (processor_layers (graph hp)) in
      sequential processor_nets in
  Ok (mk sup edge_split_sections processor)).

Definition hi_processor_step (self : t)
    (mesh_rep_levels mesh_same_rep mesh_up_rep mesh_down_rep : list (T3 F))
  : M (BaseHiGraphModel.reps F) :=
  let N_levels := Z.of_nat (BaseHiGraphModel.N_levels (super self)) in
  mesh_rep <- lift (cat_dim1 mesh_rep_levels);
  mesh_edge_rep <-
    lift (cat_dim1 (mesh_same_rep ++ mesh_up_rep ++ mesh_down_rep));
  '(mesh_rep, mesh_edge_rep) <- processor self mesh_rep mesh_edge_rep;
  mesh_rep_levels <-
    lift (split_dim1 mesh_rep
            (BaseHiGraphModel.N_mesh_levels (super self)));
  mesh_edge_rep_sections <-
    lift (split_dim1 mesh_edge_rep (edge_split_sections self));
  let mesh_same_rep := slice_to mesh_edge_rep_sections N_levels in
  let mesh_up_rep :=
    slice mesh_edge_rep_sections N_levels (N_levels + (N_levels - 1)) in
  let mesh_down_rep :=
    slice_from mesh_edge_rep_sections (N_levels + (N_levels - 1)) in
  ret (mesh_rep_levels, mesh_same_rep, mesh_up_rep, mesh_down_rep).

End Def.
Arguments t F : clear implicits.
End HiLAMParallel.

(** ** class HiLAM(BaseHiGraphModel) *)
Module HiLAM.
Section Def.
Context {F : Type} `{Scalar F}.
Variable forward :
  modid -> net_args -> T3 F -> T3 F -> T3 F -> res (T3 F * T3 F).

Record t := mk {
  super : BaseHiGraphModel.t F;
  mesh_down_gnns : list (list (InteractionNet F));
  mesh_down_same_gnns : list (list (InteractionNet F));
  mesh_up_gnns : list (list (InteractionNet F));
  mesh_up_same_gnns : list (list (InteractionNet F))
}.

(** One [InteractionNet] per edge index of [edge_indices]; [name] is where
    the caller stores the list ([nn.ModuleList]) that is returned. *)
Definition make_gnns (name : nat -> modid) (edge_indices : list EdgeIndex)
    (hp : HyperParam) : list (InteractionNet F) :=
  imap (fun l edge_index =>
          InteractionNet_new forward (name l)
            (mkArgs edge_index (hidden_dim (graph hp))
                    (hidden_layers (graph hp)) true None None))
       edge_indices.

Definition make_same_gnns (name : nat -> modid) (sup : BaseHiGraphModel.t F)
    (hp : HyperParam) : list (InteractionNet F) :=
  make_gnns name (BaseHiGraphModel.m2m_edge_index sup) hp.

Definition make_up_gnns (name : nat -> modid) (sup : BaseHiGraphModel.t F)
    (hp : HyperParam) : list (InteractionNet F) :=
  make_gnns name (BaseHiGraphModel.mesh_up_edge_index sup) hp.

Definition make_down_gnns (name : nat -> modid) (sup : BaseHiGraphModel.t F)
    (hp : HyperParam) : list (InteractionNet F) :=
  make_gnns name (BaseHiGraphModel.mesh_down_edge_index sup) hp.

(** [__init__], after [super().__init__(hp)] has built [sup]. *)
Definition init (sup : BaseHiGraphModel.t F) (hp : HyperParam) : t :=
  let layers := seq 0 (processor_layers (graph hp)) in
  mk sup
     ((fun i => make_down_gnns (nm_mesh_down_gnns i) sup hp) <$> layers)
     ((fun i => make_same_gnns (nm_mesh_down_same_gnns i) sup hp) <$> layers)
     ((fun i => make_up_gnns (nm_mesh_up_gnns i) sup hp) <$> layers)
     ((fun i => make_same_gnns (nm_mesh_up_same_gnns i) sup hp) <$> layers).

(** The three lists a sweep works on: nodes, same-level edges, and the up
    or down edges. *)
Definition sweep_state : Type :=
  (list (T3 F) * list (T3 F) * list (T3 F))%type.

(** The body of the loop of [mesh_down_step] (lines 493-505). *)
Definition down_body (st : sweep_state)
    (it : Z * InteractionNet F * InteractionNet F) : M sweep_state :=
  let '(mesh_rep_levels, mesh_same_rep, mesh_down_rep) := st in
  let '(level_l, down_gnn, same_gnn) := it in
  send_node_rep <- lift (getitem mesh_rep_levels (level_l + 1));
  rec_node_rep <- lift (getitem mesh_rep_levels level_l);
  down_edge_rep <- lift (getitem mesh_down_rep level_l);
  same_edge_rep <- lift (getitem mesh_same_rep level_l);
  '(new_node_rep, new_down) <-
     call_gnn2 down_gnn send_node_rep rec_node_rep down_edge_rep;
  mesh_down_rep <- lift (setitem mesh_down_rep level_l new_down);
  '(new_rep, new_same) <-
     call_gnn2 same_gnn new_node_rep new_node_rep same_edge_rep;
  mesh_rep_levels <- lift (setitem mesh_rep_levels level_l new_rep);
  mesh_same_rep <- lift (setitem mesh_same_rep level_l new_same);
  ret (mesh_rep_levels, mesh_same_rep, mesh_down_rep).

Definition mesh_down_step (self : t)
    (mesh_rep_levels mesh_same_rep mesh_down_rep : list (T3 F))
    (down_gnns same_gnns : list (InteractionNet F)) : M sweep_state :=
  let N_levels := Z.of_nat (BaseHiGraphModel.N_levels (super self)) in
  top_gnn <- lift (getitem same_gnns (-1));
  top_rep <- lift (getitem mesh_rep_levels (-1));
  top_same <- lift (getitem mesh_same_rep (-1));
  '(new_rep, new_same) <- call_gnn2 top_gnn top_rep top_rep top_same;
  mesh_rep_levels <- lift (setitem mesh_rep_levels (-1) new_rep);
  mesh_same_rep <- lift (setitem mesh_same_rep (-1) new_same);
  foldM down_body
        (zip (zip (range_down (N_levels - 2) (-1)) (reverse down_gnns))
             (reverse (slice_to same_gnns (-1))))
        (mesh_rep_levels, mesh_same_rep, mesh_down_rep).

(** The body of the loop of [mesh_up_step] (lines 524-537). *)
Definition up_body (st : sweep_state)
    (it : Z * (InteractionNet F * InteractionNet F)) : M sweep_state :=
  let '(mesh_rep_levels, mesh_same_rep, mesh_up_rep) := st in
  let '(level_l, (up_gnn, same_gnn)) := it in
  send_node_rep <- lift (getitem mesh_rep_levels (level_l - 1));
  rec_node_rep <- lift (getitem mesh_rep_levels level_l);
  up_edge_rep <- lift (getitem mesh_up_rep (level_l - 1));
  same_edge_rep <- lift (getitem mesh_same_rep level_l);
  '(new_node_rep, new_up) <-
     call_gnn2 up_gnn send_node_rep rec_node_rep up_edge_rep;
  mesh_up_rep <- lift (setitem mesh_up_rep (level_l - 1) new_up);
  '(new_rep, new_same) <-
     call_gnn2 same_gnn new_node_rep new_node_rep same_edge_rep;
  mesh_rep_levels <- lift (setitem mesh_rep_levels level_l new_rep);
  mesh_same_rep <- lift (setitem mesh_same_rep level_l new_same);
  ret (mesh_rep_levels, mesh_same_rep, mesh_up_rep).

Definition mesh_up_step (self : t)
    (mesh_rep_levels mesh_same_rep mesh_up_rep : list (T3 F))
    (up_gnns same_gnns : list (InteractionNet F)) : M sweep_state :=
  bottom_gnn <- lift (getitem same_gnns 0);
  bottom_rep <- lift (getitem mesh_rep_levels 0);
  bottom_same <- lift (getitem mesh_same_rep 0);
  '(new_rep, new_same) <-
     call_gnn2 bottom_gnn bottom_rep bottom_rep bottom_same;
  mesh_rep_levels <- lift (setitem mesh_rep_levels 0 new_rep);
  mesh_same_rep <- lift (setitem mesh_same_rep 0 new_same);
  foldM up_body
        (enumerate 1 (zip up_gnns (slice_from same_gnns 1)))
        (mesh_rep_levels, mesh_same_rep, mesh_up_rep).

(** One repetition of the loop of [hi_processor_step]: down, then up. *)
Definition layer_body (self : t) (st : BaseHiGraphModel.reps F)
    (it : list (InteractionNet F) * list (InteractionNet F)
          * list (InteractionNet F) * list (InteractionNet F))
  : M (BaseHiGraphModel.reps F) :=
  let '(mesh_rep_levels, mesh_same_rep, mesh_up_rep, mesh_down_rep) := st in
  let '(down_gnns, down_same_gnns, up_gnns, up_same_gnns) := it in
  '(mesh_rep_levels, mesh_same_rep, mesh_down_rep) <-
     mesh_down_step self mesh_rep_levels mesh_same_rep mesh_down_rep
                    down_gnns down_same_gnns;
  '(mesh_rep_levels, mesh_same_rep, mesh_up_rep) <-
     mesh_up_step self mesh_rep_levels mesh_same_rep mesh_up_rep
                  up_gnns up_same_gnns;
  ret (mesh_rep_levels, mesh_same_rep, mesh_up_rep, mesh_down_rep).

Definition hi_processor_step (self : t)
    (mesh_rep_levels mesh_same_rep mesh_up_rep mesh_down_rep : list (T3 F))
  : M (BaseHiGraphModel.reps F) :=
  foldM (layer_body self)
        (zip (zip (zip (mesh_down_gnns self) (mesh_down_same_gnns self))
                  (mesh_up_gnns self))
             (mesh_up_same_gnns self))
        (mesh_rep_levels, mesh_same_rep, mesh_up_rep, mesh_down_rep).

(** *** Well-formed models

    In every repetition, the GNNs of each family fit the graph: down GNNs
    send from level [l + 1] to level [l], up GNNs from [l] to [l + 1], and
    same-level GNNs stay on level [l]; all of them return node and edge
    representations. *)
Definition wf (self : t) (d : nat) : Prop :=
  let sup := super self in
  BaseHiGraphModel.wf_graph sup
  /\ Forall (BaseHiGraphModel.level_gnns_ok sup d true 1 0
               (BaseHiGraphModel.M_down sup)) (mesh_down_gnns self)
  /\ Forall (BaseHiGraphModel.level_gnns_ok sup d true 0 0
               (BaseHiGraphModel.M_same sup)) (mesh_down_same_gnns self)
  /\ Forall (BaseHiGraphModel.level_gnns_ok sup d true 0 1
               (BaseHiGraphModel.M_up sup)) (mesh_up_gnns self)
  /\ Forall (BaseHiGraphModel.level_gnns_ok sup d true 0 0
               (BaseHiGraphModel.M_same sup)) (mesh_up_same_gnns self).

(** The items of the two sweep loops: a level, the GNN that brings the
    neighbouring level in, and the same-level GNN of the level. *)
Definition down_item (sup : BaseHiGraphModel.t F) (d : nat)
    (it : Z * InteractionNet F * InteractionNet F) : Prop :=
  exists l n1 n0 md ms,
    it.1.1 = Z.of_nat l
    /\ net_update_edges it.1.2 = true /\ net_update_edges it.2 = true
    /\ BaseHiGraphModel.N_mesh_levels sup !! S l = Some n1
    /\ BaseHiGraphModel.N_mesh_levels sup !! l = Some n0
    /\ BaseHiGraphModel.M_down sup !! l = Some md
    /\ BaseHiGraphModel.M_same sup !! l = Some ms
    /\ net_spec it.1.2 n1 n0 md d /\ net_spec it.2 n0 n0 ms d.

Definition up_item (sup : BaseHiGraphModel.t F) (d : nat)
    (it : Z * (InteractionNet F * InteractionNet F)) : Prop :=
  exists l n0 n1 mu ms,
    it.1 = Z.of_nat (S l)
    /\ net_update_edges it.2.1 = true /\ net_update_edges it.2.2 = true
    /\ BaseHiGraphModel.N_mesh_levels sup !! l = Some n0
    /\ BaseHiGraphModel.N_mesh_levels sup !! S l = Some n1
    /\ BaseHiGraphModel.M_up sup !! l = Some mu
    /\ BaseHiGraphModel.M_same sup !! S l = Some ms
    /\ net_spec it.2.1 n0 n1 mu d /\ net_spec it.2.2 n1 n1 ms d.

(** What a sweep keeps true of its three lists; [Me] are the sizes of the
    up or down edge sets. *)
Definition sweep_inv (sup : BaseHiGraphModel.t F) (B d : nat) (Me : list nat)
    (st : sweep_state) : Prop :=
  shapes B d (BaseHiGraphModel.N_mesh_levels sup) st.1.1
  /\ shapes B d (BaseHiGraphModel.M_same sup) st.1.2
  /\ shapes B d Me st.2.

(** *** The sub-modules a processor step calls, in order

    A down-sweep: the same-level GNN of the top level, then for each lower
    level the down GNN into it and its same-level GNN. *)
Definition down_calls (self : t)
    (down_gnns same_gnns : list (InteractionNet F)) : list modid :=
  let N_levels := Z.of_nat (BaseHiGraphModel.N_levels (super self)) in
  (net_name <$> option_list (last same_gnns))
  ++ concat ((fun it : Z * InteractionNet F * InteractionNet F =>
                [net_name it.1.2; net_name it.2])
             <$> zip (zip (range_down (N_levels - 2) (-1)) (reverse down_gnns))
                     (reverse (slice_to same_gnns (-1)))).

(** An up-sweep: the same-level GNN of level 0, then for each higher level
    the up GNN into it and its same-level GNN. *)
Definition up_calls (up_gnns same_gnns : list (InteractionNet F))
  : list modid :=
  (net_name <$> option_list (head same_gnns))
  ++ concat ((fun it : Z * (InteractionNet F * InteractionNet F) =>
                [net_name it.2.1; net_name it.2.2])
             <$> enumerate 1 (zip up_gnns (slice_from same_gnns 1))).

(** A processor step: per repetition, a down-sweep then an up-sweep. *)
Definition calls (self : t) : list modid :=
  concat ((fun it : list (InteractionNet F) * list (InteractionNet F)
                    * list (InteractionNet F) * list (InteractionNet F) =>
             down_calls self it.1.1.1 it.1.1.2 ++ up_calls it.1.2 it.2)
          <$> zip (zip (zip (mesh_down_gnns self) (mesh_down_same_gnns self))
                       (mesh_up_gnns self))
                  (mesh_up_same_gnns self)).

End Def.
Arguments t F : clear implicits.
End HiLAM.

(** ** Construction of [GraphLAM]

    The constructors only look at which attributes the object has and at
    the shapes of the tensors stored under them.  So here an object is its
    attribute namespace, and a tensor is its shape. *)
Module Construction.

Local Open Scope string_scope.

Inductive value : Type :=
| VBool (b : bool)
| VInt (n : nat)
| VIntList (l : list nat)
| VTensor (shape : list nat)
| VTensorList (shapes : list (list nat))
| VModule (m : modid)
| VModuleList (ms : list modid).

(** The attribute namespace of a Python object. *)
Abbreviation obj := (gmap string value).

Declare Scope res_scope.
Delimit Scope res_scope with res.
Notation "x <- m ; k" := (rbind m (fun x => k))
  (at level 20, m at level 100, k at level 200, only parsing) : res_scope.
Notation "' p <- m ; k" := (rbind m (fun p => k))
  (at level 20, p pattern, m at level 100, k at level 200, only parsing)
  : res_scope.
Local Open Scope res_scope.

(** [self.name]; [nn.Module.__getattr__] raises [AttributeError] for a
    name that was never set. *)
Definition getattr (self : obj) (name : string) : res value :=
  match self !! name with
  | Some v => Ok v
  | None => Raise (AttributeError name)
  end.

(** [self.name = v], and [self.register_buffer(name, v)]. *)
Definition setattr (self : obj) (name : string) (v : value) : obj :=
  <[name := v]> self.

(** [v.shape]. *)
Definition shape_of (v : value) : res (list nat) :=
  match v with
  | VTensor s => Ok s
  | _ => Raise (AttributeError "shape")
  end.

(** [a, b = shape]. *)
Definition unpack2 (s : list nat) : res (nat * nat) :=
  match s with
  | [a; b] => Ok (a, b)
  | _ => Raise ValueError
  end.

(** An attribute that [ARModel.__init__] stores as an integer. *)
Definition getattr_int (self : obj) (name : string) : res nat :=
  v <- getattr self name;
  match v with
  | VInt n => Ok n
  | _ => Raise TypeError
  end.

(** The truth value of [v]. *)
Definition truthy (v : value) : bool :=
  match v with
  | VBool b => b
  | VInt n => negb (Nat.eqb n 0)
  | VIntList l => negb (Nat.eqb (length l) 0)
  | VTensorList l => negb (Nat.eqb (length l) 0)
  | VModuleList l => negb (Nat.eqb (length l) 0)
  | VTensor _ | VModule _ => true
  end.

Section Init.
(** [InteractionNet(edge_index, ...)] on an edge index of the given shape:
    the constructor belongs to neural_lam, so whether it raises is a
    parameter. *)
Variable InteractionNet_init : list nat -> res unit.

(** [InteractionNet(self.<name>, ...)]. *)
Definition new_net (self : obj) (edge_index : string) : res unit :=
  ei <- getattr self edge_index;
  s <- shape_of ei;
  InteractionNet_init s.

(** [BaseGraphModel.__init__]: [self] comes from [ARModel.__init__], and
    [loaded] is what [load_graph(hp)] returned. *)
Definition BaseGraphModel_init (get_num_mesh : obj -> res (nat * nat))
    (hp : HyperParam) (self : obj) (loaded : bool * obj) : res obj :=
  let '(hierarchical, graph_ldict) := loaded in
  let self := setattr self "hierarchical" (VBool hierarchical) in
  let self := graph_ldict ∪ self in
  v <- getattr self "grid_static_features";
  s <- shape_of v;
  '(N_grid, grid_static_dim) <- unpack2 s;
  let self := setattr self "N_grid" (VInt N_grid) in
  '(N_mesh, N_mesh_ignore) <- get_num_mesh self;
  let self := setattr self "N_mesh" (VInt N_mesh) in
  grid_state_dim <- getattr_int self "grid_state_dim";
  grid_forcing_dim <- getattr_int self "grid_forcing_dim";
  batch_static_feature_dim <- getattr_int self "batch_static_feature_dim";
  let grid_dim := 2 * grid_state_dim + grid_static_dim + grid_forcing_dim
                  + batch_static_feature_dim in
  v <- getattr self "g2m_features";
  s <- shape_of v;
  '(g2m_edges, g2m_dim) <- unpack2 s;
  let self := setattr self "g2m_edges" (VInt g2m_edges) in
  v <- getattr self "m2g_features";
  s <- shape_of v;
  '(m2g_edges, m2g_dim) <- unpack2 s;
  let self := setattr self "m2g_edges" (VInt m2g_edges) in
  let self := setattr self "mlp_blueprint_end"
                (VIntList (replicate (hidden_layers (graph hp) + 1)
                                     (hidden_dim (graph hp)))) in
  let self := setattr self "grid_embedder" (VModule nm_grid_embedder) in
  let self := setattr self "g2m_embedder" (VModule nm_g2m_embedder) in
  let self := setattr self "m2g_embedder" (VModule nm_m2g_embedder) in
  _ <- new_net self "g2m_edge_index";
  let self := setattr self "g2m_gnn" (VModule nm_g2m_gnn) in
  let self := setattr self "encoding_grid_mlp" (VModule nm_encoding_grid_mlp) in
  _ <- new_net self "m2g_edge_index";
  let self := setattr self "m2g_gnn" (VModule nm_m2g_gnn) in
  let self := setattr self "output_map" (VModule nm_output_map) in
  Ok self.

(** [GraphLAM.get_num_mesh]. *)
Definition get_num_mesh (self : obj) : res (nat * nat) :=
  v <- getattr self "mesh_static_features";
  s <- shape_of v;
  n <- getitem s 0;
  Ok (n, 0).

(** [[InteractionNet(self.m2m_edge_index, ...) for _ in
    range(hp.graph.processor_layers)]]. *)
Fixpoint processor_nets (self : obj) (layers : nat) : res unit :=
  match layers with
  | 0 => Ok tt
  | S k => _ <- new_net self "m2m_edge_index"; processor_nets self k
  end.

(** [GraphLAM.__init__]. *)
Definition GraphLAM_init (hp : HyperParam) (self : obj) (loaded : bool * obj)
  : res obj :=
  self <- BaseGraphModel_init get_num_mesh hp self loaded;
  h <- getattr self "hierarchical";
  if truthy h then Raise AssertionError
  else
    (* print("In graphLam : hierarchical is set to ", self.hierachical) *)
    _ <- getattr self "hierachical";
    v <- getattr self "mesh_static_features";
    s <- shape_of v;
    mesh_dim <- getitem s 1;
    v <- getattr self "m2m_features";
    s <- shape_of v;
    '(m2m_edges, m2m_dim) <- unpack2 s;
    _ <- getattr self "g2m_edges";
    _ <- getattr self "m2g_edges";
    _ <- getattr self "mlp_blueprint_end";
    let self := setattr self "mesh_embedder" (VModule nm_mesh_embedder) in
    let self := setattr self "m2m_embedder" (VModule nm_m2m_embedder) in
    _ <- processor_nets self (processor_layers (graph hp));
    let self := setattr self "processor"
                  (VModuleList (nm_processor
                                  <$> seq 0 (processor_layers (graph hp)))) in
    Ok self.

End Init.

(** The attributes [BaseGraphModel.__init__] assigns itself. *)
Definition base_assigned : list string :=
  ["N_grid"; "N_mesh"; "g2m_edges"; "m2g_edges"; "mlp_blueprint_end";
   "grid_embedder"; "g2m_embedder"; "m2g_embedder"; "g2m_gnn";
   "encoding_grid_mlp"; "m2g_gnn"; "output_map"].

(** A small non-hierarchical graph: 4 grid nodes, 2 mesh nodes. *)
Definition small_graph : obj :=
  list_to_map
    [("g2m_edge_index", VTensor [2; 4]); ("m2g_edge_index", VTensor [2; 4]);
     ("m2m_edge_index", VTensor [2; 2]);
     ("g2m_features", VTensor [4; 3]); ("m2g_features", VTensor [4; 3]);
     ("m2m_features", VTensor [2; 3]);
     ("mesh_static_features", VTensor [2; 2]);
     ("grid_static_features", VTensor [4; 1]);
     ("step_diff_mean", VTensor [5]); ("step_diff_std", VTensor [5])].

(** The object after [ARModel.__init__] for a dataset with 5 state
    features, 2 forcing features and 1 batch static feature. *)
Definition small_self : obj :=
  list_to_map
    [("grid_state_dim", VInt 5); ("grid_forcing_dim", VInt 2);
     ("batch_static_feature_dim", VInt 1)].

Definition small_hp : HyperParam := mkHyperParam (mkGraph 8 1 4).

End Construction.

(* ===================================================================== *)
(** * py4cast/datasets/__init__.py                                        *)
(* ===================================================================== *)

Module Datasets.

Local Open Scope string_scope.

(** A [pathlib.Path]: its anchor (the root of an absolute path, empty for
    a relative one) and the components that follow it. *)
Record Path := mkPath {
  anchor : string;
  parts : list string
}.

(** [p / name], for a [name] of one component. *)
Definition joinpath (p : Path) (name : string) : Path :=
  mkPath (anchor p) (parts p ++ [name]).

(** [p.parents[i]]: [p] without its last [i + 1] components, and
    [IndexError] when [p] has no more than [i] of them. *)
Definition parents (p : Path) (i : nat) : res Path :=
  if decide (i < length (parts p))
  then Ok (mkPath (anchor p) (take (length (parts p) - S i) (parts p)))
  else Raise IndexError.

(** [__file__] of this module: [py4cast/datasets/__init__.py] below the
    directory [root] that holds the package. *)
Definition module_file (root : Path) : Path :=
  joinpath (joinpath (joinpath root "py4cast") "datasets") "__init__.py".

(** What happens when the module body runs an [import]. *)
Inductive import_outcome : Type :=
| Imported
| ImportRaises (e : exn).

(** [isinstance(e, cls)] for the built-in exception classes:
    [ModuleNotFoundError] is a subclass of [ImportError] and
    [FileNotFoundError] one of [OSError]. *)
Definition isinstance (e cls : exn) : bool :=
  match cls with
  | ImportError =>
      match e with ImportError | ModuleNotFoundError => true | _ => false end
  | OSError =>
      match e with OSError | FileNotFoundError => true | _ => false end
  | _ => bool_decide (e = cls)
  end.

(** [except (cls1, cls2, ...)] catches [e]. *)
Definition caught (classes : list exn) (e : exn) : bool :=
  existsb (isinstance e) classes.

(** A registered dataset: its class and its default configuration file. *)
Record entry := mkEntry {
  dataset_kls : string;
  default_config : Path
}.

(** The module after (part of) its body has run: the [registry] dict and
    the warnings issued so far. *)
Record module_state := mkState {
  registry : gmap string entry;
  warned : list string
}.

(** One [try: from .<module> import <kls>; registry[name] = (kls, config)
    except <classes>: warnings.warn(...)] block. *)
Definition try_register (name kls : string) (config : Path)
    (classes : list exn) (outcome : import_outcome) (st : module_state)
  : res module_state :=
  match outcome with
  | Imported =>
      Ok (mkState (<[name := mkEntry kls config]> (registry st)) (warned st))
  | ImportRaises e =>
      if caught classes e
      then Ok (mkState (registry st)
                       (warned st ++ ["Could not import " ++ kls]))
      else Raise e
  end.

(** The module body, for the package installed in [root]: [imp m] is the
    outcome of importing the sibling module [m]. *)
Definition module_body (root : Path) (imp : string -> import_outcome)
  : res module_state :=
  match imp "base" with
  | ImportRaises e => Raise e
  | Imported =>
      rbind (parents (module_file root) 2) (fun package_root =>
      let default_config_root := joinpath package_root "config" in
      rbind (try_register "smeagol" "SmeagolDataset"
               (joinpath default_config_root "smeagol.json")
               [ImportError] (imp "smeagol") (mkState ∅ []))
        (fun st =>
           try_register "titan" "TitanDataset"
             (joinpath default_config_root "titan.json")
             [ImportError; FileNotFoundError; ModuleNotFoundError]
             (imp "titan") st))
  end.

(** [get_datasets], up to the call of [from_json]: the class and the
    configuration file that are used. *)
Definition get_datasets (st : module_state) (name : string)
    (config_file : option Path) : res (string * Path) :=
  match registry st !! name with
  | None => Raise ValueError
  | Some e =>
      Ok (dataset_kls e,
          match config_file with
          | None => default_config e
          | Some f => f
          end)
  end.

(** The datasets the module tries to register: the module each one is
    imported from (which is also its name in the registry) and its class. *)
Definition dataset_modules : list (string * string) :=
  [("smeagol", "SmeagolDataset"); ("titan", "TitanDataset")].

(** [<root>/config/<name>.json]: where the default configuration of the
    dataset [name] lies when the package is installed in [root]. *)
Definition config_path (root : Path) (name : string) : Path :=
  joinpath (joinpath root "config") (name ++ ".json").

(** A failed import of a missing dependency raises [ModuleNotFoundError],
    or plain [ImportError] when a name is missing from a module that
    exists. *)
Definition missing_dependency (o : import_outcome) : Prop :=
  o = ImportRaises ModuleNotFoundError \/ o = ImportRaises ImportError.

(** The import of [smeagol] fails for a missing dependency; everything
    else is imported. *)
Definition smeagol_missing (m : string) : import_outcome :=
  if bool_decide (m = "smeagol")
  then ImportRaises ModuleNotFoundError
  else Imported.

(** An installation directory. *)
Definition site_packages : Path := mkPath "/" ["opt"; "site-packages"].

End Datasets.

(* ===================================================================== *)
(** * bin/train_vincent.py                                                *)
(* ===================================================================== *)

Module TrainVincent.

Local Open Scope string_scope.

Section Main.
(** Data loaders are opaque. *)
Context {Loader : Type}.

Record Dataset := mkDataset {
  loader : Loader
}.

Record TrainingParams := mkTrainingParams {
  evaluation : option string;
  precision : string;
  val_interval : nat;
  epochs : nat
}.

(** What [main] asks of the trainer. *)
Inductive trainer_call : Type :=
| test (dataloaders : Loader)
| fit (train_dataloaders val_dataloaders : Loader).

(** The truth value of [tp.evaluation]: [None] and the empty string are
    false. *)
Definition truthy (e : option string) : bool :=
  match e with
  | None => false
  | Some s => negb (bool_decide (s = ""))
  end.

(** [main], from the three loaders on; the local variables that matter
    are kept in [locals], and reading one that was never assigned raises
    [UnboundLocalError].  The run name, the checkpoint callback and the
    construction of the trainer do not bear on which loader is used. *)
Definition main (training_dataset val_dataset test_dataset : Dataset)
    (tp : TrainingParams) : res trainer_call :=
  let train_loader := loader training_dataset in
  let val_loader := loader val_dataset in
  let test_loader := loader test_dataset in
  let locals : gmap string Loader := ∅ in
  if truthy (evaluation tp) then
    let locals :=
      if bool_decide (evaluation tp = Some "val")
      then <["eval_loader" := test_loader]>
             (<["eval_loader" := val_loader]> locals)
      else locals in
    match locals !! "eval_loader" with
    | Some eval_loader => Ok (test eval_loader)
    | None => Raise (UnboundLocalError "eval_loader")
    end
  else Ok (fit train_loader val_loader).

End Main.
Arguments Dataset Loader : clear implicits.
Arguments trainer_call Loader : clear implicits.

End TrainVincent.

(* ===================================================================== *)
(** * pnia/models/nlam/models.py, continued                               *)
(* ===================================================================== *)

(** ** class GraphLAM(BaseGraphModel) *)
Module GraphLAM.
Section Def.
Context {F : Type} `{Scalar F}.
(** [forward aggr] is what an [InteractionNet] built with [aggr=aggr]
    computes. *)
Variable forward :
  string -> modid -> net_args -> T3 F -> T3 F -> T3 F -> res (T3 F * T3 F).

(** The flat mesh graph and the sub-modules [__init__] builds over it;
    [processor_nets] are the layers that [pyg.nn.Sequential] chains. *)
Record t := mk {
  super : BaseGraphModel.t F;
  mesh_static_features : T2 F;
  m2m_features : T2 F;
  m2m_edge_index : EdgeIndex;
  mesh_embedder : MLP F;
  m2m_embedder : MLP F;
  processor_nets : list (InteractionNet F)
}.

(** The layers of the processor (lines 327-329); [mesh_aggr] is
    [hp.graph.mesh_aggr]. *)
Definition make_processor_nets (m2m_edge_index : EdgeIndex) (hp : HyperParam)
    (mesh_aggr : string) : list (InteractionNet F) :=
  (fun i => InteractionNet_new (forward mesh_aggr) (nm_processor i)
              (mkArgs m2m_edge_index (hidden_dim (graph hp))
                      (hidden_layers (graph hp)) true None None))
    <$> seq 0 (processor_layers (graph hp)).

Definition get_num_mesh (self : t) : nat * nat :=
  (rows2 (mesh_static_features self), 0).

Definition embedd_mesh_nodes (self : t) : M (T2 F) :=
  call_mlp2 (mesh_embedder self) (mesh_static_features self).

Definition process_step (self : t) (mesh_rep : T3 F) : M (T3 F) :=
  let batch_size := dimB mesh_rep in
  m2m_emb <- call_mlp2 (m2m_embedder self) (m2m_features self);
  let m2m_emb_expanded := expand_to_batch m2m_emb batch_size in
  '(mesh_rep, _) <- sequential (processor_nets self) mesh_rep m2m_emb_expanded;
  ret mesh_rep.

(** The overrides [GraphLAM] hands to [predict_step]. *)
Definition as_base (self : t) : BaseGraphModel.overrides F :=
  BaseGraphModel.mkOverrides (embedd_mesh_nodes self) (process_step self).

(** A model over a mesh of [N] nodes with hidden size [d]: the embedders
    fit the static features, there is one row of edge features per edge,
    and each layer of the processor works on the mesh and its edges.  The
    processor has at least one layer: [pyg.nn.Sequential] refuses an empty
    list of modules. *)
Definition wf (self : t) (d N : nat) : Prop :=
  embedder_ok d (mesh_embedder self) (mesh_static_features self)
  /\ rows2 (mesh_static_features self) = N
  /\ embedder_ok d (m2m_embedder self) (m2m_features self)
  /\ rows2 (m2m_features self) = length (m2m_edge_index self)
  /\ processor_nets self <> []
  /\ Forall (fun g => net_update_edges g = true
                      /\ net_spec g N N (length (m2m_edge_index self)) d)
            (processor_nets self).

End Def.
Arguments t F : clear implicits.
End GraphLAM.

(** ** The order of the calls of [HiLAM], in closed form *)
Module Schedule.

(** The order in which one down-sweep of layer [i] reaches the GNNs of a
    mesh of [L] levels: the same-level GNN of the top level, then, level by
    level downwards, the down GNN into the level and its same-level GNN. *)
Definition down_schedule (L i : nat) : list modid :=
  nm_mesh_down_same_gnns i (L - 1)
  :: concat ((fun l => [nm_mesh_down_gnns i l; nm_mesh_down_same_gnns i l])
             <$> reverse (seq 0 (L - 1))).

(** One up-sweep: the same-level GNN of level 0, then, level by level
    upwards, the up GNN out of level [l] and the same-level GNN of level
    [l + 1]. *)
Definition up_schedule (L i : nat) : list modid :=
  nm_mesh_up_same_gnns i 0
  :: concat ((fun l => [nm_mesh_up_gnns i l; nm_mesh_up_same_gnns i (S l)])
             <$> seq 0 (L - 1)).

(** [n] layers: per layer a down-sweep, then an up-sweep. *)
Definition schedule (L n : nat) : list modid :=
  concat ((fun i => down_schedule L i ++ up_schedule L i) <$> seq 0 n).

(** The names of a family of GNNs: [n] layers of [k] GNNs each, layer by
    layer. *)
Definition grid (c : nat -> nat -> modid) (n k : nat) : list modid :=
  concat ((fun i => c i <$> seq 0 k) <$> seq 0 n).

End Schedule.

(** ** The GNNs of [HiLAM] *)
Module HiLAMAll.
Section Def.
Context {F : Type}.
(** Every GNN of the processor of a [HiLAM] model, family by family. *)
Definition all_gnns (self : HiLAM.t F) : list (InteractionNet F) :=
  concat (HiLAM.mesh_down_gnns self) ++ concat (HiLAM.mesh_down_same_gnns self)
  ++ concat (HiLAM.mesh_up_gnns self) ++ concat (HiLAM.mesh_up_same_gnns self).
End Def.
End HiLAMAll.

(** ** The calls of [BaseHiGraphModel.process_step] *)
Module HiCalls.
Import BaseHiGraphModel.
Section Def.
Context {F : Type}.

(** A [hi_processor_step] that keeps representations fit for the graph and
    calls the sub-modules [pcalls], in that order. *)
Definition hi_spec_calls (self : BaseHiGraphModel.t F) (d : nat)
    (hi_processor_step :
       list (T3 F) -> list (T3 F) -> list (T3 F) -> list (T3 F)
       -> M (BaseHiGraphModel.reps F))
    (pcalls : list modid) : Prop :=
  forall B mesh_rep_levels mesh_same_rep mesh_up_rep mesh_down_rep tr,
    reps_ok self B d
      (mesh_rep_levels, mesh_same_rep, mesh_up_rep, mesh_down_rep) ->
    exists r,
      hi_processor_step mesh_rep_levels mesh_same_rep mesh_up_rep
                        mesh_down_rep tr = Ok (r, tr ++ pcalls)
      /\ reps_ok self B d r.

(** The sub-modules [process_step] calls before the processor: the node
    embedders of the levels above 0, the embedders of the same-level, up
    and down edges, level by level, and the mesh-init GNNs from the bottom
    up. *)
Definition init_calls (self : BaseHiGraphModel.t F) : list modid :=
  (mlp_name <$> drop 1 (mesh_embedders self))
  ++ (mlp_name <$> mesh_same_embedders self)
  ++ (mlp_name <$> mesh_up_embedders self)
  ++ (mlp_name <$> mesh_down_embedders self)
  ++ (net_name <$> mesh_init_gnns self).

(** ... and after it: the read-out GNNs from the top down. *)
Definition read_calls (self : BaseHiGraphModel.t F) : list modid :=
  net_name <$> reverse (mesh_read_gnns self).

End Def.
End HiCalls.

(** ** Construction of [BaseHiGraphModel]

    As for [GraphLAM]: an object is its attribute namespace, a tensor is its
    shape. *)
Module HiConstruction.
Import Construction.
Local Open Scope string_scope.
Local Open Scope res_scope.

(** [BaseGraphModel.get_num_mesh]: left to the subclasses. *)
Definition BaseGraphModel_get_num_mesh (self : obj) : res (nat * nat) :=
  Raise NotImplementedError.

(** The items of a sequence, as [for x in v] and [len(v)] see them: those of
    a list of tensors, of a list of integers or of a [ModuleList]; a tensor
    is the sequence of its slices along the first axis. *)
Definition items (v : value) : res (list value) :=
  match v with
  | VTensorList l => Ok (VTensor <$> l)
  | VTensor (n :: s) => Ok (replicate n (VTensor s))
  | VIntList l => Ok (VInt <$> l)
  | VModuleList l => Ok (VModule <$> l)
  | VTensor [] | VBool _ | VInt _ | VModule _ => Raise TypeError
  end.

(** [v[i]]. *)
Definition index (v : value) (i : Z) : res value :=
  match v with
  | VTensor [] => Raise IndexError
  | _ => l <- items v; getitem l i
  end.

(** [v.shape[i]]. *)
Definition shape_at (v : value) (i : Z) : res nat :=
  s <- shape_of v; getitem s i.

(** A list comprehension, or a [for] loop that only reads. *)
Fixpoint mapR {A B} (f : A -> res B) (l : list A) : res (list B) :=
  match l with
  | [] => Ok []
  | x :: l' => y <- f x; ys <- mapR f l'; Ok (y :: ys)
  end.

(** [BaseHiGraphModel.get_num_mesh]. *)
Definition BaseHiGraphModel_get_num_mesh (self : obj) : res (nat * nat) :=
  v <- getattr self "mesh_static_features";
  feats <- items v;
  rows <- mapR (fun node_feat => shape_at node_feat 0) feats;
  let N_mesh := sum_list rows in
  v <- getattr self "mesh_static_features";
  f0 <- index v 0;
  r0 <- shape_at f0 0;
  Ok (N_mesh, N_mesh - r0).

(** [self.<name>[l].shape[i]]. *)
Definition feature_dim (self : obj) (name : string) (l : Z) (i : Z) : res nat :=
  v <- getattr self name;
  f <- index v l;
  shape_at f i.

(** The body of the loop that prints the structure of the graph (lines
    162-169): what it prints is read off the edge features of level [l]. *)
Definition level_info (self : obj) (N_levels : nat) (l : nat) : res unit :=
  same_level_edges <- feature_dim self "m2m_features" (Z.of_nat l) 0;
  if (Z.of_nat l <? Z.of_nat N_levels - 1)%Z
  then
    up_edges <- feature_dim self "mesh_up_features" (Z.of_nat l) 0;
    down_edges <- feature_dim self "mesh_down_features" (Z.of_nat l) 0;
    Ok tt
  else Ok tt.

Section Init.
Variable InteractionNet_init : list nat -> res unit.

(** [[InteractionNet(edge_index, ...) for edge_index in self.<name>]]. *)
Definition new_nets (self : obj) (name : string) : res nat :=
  v <- getattr self name;
  edge_indices <- items v;
  nets <- mapR (fun edge_index => s <- shape_of edge_index;
                                  InteractionNet_init s) edge_indices;
  Ok (length nets).

(** [BaseHiGraphModel.__init__]. *)
Definition BaseHiGraphModel_init (hp : HyperParam) (self : obj)
    (loaded : bool * obj) : res obj :=
  self <- BaseGraphModel_init InteractionNet_init
            BaseHiGraphModel_get_num_mesh hp self loaded;
  v <- getattr self "mesh_static_features";
  feats <- items v;
  let N_levels := length feats in
  let self := setattr self "N_levels" (VInt N_levels) in
  v <- getattr self "mesh_static_features";
  feats <- items v;
  N_mesh_levels <- mapR (fun mesh_feat => shape_at mesh_feat 0) feats;
  let self := setattr self "N_mesh_levels" (VIntList N_mesh_levels) in
  _ <- mapR (level_info self N_levels) (seq 0 (length N_mesh_levels));
  mesh_dim <- feature_dim self "mesh_static_features" 0 1;
  mesh_same_dim <- feature_dim self "m2m_features" 0 1;
  mesh_up_dim <- feature_dim self "mesh_up_features" 0 1;
  mesh_down_dim <- feature_dim self "mesh_down_features" 0 1;
  _ <- getattr self "mlp_blueprint_end";
  let self := setattr self "mesh_embedders"
                (VModuleList (nm_mesh_embedders <$> seq 0 N_levels)) in
  let self := setattr self "mesh_same_embedders"
                (VModuleList (nm_mesh_same_embedders <$> seq 0 N_levels)) in
  let self := setattr self "mesh_up_embedders"
                (VModuleList (nm_mesh_up_embedders <$> seq 0 (N_levels - 1))) in
  let self := setattr self "mesh_down_embedders"
                (VModuleList (nm_mesh_down_embedders
                                <$> seq 0 (N_levels - 1))) in
  n_init <- new_nets self "mesh_up_edge_index";
  let self := setattr self "mesh_init_gnns"
                (VModuleList (nm_mesh_init_gnns <$> seq 0 n_init)) in
  n_read <- new_nets self "mesh_down_edge_index";
  let self := setattr self "mesh_read_gnns"
                (VModuleList (nm_mesh_read_gnns <$> seq 0 n_read)) in
  Ok self.

End Init.

(** A small hierarchical graph: 4 grid nodes, mesh levels of 2 and 1
    nodes. *)
Definition small_hi_graph : obj :=
  list_to_map
    [("g2m_edge_index", VTensor [2; 4]); ("m2g_edge_index", VTensor [2; 4]);
     ("g2m_features", VTensor [4; 3]); ("m2g_features", VTensor [4; 3]);
     ("grid_static_features", VTensor [4; 1]);
     ("mesh_static_features", VTensorList [[2; 2]; [1; 2]]);
     ("m2m_features", VTensorList [[2; 3]; [1; 3]]);
     ("mesh_up_features", VTensorList [[2; 3]]);
     ("mesh_down_features", VTensorList [[2; 3]]);
     ("m2m_edge_index", VTensorList [[2; 2]; [2; 1]]);
     ("mesh_up_edge_index", VTensorList [[2; 2]]);
     ("mesh_down_edge_index", VTensorList [[2; 2]]);
     ("step_diff_mean", VTensor [5]); ("step_diff_std", VTensor [5])].

(** A graph with one mesh level: no up or down edges. *)
Definition one_level_graph : obj :=
  list_to_map
    [("g2m_edge_index", VTensor [2; 4]); ("m2g_edge_index", VTensor [2; 4]);
     ("g2m_features", VTensor [4; 3]); ("m2g_features", VTensor [4; 3]);
     ("grid_static_features", VTensor [4; 1]);
     ("mesh_static_features", VTensorList [[2; 2]]);
     ("m2m_features", VTensorList [[2; 3]]);
     ("mesh_up_features", VTensorList []);
     ("mesh_down_features", VTensorList []);
     ("m2m_edge_index", VTensorList [[2; 2]]);
     ("mesh_up_edge_index", VTensorList []);
     ("mesh_down_edge_index", VTensorList []);
     ("step_diff_mean", VTensor [5]); ("step_diff_std", VTensor [5])].
End HiConstruction.

(* ===================================================================== *)
(** * A small instance                                                    *)
(* ===================================================================== *)

(** Integer scalars, a mesh of two levels (2 and 1 nodes), one grid node,
    one feature everywhere.  The [InteractionNet]s hand their receiver and
    edge representations back unchanged, and every MLP has zero weights. *)
Module Small.

#[global] Instance Z_scalar : Scalar Z := {|
  fzero := 0%Z;
  fadd := Z.add;
  fmul := Z.mul
|}.

Definition id_forward (name : modid) (args : net_args) (s r e : T3 Z)
  : res (T3 Z * T3 Z) :=
  Ok (r, e).

Definition zero_mlp (name : modid) (n_in n_out : nat) : MLP Z :=
  mkMLP name n_in n_out (fun _ => replicate n_out 0%Z).

Definition ones (n : nat) : T2 Z := mkT2 n 1 (replicate n [1%Z]).

Definition base : BaseGraphModel.t Z :=
  BaseGraphModel.mk
    (mkT2 1 1 [[7%Z]]) (ones 1) (ones 1)
    [3%Z] [0%Z]
    (zero_mlp nm_grid_embedder 5 1)
    (zero_mlp nm_g2m_embedder 1 1)
    (zero_mlp nm_m2g_embedder 1 1)
    (mkNet nm_g2m_gnn false
       (id_forward nm_g2m_gnn (mkArgs [(0, 1)%Z] 1 1 false None None)))
    (zero_mlp nm_encoding_grid_mlp 1 1)
    (mkNet nm_m2g_gnn false
       (id_forward nm_m2g_gnn (mkArgs [(1, 0)%Z] 1 1 false None None)))
    (zero_mlp nm_output_map 1 1).

Definition dims : BaseGraphModel.dims :=
  BaseGraphModel.mkDims 1 1 1 1 1 2 1 1 1.

Definition hi : BaseHiGraphModel.t Z :=
  BaseHiGraphModel.mk base
    [ones 2; ones 1]
    [ones 2; ones 1] [ones 2] [ones 2]
    [[(0, 1); (1, 0)]; [(0, 0)]]%Z
    [[(0, 2); (1, 2)]]%Z
    [[(2, 0); (2, 1)]]%Z
    [zero_mlp (nm_mesh_embedders 0) 1 1; zero_mlp (nm_mesh_embedders 1) 1 1]
    [zero_mlp (nm_mesh_same_embedders 0) 1 1;
     zero_mlp (nm_mesh_same_embedders 1) 1 1]
    [zero_mlp (nm_mesh_up_embedders 0) 1 1]
    [zero_mlp (nm_mesh_down_embedders 0) 1 1]
    [mkNet (nm_mesh_init_gnns 0) true
       (id_forward (nm_mesh_init_gnns 0)
          (mkArgs [(0, 2); (1, 2)]%Z 1 1 true None None))]
    [mkNet (nm_mesh_read_gnns 0) false
       (id_forward (nm_mesh_read_gnns 0)
          (mkArgs [(2, 0); (2, 1)]%Z 1 1 false None None))].

(** Hyper-parameters with [n] processor layers. *)
Definition hp (n : nat) : HyperParam := mkHyperParam (mkGraph 1 1 n).

(** A batch of one: [n] nodes (or edges) with the one feature [x]. *)
Definition rep (n : nat) (x : Z) : T3 Z := mkT3 1 n 1 [replicate n [x]].

Definition levels : list (T3 Z) := [rep 2 5%Z; rep 1 6%Z].
Definition same : list (T3 Z) := [rep 2 1%Z; rep 1 2%Z].
Definition up : list (T3 Z) := [rep 2 3%Z].
Definition down : list (T3 Z) := [rep 2 4%Z].

(** The model with the parallel processor of [n] layers. *)
Definition parallel (n : nat) : HiLAMParallel.t Z :=
  match HiLAMParallel.init id_forward hi (hp n) with
  | Ok m => m
  | Raise _ => HiLAMParallel.mk hi [] (fun x edge_attr => ret (x, edge_attr))
  end.

(** A batch for [predict_step]: state, previous state, batch static
    features and forcing on the one grid node. *)
Definition prev_state : T3 Z := rep 1 10%Z.
Definition prev_prev_state : T3 Z := rep 1 9%Z.
Definition batch_static_features : T3 Z := rep 1 1%Z.
Definition forcing : T3 Z := rep 1 2%Z.

(** The model with the sequential processor, one repetition. *)
Definition hilam : HiLAM.t Z := HiLAM.init id_forward hi (hp 1).

End Small.

(** The flat model over the small graph: two mesh nodes, two mesh edges,
    a processor of two layers. *)
Module SmallFlat.
Import Small.

Definition flat_forward (aggr : string) (name : modid) (args : net_args)
    (s r e : T3 Z) : res (T3 Z * T3 Z) :=
  Ok (r, e).

Definition graphlam : GraphLAM.t Z :=
  GraphLAM.mk base (ones 2) (ones 2) [(0, 1); (1, 0)]%Z
    (zero_mlp nm_mesh_embedder 1 1) (zero_mlp nm_m2m_embedder 1 1)
    (GraphLAM.make_processor_nets flat_forward [(0, 1); (1, 0)]%Z (hp 2)
       "sum").

End SmallFlat.

(* ===================================================================== *)
(** * Properties of the tensor operations                                 *)
(* ===================================================================== *)

Module TorchFacts.
Section Facts.
Context {F : Type}.
Implicit Types (t : T3 F) (ts : list (T3 F)) (v : list (list (list F))).

Lemma has_shape_dims B N D t :
  has_shape B N D t -> dimB t = B /\ dimN t = N /\ dimD t = D.
Proof. intros [_ Hs]. unfold shape3 in Hs. by simplify_eq. Qed.

Lemma has_shape_wf B N D t : has_shape B N D t -> wf3 t.
Proof. by intros [Hw _]. Qed.

Lemma has_shape_intro t : wf3 t -> has_shape (dimB t) (dimN t) (dimD t) t.
Proof. by split. Qed.

Lemma shapes_length B D Ns ts : shapes B D Ns ts -> length ts = length Ns.
Proof. intros Hs. symmetry. by eapply Forall2_length. Qed.

Lemma shapes_app B D Ns1 Ns2 ts1 ts2 :
  shapes B D Ns1 ts1 -> shapes B D Ns2 ts2 ->
  shapes B D (Ns1 ++ Ns2) (ts1 ++ ts2).
Proof. apply Forall2_app. Qed.

Lemma shapes_dimN B D Ns ts : shapes B D Ns ts -> dimN <$> ts = Ns.
Proof.
  induction 1 as [|n t Ns ts Ht _ IH]; [done|].
  apply has_shape_dims in Ht as (_ & <- & _). by rewrite fmap_cons, IH.
Qed.

(** Row-wise facts about appending and cutting. *)
Lemma take_zip_app (n : nat) (a b : list (list (list F))) :
  length a = length b -> Forall (fun m => length m = n) a ->
  take n <$> zip_with app a b = a.
Proof.
  revert b. induction a as [|x a IH]; intros [|y b] Hl Ha; simplify_eq/=; [done|].
  inversion Ha as [|?? Hx Ha']; subst.
  rewrite take_app_length. f_equal. by apply IH.
Qed.

Lemma drop_zip_app (n : nat) (a b : list (list (list F))) :
  length a = length b -> Forall (fun m => length m = n) a ->
  drop n <$> zip_with app a b = b.
Proof.
  revert b. induction a as [|x a IH]; intros [|y b] Hl Ha; simplify_eq/=; [done|].
  inversion Ha as [|?? Hx Ha']; subst.
  rewrite drop_app_length. f_equal. by apply IH.
Qed.

Lemma zip_take_drop (n : nat) v :
  zip_with app (take n <$> v) (drop n <$> v) = v.
Proof.
  induction v as [|m v IH]; [done|]. csimpl. by rewrite take_drop, IH.
Qed.

Lemma cat_vals_length B ts :
  Forall (fun t => length (val3 t) = B) ts -> length (cat_vals B ts) = B.
Proof.
  induction 1 as [|t ts Ht _ IH]; simpl.
  - by rewrite length_replicate.
  - rewrite length_zip_with. rewrite IH, Ht. lia.
Qed.

Lemma cat_vals_wf B D ts :
  Forall (fun t => wf3 t /\ dimB t = B /\ dimD t = D) ts ->
  Forall (wf_mat (sum_list (dimN <$> ts)) D) (cat_vals B ts).
Proof.
  induction 1 as [|t ts (Hw & HB & HD) Hts IH]; simpl.
  - apply Forall_replicate. split; [done|constructor].
  - destruct Hw as [Hlen Hmats]. rewrite HD in Hmats.
    assert (Hl : length (val3 t) = length (cat_vals B ts)).
    { rewrite cat_vals_length; [congruence|].
      eapply Forall_impl; [exact Hts|]. intros t' ([? _] & ? & _). congruence. }
    revert Hl Hmats IH. generalize (cat_vals B ts) (val3 t).
    intros c a. revert c.
    induction a as [|x a IHa]; intros [|y c] Hl Ha Hc; simplify_eq/=;
      [constructor|].
    inversion Ha as [|?? [Hx1 Hx2] Ha']; subst.
    inversion Hc as [|?? [Hy1 Hy2] Hc']; subst.
    constructor; [|by apply IHa].
    split; [rewrite length_app; lia|by apply Forall_app].
Qed.

(** [torch.cat] along the node axis succeeds on a non-empty list of
    tensors that agree on batch and feature sizes. *)
Lemma cat_dim1_ok B D Ns ts :
  ts <> [] -> shapes B D Ns ts ->
  exists c, cat_dim1 ts = Ok c /\ has_shape B (sum_list Ns) D c
            /\ val3 c = cat_vals B ts.
Proof.
  intros Hne Hs.
  assert (Hall : Forall (fun t => wf3 t /\ dimB t = B /\ dimD t = D) ts).
  { clear Hne. induction Hs as [|n t Ns ts Ht _ IH]; constructor; [|done].
    pose proof (has_shape_dims _ _ _ _ Ht) as (? & ? & ?).
    split; [by eapply has_shape_wf|done]. }
  rewrite <- (shapes_dimN _ _ _ _ Hs). clear Hs.
  destruct ts as [|t0 ts']; [done|]. unfold cat_dim1.
  assert (Hfb : forallb (fun t => (dimB t =? dimB t0) && (dimD t =? dimD t0))
                        (t0 :: ts') = true).
  { apply forallb_forall. intros t Hin.
    rewrite Forall_forall in Hall.
    pose proof (Hall t0 ltac:(left)) as (_ & HB0 & HD0).
    apply list_elem_of_In in Hin.
    pose proof (Hall t Hin) as (_ & HBt & HDt).
    apply andb_true_iff. split; apply Nat.eqb_eq; congruence. }
  rewrite Hfb.
  inversion Hall as [|?? (Hw0 & HB0 & HD0) _]; subst.
  eexists; split; [reflexivity|]. split; [|done].
  split; [|done].
  split; cbn [val3 dimB dimN dimD].
  - apply cat_vals_length. eapply Forall_impl; [exact Hall|].
    intros t ([? _] & ? & _). congruence.
  - by apply cat_vals_wf.
Qed.

Lemma split_vals_cat B ts :
  Forall (fun t => wf3 t /\ dimB t = B) ts ->
  split_vals (cat_vals B ts) (dimN <$> ts) = val3 <$> ts.
Proof.
  induction 1 as [|t ts (Hw & HB) Hts IH]; [done|].
  rewrite !fmap_cons. simpl.
  destruct Hw as [Hlen Hmats].
  assert (Hl : length (val3 t) = length (cat_vals B ts)).
  { rewrite cat_vals_length; [congruence|].
    eapply Forall_impl; [exact Hts|]. intros t' ([? _] & ?). congruence. }
  assert (Hn : Forall (fun m => length m = dimN t) (val3 t)).
  { eapply Forall_impl; [exact Hmats|]. by intros m [? _]. }
  rewrite take_zip_app, drop_zip_app by done. by rewrite IH.
Qed.

Lemma rebuild_tensors B D ts :
  Forall (fun t => dimB t = B /\ dimD t = D) ts ->
  zip_with (fun n v => mkT3 B n D v) (dimN <$> ts) (val3 <$> ts) = ts.
Proof.
  induction 1 as [|[b n d v] ts [HB HD] _ IH]; [done|].
  rewrite !fmap_cons. simpl in *. subst. by rewrite IH.
Qed.

Lemma split_vals_shapes B D sizes v :
  length v = B -> Forall (wf_mat (sum_list sizes) D) v ->
  shapes B D sizes (zip_with (fun n w => mkT3 B n D w) sizes (split_vals v sizes)).
Proof.
  revert v. induction sizes as [|n sizes IH]; intros v Hlen Hv; [constructor|].
  simpl. constructor.
  - split; [|done]. split; cbn [val3 dimB dimN dimD].
    + by rewrite length_fmap.
    + apply Forall_fmap. eapply Forall_impl; [exact Hv|].
      intros m [Hm Hrows]. simpl in Hm. split.
      * rewrite length_take. lia.
      * by apply Forall_take.
  - apply IH; [by rewrite length_fmap|].
    apply Forall_fmap. eapply Forall_impl; [exact Hv|].
    intros m [Hm Hrows]. simpl in Hm. split.
    + rewrite length_drop. lia.
    + by apply Forall_drop.
Qed.

Lemma cat_split_vals B D sizes v :
  length v = B -> Forall (fun m => length m = sum_list sizes) v ->
  cat_vals B (zip_with (fun n w => mkT3 B n D w) sizes (split_vals v sizes)) = v.
Proof.
  revert v. induction sizes as [|n sizes IH]; intros v Hlen Hv; simpl.
  - subst B. clear -Hv. induction Hv as [|m v Hm _ IH]; [done|].
    simpl in *. apply nil_length_inv in Hm. by rewrite Hm, IH.
  - unfold cat_vals in IH |- *. cbn [foldr val3]. rewrite IH.
    + apply zip_take_drop.
    + by rewrite length_fmap.
    + apply Forall_fmap. eapply Forall_impl; [exact Hv|].
      intros m Hm. simpl in *. rewrite length_drop. lia.
Qed.

(** [torch.split] of a well-formed tensor by sizes that sum to its node
    size: the parts have the sizes asked for, and concatenating them gives
    the tensor back. *)
Lemma split_dim1_ok B D sizes t :
  has_shape B (sum_list sizes) D t ->
  exists parts, split_dim1 t sizes = Ok parts /\ shapes B D sizes parts
                /\ (sizes <> [] -> cat_dim1 parts = Ok t).
Proof.
  intros Ht. pose proof (has_shape_dims _ _ _ _ Ht) as (HB & HN & HD).
  destruct Ht as [[Hlen Hmats] _]. unfold split_dim1.
  rewrite HN, Nat.eqb_refl. rewrite HB, HD, HN in *.
  eexists; split; [reflexivity|].
  pose proof (split_vals_shapes B D sizes (val3 t) Hlen Hmats) as Hsh.
  split; [done|]. intros Hne.
  assert (Hne' : zip_with (fun n w => mkT3 B n D w) sizes
                    (split_vals (val3 t) sizes) <> []).
  { destruct sizes; [done|]. simpl. discriminate. }
  destruct (cat_dim1_ok B D sizes _ Hne' Hsh) as (c & Hc & Hcs & Hcv).
  rewrite Hc. f_equal.
  pose proof (has_shape_dims _ _ _ _ Hcs) as (HB' & HN' & HD').
  destruct c as [cb cn cd cv], t as [tb tn td tv]; simpl in *. subst.
  f_equal. apply cat_split_vals; [done|].
  eapply Forall_impl; [exact Hmats|]. by intros m [? _].
Qed.

(** Splitting what was concatenated, by the sizes of the parts. *)
Lemma split_after_cat B D sizes ts c :
  shapes B D sizes ts -> cat_dim1 ts = Ok c -> split_dim1 c sizes = Ok ts.
Proof.
  intros Hs Hc.
  assert (Hne : ts <> []) by (intros ->; discriminate).
  destruct (cat_dim1_ok B D sizes ts Hne Hs) as (c' & Hc' & Hcs & Hcv).
  rewrite Hc in Hc'. injection Hc' as <-.
  pose proof (has_shape_dims _ _ _ _ Hcs) as (HB & HN & HD).
  unfold split_dim1. rewrite HN, Nat.eqb_refl, Hcv, HB, HD. f_equal.
  pose proof (shapes_dimN _ _ _ _ Hs) as Hsz. rewrite <- Hsz.
  rewrite split_vals_cat.
  - apply rebuild_tensors. clear -Hs.
    induction Hs as [|n t Ns ts' Ht _ IH]; constructor; [|done].
    by apply has_shape_dims in Ht as (? & _ & ?).
  - clear -Hs. induction Hs as [|n t Ns ts' Ht _ IH]; constructor; [|done].
    split; [by eapply has_shape_wf|]. by apply has_shape_dims in Ht as (? & _).
Qed.

End Facts.
End TorchFacts.



Module RoundTrip.
Import TorchFacts.
Section RoundTrip.
Context {F : Type}.

(** C7.  Concatenation/split round trip: for a level partition [sizes] and
    per-level tensors [ts] whose node sizes are the ones of the partition
    (same batch size and feature size, at least one level),
    [torch.cat(ts, dim=1)] succeeds, and [torch.split] of the result by
    [sizes] gives back exactly [ts]. *)
Theorem cat_split_roundtrip (B D : nat) (sizes : list nat) (ts : list (T3 F)) :
  ts <> [] -> shapes B D sizes ts ->
  exists c, cat_dim1 ts = Ok c /\ has_shape B (sum_list sizes) D c
            /\ split_dim1 c sizes = Ok ts.
Proof.
  intros Hne Hs.
  destruct (cat_dim1_ok B D sizes ts Hne Hs) as (c & Hc & Hcs & _).
  exists c. split; [done|]. split; [done|].
  by apply (split_after_cat B D sizes ts c).
Qed.

End RoundTrip.
End RoundTrip.

(* ===================================================================== *)
(** * Properties of Python sequences and of the forward-pass monad        *)
(* ===================================================================== *)

Module PyFacts.
Section Facts.
Context {A : Type}.
Implicit Types (l : list A).

Lemma slice_bound_nat (len n : nat) :
  slice_bound len (Z.of_nat n) = n `min` len.
Proof.
  unfold slice_bound.
  destruct (Z.ltb_spec (Z.of_nat n) 0) as [Hlt|_]; lia.
Qed.

Lemma slice_to_nat l (n : nat) : slice_to l (Z.of_nat n) = take n l.
Proof.
  unfold slice_to. rewrite slice_bound_nat.
  destruct (Nat.le_ge_cases n (length l)) as [Hle|Hge].
  - by rewrite Nat.min_l.
  - rewrite Nat.min_r by done. by rewrite !take_ge.
Qed.

Lemma slice_from_nat l (n : nat) : slice_from l (Z.of_nat n) = drop n l.
Proof.
  unfold slice_from. rewrite slice_bound_nat.
  destruct (Nat.le_ge_cases n (length l)) as [Hle|Hge].
  - by rewrite Nat.min_l.
  - rewrite Nat.min_r by done. by rewrite !drop_ge.
Qed.

Lemma slice_nat l (a b : nat) :
  a <= b -> slice l (Z.of_nat a) (Z.of_nat b) = take (b - a) (drop a l).
Proof.
  intros Hab. unfold slice. rewrite !slice_bound_nat.
  destruct (Nat.le_ge_cases a (length l)) as [Ha|Ha].
  - rewrite (Nat.min_l a) by done.
    destruct (Nat.le_ge_cases b (length l)) as [Hb|Hb].
    + by rewrite Nat.min_l.
    + rewrite Nat.min_r by done.
      rewrite !take_ge; [done|rewrite length_drop; lia..].
  - rewrite !Nat.min_r by lia. rewrite !drop_ge by lia. by rewrite !take_nil.
Qed.

Lemma ltb_nat_false (i : nat) : (Z.of_nat i <? 0)%Z = false.
Proof. apply Z.ltb_ge. lia. Qed.

Lemma getitem_nat l (i : nat) x :
  l !! i = Some x -> getitem l (Z.of_nat i) = Ok x.
Proof.
  intros Hx. unfold getitem. rewrite !ltb_nat_false.
  by rewrite Nat2Z.id, Hx.
Qed.

Lemma setitem_nat l (i : nat) x :
  i < length l -> setitem l (Z.of_nat i) x = Ok (<[i := x]> l).
Proof.
  intros Hi. unfold setitem. rewrite !ltb_nat_false.
  rewrite Nat2Z.id. by rewrite decide_True.
Qed.

Lemma getitem_last l x : getitem (l ++ [x]) (-1) = Ok x.
Proof.
  unfold getitem. change (-1 <? 0)%Z with true. cbv iota.
  rewrite length_app. simpl length.
  replace (Z.of_nat (length l + 1) + -1)%Z with (Z.of_nat (length l)) by lia.
  rewrite ltb_nat_false, Nat2Z.id. by rewrite list_lookup_middle.
Qed.

Lemma setitem_last l x y : setitem (l ++ [x]) (-1) y = Ok (l ++ [y]).
Proof.
  unfold setitem. change (-1 <? 0)%Z with true. cbv iota.
  rewrite length_app. simpl length.
  replace (Z.of_nat (length l + 1) + -1)%Z with (Z.of_nat (length l)) by lia.
  rewrite ltb_nat_false, Nat2Z.id.
  rewrite decide_True by lia.
  f_equal. replace (length l) with (length l + 0) at 1 by lia.
  by rewrite insert_app_r.
Qed.

End Facts.
End PyFacts.

Module FwdFacts.
Section Facts.
Context {A B : Type}.

Lemma bind_eq (m : M A) (k : A -> M B) tr a tr' :
  m tr = Ok (a, tr') -> bind m k tr = k a tr'.
Proof. intros Hm. unfold bind. by rewrite Hm. Qed.

Lemma bind_lift (r : res A) (k : A -> M B) tr a :
  r = Ok a -> bind (lift r) k tr = k a tr.
Proof. by intros ->. Qed.

Lemma bind_ok_inv (m : M A) (k : A -> M B) tr r :
  bind m k tr = Ok r -> exists a tr', m tr = Ok (a, tr') /\ k a tr' = Ok r.
Proof.
  unfold bind. destruct (m tr) as [[a tr']|e]; [|discriminate]. eauto.
Qed.

End Facts.
End FwdFacts.

(* ===================================================================== *)
(** * HiLAMParallel: join, process, split                                 *)
(* ===================================================================== *)

Module ParallelFacts.
Import TorchFacts PyFacts FwdFacts.
Import BaseHiGraphModel.
Section Facts.
Context {F : Type}.
Implicit Types (self : HiLAMParallel.t F) (sup : BaseHiGraphModel.t F).

(** What [__init__] leaves on the object. *)
Lemma init_inv forward sup hp self :
  HiLAMParallel.init forward sup hp = Ok self ->
  HiLAMParallel.super self = sup
  /\ HiLAMParallel.edge_split_sections self = M_same sup ++ M_up sup ++ M_down sup
  /\ HiLAMParallel.processor self =
       if processor_layers (graph hp) =? 0
       then (fun x edge_attr => ret (x, edge_attr))
       else sequential
              ((fun i => InteractionNet_new forward (nm_processor i)
                   (mkArgs (concat (m2m_edge_index sup ++ mesh_up_edge_index sup
                                    ++ mesh_down_edge_index sup))
                           (hidden_dim (graph hp)) (hidden_layers (graph hp))
                           true
                           (Some (M_same sup ++ M_up sup ++ M_down sup))
                           (Some (N_mesh_levels sup))))
                 <$> seq 0 (processor_layers (graph hp))).
Proof.
  assert (Hsec : length <$> (m2m_edge_index sup ++ mesh_up_edge_index sup
                             ++ mesh_down_edge_index sup)
                 = M_same sup ++ M_up sup ++ M_down sup).
  { unfold M_same, M_up, M_down. by rewrite !fmap_app. }
  unfold HiLAMParallel.init. cbv zeta. rewrite Hsec.
  destruct (m2m_edge_index sup ++ mesh_up_edge_index sup
            ++ mesh_down_edge_index sup) as [|e es]; [discriminate|].
  cbn [rbind]. by intros [= <-].
Qed.

(** A chain of [InteractionNet]s that each keep shapes keeps shapes, and
    calls the layers in order. *)
Lemma sequential_spec (nets : list (InteractionNet F)) N Me d B node edge tr :
  Forall (fun g => net_update_edges g = true /\ net_spec g N N Me d) nets ->
  has_shape B N d node -> has_shape B Me d edge ->
  exists node' edge',
    sequential nets node edge tr = Ok ((node', edge'), tr ++ (net_name <$> nets))
    /\ has_shape B N d node' /\ has_shape B Me d edge'.
Proof.
  unfold sequential. intros Hnets. revert node edge tr.
  induction Hnets as [|g nets [Hup Hg] _ IH]; intros node edge tr Hn He.
  - exists node, edge. simpl. unfold ret. by rewrite app_nil_r.
  - destruct (Hg B node node edge Hn Hn He) as (n1 & e1 & Hrun & Hn1 & He1).
    destruct (IH n1 e1 (tr ++ [net_name g]) Hn1 He1) as (n2 & e2 & Hrest & ? & ?).
    exists n2, e2. split; [|done].
    cbn [foldM]. unfold call_gnn2 at 1. rewrite Hup.
    unfold bind at 1. unfold bind at 1. unfold called. cbn [fst snd].
    unfold lift at 1. rewrite Hrun.
    rewrite Hrest. rewrite fmap_cons. by rewrite <- app_assoc.
Qed.

(** One run of [hi_processor_step], given what the processor returns. *)
Lemma parallel_step_run self B d levels same up down tr node edge node' edge' tr' :
  wf_graph (HiLAMParallel.super self) ->
  HiLAMParallel.edge_split_sections self
    = M_same (HiLAMParallel.super self) ++ M_up (HiLAMParallel.super self)
      ++ M_down (HiLAMParallel.super self) ->
  reps_ok (HiLAMParallel.super self) B d (levels, same, up, down) ->
  cat_dim1 levels = Ok node ->
  cat_dim1 (same ++ up ++ down) = Ok edge ->
  HiLAMParallel.processor self node edge tr = Ok ((node', edge'), tr') ->
  has_shape B (sum_list (N_mesh_levels (HiLAMParallel.super self))) d node' ->
  has_shape B (sum_list (HiLAMParallel.edge_split_sections self)) d edge' ->
  exists levels' same' up' down',
    HiLAMParallel.hi_processor_step self levels same up down tr
      = Ok ((levels', same', up', down'), tr')
    /\ split_dim1 node' (N_mesh_levels (HiLAMParallel.super self)) = Ok levels'
    /\ split_dim1 edge' (HiLAMParallel.edge_split_sections self)
         = Ok (same' ++ up' ++ down')
    /\ same' = take (N_levels (HiLAMParallel.super self)) (same' ++ up' ++ down')
    /\ up' = take (N_levels (HiLAMParallel.super self) - 1)
               (drop (N_levels (HiLAMParallel.super self)) (same' ++ up' ++ down'))
    /\ down' = drop (N_levels (HiLAMParallel.super self)
                     + (N_levels (HiLAMParallel.super self) - 1))
                    (same' ++ up' ++ down')
    /\ reps_ok (HiLAMParallel.super self) B d (levels', same', up', down').
Proof.
  remember (HiLAMParallel.super self) as sup eqn:Hsup.
  intros (HL & Hsame & Hup & Hdown) Hsec (Hlv & Hs & Hu & Hd) Hnode Hedge Hproc
         Hn' He'.
  destruct (split_dim1_ok B d _ _ Hn') as (levels' & Hsl & Hlv' & _).
  destruct (split_dim1_ok B d _ _ He') as (parts & Hsp & Hparts & _).
  rewrite Hsec in Hparts.
  apply Forall2_app_inv_l in Hparts as (same' & rest & Hs' & Hrest & ->).
  apply Forall2_app_inv_l in Hrest as (up' & down' & Hu' & Hd' & ->).
  pose proof (shapes_length _ _ _ _ Hs') as Hls.
  pose proof (shapes_length _ _ _ _ Hu') as Hlu.
  pose proof (shapes_length _ _ _ _ Hd') as Hld.
  unfold M_same, M_up, M_down in Hls, Hlu, Hld. rewrite length_fmap in *.
  assert (E1 : take (N_levels sup) (same' ++ up' ++ down') = same').
  { rewrite take_app_le by lia. apply take_ge. lia. }
  assert (E2 : take (N_levels sup - 1)
                 (drop (N_levels sup) (same' ++ up' ++ down')) = up').
  { rewrite drop_app_ge by lia. replace (N_levels sup - length same') with 0 by lia.
    rewrite drop_0, take_app_le by lia. apply take_ge. lia. }
  assert (E3 : drop (N_levels sup + (N_levels sup - 1))
                 (same' ++ up' ++ down') = down').
  { rewrite drop_app_ge by lia. rewrite drop_app_ge by lia.
    replace (N_levels sup + (N_levels sup - 1) - length same' - length up')
      with 0 by lia. apply drop_0. }
  exists levels', same', up', down'.
  split; [|by rewrite E1, E2, E3].
  unfold HiLAMParallel.hi_processor_step. rewrite <- Hsup.
  rewrite (bind_lift _ _ _ _ Hnode), (bind_lift _ _ _ _ Hedge).
  rewrite (bind_eq _ _ _ _ _ Hproc).
  rewrite (bind_lift _ _ _ _ Hsl), (bind_lift _ _ _ _ Hsp).
  unfold ret. do 2 f_equal.
  replace (Z.of_nat (N_levels sup) + (Z.of_nat (N_levels sup) - 1))%Z
    with (Z.of_nat (N_levels sup + (N_levels sup - 1))) by lia.
  rewrite slice_to_nat, slice_from_nat, slice_nat by lia.
  replace (N_levels sup + (N_levels sup - 1) - N_levels sup)
    with (N_levels sup - 1) by lia.
  by rewrite E1, E2, E3.
Qed.

(** The two concatenations of [hi_processor_step] succeed on
    representations that fit the graph. *)
Lemma parallel_join sup B d levels same up down :
  wf_graph sup -> reps_ok sup B d (levels, same, up, down) ->
  exists node edge,
    cat_dim1 levels = Ok node /\ cat_dim1 (same ++ up ++ down) = Ok edge
    /\ has_shape B (sum_list (N_mesh_levels sup)) d node
    /\ has_shape B (sum_list (M_same sup ++ M_up sup ++ M_down sup)) d edge.
Proof.
  intros (HL & Hsame & Hup & Hdown) (Hlv & Hs & Hu & Hd).
  assert (Hne1 : levels <> []).
  { intros ->. apply shapes_length in Hlv. unfold N_mesh_levels in Hlv.
    rewrite length_fmap in Hlv. unfold N_levels in HL. simpl in Hlv. lia. }
  assert (Hne2 : same ++ up ++ down <> []).
  { intros Heq. apply app_eq_nil in Heq as [-> _].
    apply shapes_length in Hs. unfold M_same in Hs.
    rewrite length_fmap in Hs. simpl in Hs. lia. }
  destruct (cat_dim1_ok B d _ _ Hne1 Hlv) as (node & Hnode & Hns & _).
  pose proof (shapes_app _ _ _ _ _ _ Hs (shapes_app _ _ _ _ _ _ Hu Hd)) as Hall.
  destruct (cat_dim1_ok B d _ _ Hne2 Hall) as (edge & Hedge & Hes & _).
  by exists node, edge.
Qed.

End Facts.
End ParallelFacts.

Module ParallelClaims.
Import TorchFacts PyFacts FwdFacts ParallelFacts.
Import BaseHiGraphModel.
Section Claims.
Context {F : Type}.
Variable forward :
  modid -> net_args -> T3 F -> T3 F -> T3 F -> res (T3 F * T3 F).


(** C4.  For a [HiLAMParallel] built with [processor_layers = 0] the
    processor phase is the identity: on representations that fit the graph
    [hi_processor_step] returns the four lists it was given, and no
    sub-module is called (the list of calls is unchanged). *)
Theorem parallel_zero_layers_identity
    (sup : BaseHiGraphModel.t F) (hp : HyperParam) (self : HiLAMParallel.t F)
    (B d : nat) (levels same up down : list (T3 F)) (tr : list modid) :
  processor_layers (graph hp) = 0 ->
  HiLAMParallel.init forward sup hp = Ok self ->
  wf_graph sup ->
  reps_ok sup B d (levels, same, up, down) ->
  HiLAMParallel.hi_processor_step self levels same up down tr
    = Ok ((levels, same, up, down), tr).
Proof.
  intros Hz Hinit Hg Hreps.
  destruct (init_inv _ _ _ _ Hinit) as (Hsup & Hsec & Hproc).
  rewrite Hz in Hproc. cbn [Nat.eqb] in Hproc.
  destruct (parallel_join sup B d levels same up down Hg Hreps)
    as (node & edge & Hnode & Hedge & Hns & Hes).
  assert (Hrun : HiLAMParallel.processor self node edge tr = Ok ((node, edge), tr))
    by (by rewrite Hproc).
  pose proof Hreps as (Hlv & Hs & Hu & Hd).
  pose proof (shapes_app _ _ _ _ _ _ Hs (shapes_app _ _ _ _ _ _ Hu Hd)) as Hall.
  pose proof (split_after_cat _ _ _ _ _ Hlv Hnode) as Hback1.
  pose proof (split_after_cat _ _ _ _ _ Hall Hedge) as Hback2.
  clear Hproc. subst sup. rewrite <- Hsec in Hes.
  destruct (parallel_step_run self B d levels same up down tr node edge
              node edge tr Hg Hsec Hreps Hnode Hedge Hrun Hns Hes)
    as (levels' & same' & up' & down' & Hstep & Hsl & Hsp & E1 & E2 & E3 & Hout).
  rewrite Hstep. rewrite Hsec in Hsp.
  rewrite Hback1 in Hsl. rewrite Hback2 in Hsp.
  injection Hsl as <-. injection Hsp as Happ.
  destruct Hout as (_ & Hs' & Hu' & _).
  apply shapes_length in Hs, Hs', Hu, Hu'.
  apply app_inj_1 in Happ as [<- Happ]; [|congruence].
  apply app_inj_1 in Happ as [<- <-]; [|congruence]. done.
Qed.

End Claims.
End ParallelClaims.

(* ===================================================================== *)
(** * BaseHiGraphModel: init, processor, read-out                         *)
(* ===================================================================== *)

Module HiFacts.
Import TorchFacts PyFacts FwdFacts.
Import BaseHiGraphModel.

(** A loop whose body keeps an invariant, over items that are all fit for
    the body, runs to its end and keeps the invariant. *)
Lemma foldM_inv {A S} (f : S -> A -> M S) (Inv : S -> Prop) (P : A -> Prop) :
  (forall s a tr, Inv s -> P a -> exists s' tr', f s a tr = Ok (s', tr') /\ Inv s') ->
  forall l s tr, Forall P l -> Inv s ->
    exists s' tr', foldM f l s tr = Ok (s', tr') /\ Inv s'.
Proof.
  intros Hbody l. induction l as [|a l IH]; intros s tr Hl Hs.
  - exists s, tr. by split.
  - inversion Hl as [|?? Ha Hl']; subst.
    destruct (Hbody s a tr Hs Ha) as (s1 & tr1 & Hrun & Hs1).
    destruct (IH s1 tr1 Hl' Hs1) as (s2 & tr2 & Hrest & Hs2).
    exists s2, tr2. split; [|done].
    cbn [foldM]. by rewrite (bind_eq _ _ _ _ _ Hrun).
Qed.

Lemma enumerate_lookup {A} (l : list A) (s : Z) (i : nat) p :
  enumerate s l !! i = Some p ->
  exists x, l !! i = Some x /\ p = ((s + Z.of_nat i)%Z, x).
Proof.
  revert s i. induction l as [|y l IH]; intros s i; [done|].
  destruct i as [|i]; simpl.
  - intros [= <-]. exists y. split; [done|]. f_equal. lia.
  - intros Hp. destruct (IH _ _ Hp) as (x & Hx & ->).
    exists x. split; [done|]. f_equal. lia.
Qed.

Lemma range_down_lookup (a : nat) (i : nat) z :
  range_down (Z.of_nat a - 1) (-1) !! i = Some z ->
  i < a /\ z = Z.of_nat (a - 1 - i).
Proof.
  unfold range_down. rewrite list_lookup_fmap.
  destruct (seq 0 _ !! i) as [k|] eqn:Hk; [|done].
  apply lookup_seq in Hk as [-> Hlt]. simpl. intros [= <-]. lia.
Qed.

Section Facts.
Context {F : Type}.
Implicit Types (self : BaseHiGraphModel.t F).

Lemma shapes_lookup B d Ns (ts : list (T3 F)) i n :
  shapes B d Ns ts -> Ns !! i = Some n ->
  exists t, ts !! i = Some t /\ has_shape B n d t.
Proof.
  intros Hs Hn. unfold shapes in Hs.
  destruct (Forall2_lookup_l _ _ _ _ _ Hs Hn) as (t & Ht & Hsh). eauto.
Qed.

Lemma shapes_insert B d Ns (ts : list (T3 F)) i n t :
  shapes B d Ns ts -> Ns !! i = Some n -> has_shape B n d t ->
  shapes B d Ns (<[i := t]> ts).
Proof.
  intros Hs Hn Ht. rewrite <- (list_insert_id Ns i n Hn).
  by apply Forall2_insert.
Qed.

Lemma shapes_lookup_lt B d Ns (ts : list (T3 F)) i n :
  shapes B d Ns ts -> Ns !! i = Some n -> i < length ts.
Proof.
  intros Hs Hn. apply shapes_length in Hs. rewrite Hs.
  by eapply lookup_lt_Some.
Qed.

(** Embedding static features and expanding them to the batch. *)
Lemma embed_expand_ok B d (emb : MLP F) (feat : T2 F) tr :
  embedder_ok d emb feat ->
  exists r, embed_expand B (emb, feat) tr = Ok (r, tr ++ [mlp_name emb])
            /\ has_shape B (rows2 feat) d r.
Proof.
  intros ([Hlen Hrows] & Hok & Hin & Hout).
  unfold embed_expand, call_mlp2, mlp2. cbn [fst snd].
  rewrite Hin, Nat.eqb_refl.
  eexists. split; [reflexivity|].
  split; [|unfold shape3; simpl; by rewrite Hout].
  split; cbn [val3 dimB dimN dimD expand_to_batch rows2 cols2 val2].
  - by rewrite length_replicate.
  - apply Forall_replicate. split.
    + by rewrite length_fmap.
    + apply Forall_fmap. eapply Forall_impl; [exact Hrows|].
      intros v Hv. simpl. apply Hok. congruence.
Qed.

Lemma embed_all_ok B d (embs : list (MLP F)) (feats : list (T2 F)) tr :
  Forall2 (embedder_ok d) embs feats ->
  exists rs tr', mapM (embed_expand B) (zip embs feats) tr = Ok (rs, tr')
                 /\ shapes B d (rows2 <$> feats) rs.
Proof.
  intros Hall. revert tr.
  induction Hall as [|emb feat embs feats Hef _ IH]; intros tr.
  - exists [], tr. split; [done|constructor].
  - destruct (embed_expand_ok B d emb feat tr Hef) as (r & Hr & Hrs).
    destruct (IH (tr ++ [mlp_name emb])) as (rs & tr' & Hrest & Hshapes).
    exists (r :: rs), tr'. split; [|by constructor].
    cbn [zip zip_with mapM]. rewrite (bind_eq _ _ _ _ _ Hr).
    by rewrite (bind_eq _ _ _ _ _ Hrest).
Qed.

Lemma edge_embed_ok B d embs (feats : list (T2 F)) (eis : list EdgeIndex) tr :
  edge_features_ok d embs feats eis ->
  exists rs tr', mapM (embed_expand B) (zip embs feats) tr = Ok (rs, tr')
                 /\ shapes B d (length <$> eis) rs.
Proof.
  intros [Hemb Hrows].
  destruct (embed_all_ok B d embs feats tr Hemb) as (rs & tr' & Hrun & Hs).
  exists rs, tr'. split; [done|].
  replace (length <$> eis) with (rows2 <$> feats); [done|].
  clear -Hrows. induction Hrows as [|f e fs es Hfe _ IH]; [done|].
  by rewrite !fmap_cons, Hfe, IH.
Qed.

Lemma init_items self d :
  level_gnns_ok self d true 0 1 (M_up self) (mesh_init_gnns self) ->
  Forall (init_item self d) (enumerate 1 (mesh_init_gnns self)).
Proof.
  intros [_ Hg]. apply Forall_lookup. intros i p Hp.
  apply enumerate_lookup in Hp as (g & Hgi & ->).
  destruct (Hg i g Hgi) as (Hup & ns & nr & m & Hns & Hnr & Hm & Hspec).
  rewrite Nat.add_0_r in Hns. rewrite Nat.add_1_r in Hnr.
  exists i, ns, nr, m. simpl. repeat split; try done. lia.
Qed.

Lemma read_items self d :
  wf_graph self ->
  level_gnns_ok self d false 1 0 (M_down self) (mesh_read_gnns self) ->
  Forall (read_item self d)
    (zip (range_down (Z.of_nat (N_levels self) - 2) (-1))
         (reverse (mesh_read_gnns self))).
Proof.
  intros (HL & _ & _ & Hdl) [Hlen Hg]. apply Forall_lookup. intros i p Hp.
  apply lookup_zip_with_Some in Hp as (z & g & -> & Hz & Hgi).
  replace (Z.of_nat (N_levels self) - 2)%Z
    with (Z.of_nat (N_levels self - 1) - 1)%Z in Hz by lia.
  apply range_down_lookup in Hz as [Hi ->].
  apply reverse_lookup_Some in Hgi as [Hgi Hlt].
  unfold M_down in Hlen. rewrite length_fmap in Hlen.
  rewrite Hlen, Hdl in Hgi.
  replace (N_levels self - 1 - S i) with (N_levels self - 1 - 1 - i) in Hgi by lia.
  destruct (Hg _ g Hgi) as (Hup & ns & nr & m & Hns & Hnr & Hm & Hspec).
  rewrite Nat.add_1_r in Hns. rewrite Nat.add_0_r in Hnr.
  exists (N_levels self - 1 - 1 - i), ns, nr, m. by simpl.
Qed.

Lemma call_gnn2_ok (g : InteractionNet F) Ns Nr Me d B s r e tr :
  net_update_edges g = true -> net_spec g Ns Nr Me d ->
  has_shape B Ns d s -> has_shape B Nr d r -> has_shape B Me d e ->
  exists r' e', call_gnn2 g s r e tr = Ok ((r', e'), tr ++ [net_name g])
                /\ has_shape B Nr d r' /\ has_shape B Me d e'.
Proof.
  intros Hup Hg Hs Hr He.
  destruct (Hg B s r e Hs Hr He) as (r' & e' & Hrun & Hr' & He').
  exists r', e'. split; [|done].
  unfold call_gnn2, bind, called, lift. by rewrite Hup, Hrun.
Qed.

Lemma call_gnn1_ok (g : InteractionNet F) Ns Nr Me d B s r e tr :
  net_update_edges g = false -> net_spec g Ns Nr Me d ->
  has_shape B Ns d s -> has_shape B Nr d r -> has_shape B Me d e ->
  exists r', call_gnn1 g s r e tr = Ok (r', tr ++ [net_name g])
             /\ has_shape B Nr d r'.
Proof.
  intros Hup Hg Hs Hr He.
  destruct (Hg B s r e Hs Hr He) as (r' & e' & Hrun & Hr' & He').
  exists r'. split; [|done].
  unfold call_gnn1, bind, called, lift. by rewrite Hup, Hrun.
Qed.

Lemma init_body_ok self B d st it tr :
  shapes B d (N_mesh_levels self) st.1 /\ shapes B d (M_up self) st.2 ->
  init_item self d it ->
  exists st' tr', init_body st it tr = Ok (st', tr')
    /\ shapes B d (N_mesh_levels self) st'.1 /\ shapes B d (M_up self) st'.2.
Proof.
  destruct st as [lv up], it as [z g]. simpl.
  intros [Hlv Hupr] (l & ns & nr & m & Hz & Hup & Hns & Hnr & Hm & Hspec).
  simpl in *. subst z.
  destruct (shapes_lookup _ _ _ _ _ _ Hlv Hns) as (s & Hs & Hss).
  destruct (shapes_lookup _ _ _ _ _ _ Hlv Hnr) as (r & Hr & Hrs).
  destruct (shapes_lookup _ _ _ _ _ _ Hupr Hm) as (e & He & Hes).
  destruct (call_gnn2_ok g ns nr m d B s r e tr Hup Hspec Hss Hrs Hes)
    as (r' & e' & Hrun & Hr' & He').
  exists (<[S l := r']> lv, <[l := e']> up), (tr ++ [net_name g]).
  split; [|split; eapply shapes_insert; eauto].
  unfold init_body.
  replace (Z.of_nat (S l) - 1)%Z with (Z.of_nat l) by lia.
  rewrite (bind_lift _ _ _ _ (getitem_nat _ _ _ Hs)).
  rewrite (bind_lift _ _ _ _ (getitem_nat _ _ _ Hr)).
  rewrite (bind_lift _ _ _ _ (getitem_nat _ _ _ He)).
  rewrite (bind_eq _ _ _ _ _ Hrun).
  rewrite (bind_lift _ _ _ _ (setitem_nat lv (S l) r'
             (shapes_lookup_lt _ _ _ _ _ _ Hlv Hnr))).
  rewrite (bind_lift _ _ _ _ (setitem_nat up l e'
             (shapes_lookup_lt _ _ _ _ _ _ Hupr Hm))).
  done.
Qed.

Lemma read_body_ok self B d down lv it tr :
  shapes B d (M_down self) down ->
  shapes B d (N_mesh_levels self) lv ->
  read_item self d it ->
  exists lv' tr', read_body down lv it tr = Ok (lv', tr')
    /\ shapes B d (N_mesh_levels self) lv'.
Proof.
  destruct it as [z g].
  intros Hd Hlv (l & ns & nr & m & Hz & Hup & Hns & Hnr & Hm & Hspec).
  simpl in *. subst z.
  destruct (shapes_lookup _ _ _ _ _ _ Hlv Hns) as (s & Hs & Hss).
  destruct (shapes_lookup _ _ _ _ _ _ Hlv Hnr) as (r & Hr & Hrs).
  destruct (shapes_lookup _ _ _ _ _ _ Hd Hm) as (e & He & Hes).
  destruct (call_gnn1_ok g ns nr m d B s r e tr Hup Hspec Hss Hrs Hes)
    as (r' & Hrun & Hr').
  exists (<[l := r']> lv), (tr ++ [net_name g]).
  split; [|eapply shapes_insert; eauto].
  unfold read_body.
  replace (Z.of_nat l + 1)%Z with (Z.of_nat (S l)) by lia.
  rewrite (bind_lift _ _ _ _ (getitem_nat _ _ _ Hs)).
  rewrite (bind_lift _ _ _ _ (getitem_nat _ _ _ Hr)).
  rewrite (bind_lift _ _ _ _ (getitem_nat _ _ _ He)).
  rewrite (bind_eq _ _ _ _ _ Hrun).
  by rewrite (setitem_nat lv l r' (shapes_lookup_lt _ _ _ _ _ _ Hlv Hnr)).
Qed.

End Facts.
End HiFacts.



(* ===================================================================== *)
(** * BaseGraphModel: the prediction step                                 *)
(* ===================================================================== *)

Module BaseFacts.
Import TorchFacts PyFacts FwdFacts HiFacts.
Import BaseGraphModel.

Lemma Forall_zip_with_both {A B C} (P : A -> Prop) (Q : B -> Prop)
    (R : C -> Prop) (f : A -> B -> C) (l : list A) (k : list B) :
  (forall x y, P x -> Q y -> R (f x y)) ->
  Forall P l -> Forall Q k -> Forall R (zip_with f l k).
Proof.
  intros Hf Hl. revert k. induction Hl as [|x l Hx _ IH]; intros k Hk.
  - constructor.
  - destruct Hk as [|y k Hy Hk]; simpl; constructor; eauto.
Qed.

Lemma zip_with_ext_Forall {A B C} (P : A -> Prop) (Q : B -> Prop)
    (f g : A -> B -> C) (l : list A) (k : list B) :
  (forall x y, P x -> Q y -> f x y = g x y) ->
  Forall P l -> Forall Q k -> zip_with f l k = zip_with g l k.
Proof.
  intros Hf Hl. revert k. induction Hl as [|x l Hx _ IH]; intros k Hk.
  - done.
  - destruct Hk as [|y k Hy Hk]; simpl; [done|]. f_equal; eauto.
Qed.

Lemma bzip_same_length {A} (f : A -> A -> A) (xs ys : list A) :
  length xs = length ys -> bzip f xs ys = zip_with f xs ys.
Proof. intros Hl. unfold bzip. by rewrite Hl, Nat.eqb_refl. Qed.

Lemma bdim_same (n : nat) : bdim n n = Ok n.
Proof. unfold bdim. by rewrite Nat.eqb_refl. Qed.

Section Facts.
Context {F : Type} `{Scalar F}.
Implicit Types (t a b : T3 F).

(** Mapping the rows of a well-formed tensor. *)
Lemma map_rows_shape (g : list F -> list F) B N D D' t :
  has_shape B N D t ->
  (forall r, length r = D -> length (g r) = D') ->
  has_shape B N D'
    (mkT3 B N D' ((fun mat : list (list F) => g <$> mat) <$> val3 t)).
Proof.
  intros Ht Hg. pose proof (has_shape_dims _ _ _ _ Ht) as (HB & HN & HD).
  destruct Ht as [[Hlen Hmats] _]. rewrite HB, HN, HD in *.
  split; [|done]. split; cbn [val3 dimB dimN dimD].
  - by rewrite length_fmap.
  - apply Forall_fmap. eapply Forall_impl; [exact Hmats|].
    intros m [Hm Hrows]. split; simpl.
    + by rewrite length_fmap.
    + apply Forall_fmap. eapply Forall_impl; [exact Hrows|]. intros r. apply Hg.
Qed.

(** Combining two well-formed tensors of one shape, entry by entry. *)
Lemma zip_entries_shape (f : F -> F -> F) B N D a b :
  has_shape B N D a -> has_shape B N D b ->
  has_shape B N D
    (mkT3 B N D (zip_with (zip_with (zip_with f)) (val3 a) (val3 b))).
Proof.
  intros Ha Hb.
  pose proof (has_shape_dims _ _ _ _ Ha) as (HBa & HNa & HDa).
  pose proof (has_shape_dims _ _ _ _ Hb) as (HBb & HNb & HDb).
  destruct Ha as [[Hla Hma] _], Hb as [[Hlb Hmb] _].
  rewrite HBa, HNa, HDa in *. rewrite HBb, HNb, HDb in *.
  split; [|done]. split; cbn [val3 dimB dimN dimD].
  - rewrite length_zip_with. lia.
  - eapply Forall_zip_with_both; [|exact Hma|exact Hmb].
    intros x y [Hx Hxr] [Hy Hyr]. split.
    + rewrite length_zip_with. lia.
    + eapply Forall_zip_with_both; [|exact Hxr|exact Hyr].
      intros r s Hr Hs. simpl in *. rewrite length_zip_with. lia.
Qed.

Lemma tadd_ok B N D a b :
  has_shape B N D a -> has_shape B N D b ->
  exists c, tadd a b = Ok c /\ has_shape B N D c
            /\ val3 c = zip_with (zip_with (zip_with fadd)) (val3 a) (val3 b).
Proof.
  intros Ha Hb.
  pose proof (zip_entries_shape fadd B N D a b Ha Hb) as Hc.
  pose proof (has_shape_dims _ _ _ _ Ha) as (HBa & HNa & HDa).
  pose proof (has_shape_dims _ _ _ _ Hb) as (HBb & HNb & HDb).
  destruct Ha as [[Hla Hma] _], Hb as [[Hlb Hmb] _].
  rewrite HBa, HNa, HDa in *. rewrite HBb, HNb, HDb in *.
  assert (Hv : bzip (bzip (bzip fadd)) (val3 a) (val3 b)
               = zip_with (zip_with (zip_with fadd)) (val3 a) (val3 b)).
  { rewrite bzip_same_length by lia.
    eapply zip_with_ext_Forall; [|exact Hma|exact Hmb].
    intros x y [Hx Hxr] [Hy Hyr]. rewrite bzip_same_length by lia.
    eapply zip_with_ext_Forall; [|exact Hxr|exact Hyr].
    intros r s Hr Hs. simpl in *. apply bzip_same_length. lia. }
  eexists. split.
  - unfold tadd. rewrite HBa, HBb, HNa, HNb, HDa, HDb, !bdim_same.
    cbn [rbind]. rewrite Hv. reflexivity.
  - by split.
Qed.

Lemma vec_op_ok (f : F -> F -> F) B N D a (v : list F) :
  has_shape B N D a -> length v = D ->
  has_shape B N D
    (mkT3 B N D ((fun mat : list (list F) => (fun r => bzip f r v) <$> mat)
                   <$> val3 a))
  /\ (fun mat : list (list F) => (fun r => bzip f r v) <$> mat) <$> val3 a
     = (fun mat : list (list F) => (fun r => zip_with f r v) <$> mat) <$> val3 a.
Proof.
  intros Ha Hv. split.
  - apply (map_rows_shape (fun r => bzip f r v) B N D D a Ha).
    intros r Hr. rewrite bzip_same_length by lia. rewrite length_zip_with. lia.
  - destruct Ha as [[_ Hmats] Hs]. unfold shape3 in Hs.
    injection Hs as _ HN HD. rewrite HN, HD in Hmats.
    apply Forall_fmap_ext_1. eapply Forall_impl; [exact Hmats|].
    intros m [_ Hrows]. simpl.
    apply Forall_fmap_ext_1. eapply Forall_impl; [exact Hrows|].
    intros r Hr. simpl in *. apply bzip_same_length. lia.
Qed.

Lemma tmul_vec_ok B N D a (v : list F) :
  has_shape B N D a -> length v = D ->
  exists c, tmul_vec a v = Ok c /\ has_shape B N D c
    /\ val3 c = (fun mat : list (list F) => (fun r => zip_with fmul r v) <$> mat)
                  <$> val3 a.
Proof.
  intros Ha Hv. destruct (vec_op_ok fmul B N D a v Ha Hv) as [Hs Hval].
  pose proof (has_shape_dims _ _ _ _ Ha) as (HB & HN & HD).
  eexists. split.
  - unfold tmul_vec. rewrite Hv, HD, bdim_same. cbn [rbind].
    rewrite HB, HN. reflexivity.
  - by split.
Qed.

Lemma tadd_vec_ok B N D a (v : list F) :
  has_shape B N D a -> length v = D ->
  exists c, tadd_vec a v = Ok c /\ has_shape B N D c
    /\ val3 c = (fun mat : list (list F) => (fun r => zip_with fadd r v) <$> mat)
                  <$> val3 a.
Proof.
  intros Ha Hv. destruct (vec_op_ok fadd B N D a v Ha Hv) as [Hs Hval].
  pose proof (has_shape_dims _ _ _ _ Ha) as (HB & HN & HD).
  eexists. split.
  - unfold tadd_vec. rewrite Hv, HD, bdim_same. cbn [rbind].
    rewrite HB, HN. reflexivity.
  - by split.
Qed.

(** Lines 136-140 on tensors of one shape: the result has that shape and
    is [prev + (net * std + mean)], entry by entry. *)
Lemma rescale_residual_ok (self : BaseGraphModel.t F) B N D prev net :
  has_shape B N D prev -> has_shape B N D net ->
  length (step_diff_std self) = D -> length (step_diff_mean self) = D ->
  exists out,
    rescale_residual self prev net = Ok out
    /\ has_shape B N D out
    /\ val3 out = residual_vals (step_diff_std self) (step_diff_mean self)
                    (val3 prev) (val3 net).
Proof.
  intros Hp Hn Hstd Hmean.
  destruct (tmul_vec_ok B N D net _ Hn Hstd) as (sc & Hsc & Hscs & Hscv).
  destruct (tadd_vec_ok B N D sc _ Hscs Hmean) as (rs & Hrs & Hrss & Hrsv).
  destruct (tadd_ok B N D prev rs Hp Hrss) as (out & Hout & Houts & Houtv).
  exists out. split; [|split; [done|]].
  - unfold rescale_residual. rewrite Hsc. cbn [rbind]. rewrite Hrs. done.
  - rewrite Houtv, Hrsv, Hscv. unfold residual_vals.
    rewrite <- list_fmap_compose. rewrite zip_with_fmap_r.
    apply zip_with_ext; [|done..]. intros p o. unfold compose.
    rewrite <- list_fmap_compose. rewrite zip_with_fmap_r.
    apply zip_with_ext; [|done..]. intros r s. by unfold compose.
Qed.

Lemma mlp3_ok (m : MLP F) B N D t :
  mlp_ok m -> mlp_in m = D -> has_shape B N D t ->
  exists r, mlp3 m t = Ok r /\ has_shape B N (mlp_out m) r
            /\ val3 r = (fun mat : list (list F) => mlp_fn m <$> mat) <$> val3 t.
Proof.
  intros Hok Hin Ht. pose proof (has_shape_dims _ _ _ _ Ht) as (HB & HN & HD).
  eexists. split.
  - unfold mlp3. rewrite HD, Hin, Nat.eqb_refl, HB, HN. reflexivity.
  - split; [|done]. apply (map_rows_shape _ B N D); [done|].
    intros r Hr. apply Hok. congruence.
Qed.

Lemma call_mlp3_ok (m : MLP F) B N D t tr :
  mlp_ok m -> mlp_in m = D -> has_shape B N D t ->
  exists r, call_mlp3 m t tr = Ok (r, tr ++ [mlp_name m])
            /\ mlp3 m t = Ok r /\ has_shape B N (mlp_out m) r.
Proof.
  intros Hok Hin Ht. destruct (mlp3_ok m B N D t Hok Hin Ht) as (r & Hr & Hs & _).
  exists r. split; [|done]. unfold call_mlp3, bind, called, lift. by rewrite Hr.
Qed.

Lemma call_mlp2_ok d (emb : MLP F) (feat : T2 F) tr :
  embedder_ok d emb feat ->
  exists r, call_mlp2 emb feat tr = Ok (r, tr ++ [mlp_name emb])
            /\ wf2 r /\ rows2 r = rows2 feat /\ cols2 r = d.
Proof.
  intros ([Hlen Hrows] & Hok & Hin & Hout).
  eexists. split.
  - unfold call_mlp2, bind, called, lift, mlp2.
    rewrite Hin, Nat.eqb_refl. reflexivity.
  - split; [|done]. split; cbn [val2 rows2 cols2].
    + by rewrite length_fmap.
    + apply Forall_fmap. eapply Forall_impl; [exact Hrows|].
      intros v Hv. simpl. apply Hok. congruence.
Qed.

Lemma expand_to_batch_shape (x : T2 F) (B : nat) :
  wf2 x -> has_shape B (rows2 x) (cols2 x) (expand_to_batch x B).
Proof.
  intros [Hlen Hrows]. split; [|done].
  split; cbn [val3 dimB dimN dimD expand_to_batch].
  - by rewrite length_replicate.
  - by apply Forall_replicate.
Qed.

Lemma zip_app_mats N d1 d2 (A1 A2 : list (list (list F))) :
  length A1 = length A2 ->
  Forall (wf_mat N d1) A1 -> Forall (wf_mat N d2) A2 ->
  Forall (wf_mat N (d1 + d2)) (zip_with (zip_with app) A1 A2).
Proof.
  intros _ H1 H2. eapply Forall_zip_with_both; [|exact H1|exact H2].
  intros x y [Hx Hxr] [Hy Hyr]. split.
  - rewrite length_zip_with. lia.
  - eapply Forall_zip_with_both; [|exact Hxr|exact Hyr].
    intros r s Hr Hs. simpl in *. rewrite length_app. lia.
Qed.

Lemma cat_last_vals_wf B N (Ds : list nat) (ts : list (T3 F)) :
  Forall2 (fun dk t => has_shape B N dk t) Ds ts ->
  length (cat_last_vals B N ts) = B
  /\ Forall (wf_mat N (sum_list Ds)) (cat_last_vals B N ts).
Proof.
  induction 1 as [|dk t Ds ts Ht _ [IHl IHw]]; simpl.
  - split; [by rewrite length_replicate|].
    apply Forall_replicate. split; [by rewrite length_replicate|].
    by apply Forall_replicate.
  - pose proof (has_shape_dims _ _ _ _ Ht) as (HB & HN & HD).
    destruct Ht as [[Hlen Hmats] _]. rewrite HB, HN, HD in *.
    split.
    + rewrite length_zip_with. fold (cat_last_vals B N ts). lia.
    + apply zip_app_mats; [|done|done]. fold (cat_last_vals B N ts). lia.
Qed.

(** [torch.cat] along the feature axis succeeds on a non-empty list of
    tensors that agree on batch and node sizes. *)
Lemma cat_last_ok B N (Ds : list nat) (ts : list (T3 F)) :
  ts <> [] -> Forall2 (fun dk t => has_shape B N dk t) Ds ts ->
  exists c, cat_last ts = Ok c /\ has_shape B N (sum_list Ds) c.
Proof.
  intros Hne Hs.
  assert (Hall : Forall (fun t => dimB t = B /\ dimN t = N) ts).
  { clear Hne. induction Hs as [|dk t Ds ts Ht _ IH]; constructor; [|done].
    by apply has_shape_dims in Ht as (? & ? & _). }
  assert (HD : dimD <$> ts = Ds).
  { clear -Hs. induction Hs as [|dk t Ds ts Ht _ IH]; [done|].
    apply has_shape_dims in Ht as (_ & _ & <-). by rewrite fmap_cons, IH. }
  destruct (cat_last_vals_wf B N Ds ts Hs) as [Hlen Hwf].
  destruct ts as [|t0 ts']; [done|]. unfold cat_last.
  inversion Hall as [|?? [HB0 HN0] Hall']; subst.
  assert (Hfb : forallb (fun t => (dimB t =? dimB t0) && (dimN t =? dimN t0))
                        (t0 :: ts') = true).
  { apply forallb_forall. intros t Hin. apply list_elem_of_In in Hin.
    rewrite Forall_forall in Hall. destruct (Hall t Hin) as [-> ->].
    by rewrite !Nat.eqb_refl. }
  rewrite Hfb. eexists. split; [reflexivity|]. by split.
Qed.

End Facts.
End BaseFacts.

Module HiRun.
Import TorchFacts PyFacts FwdFacts HiFacts.
Import BaseHiGraphModel.
Section Run.
Context {F : Type}.

(** One run of [process_step]: embedding of the upper levels and of the
    edges, mesh init, processor, read-out, and the bottom level of what is
    left. *)
Lemma process_step_ok
    (self : BaseHiGraphModel.t F) (d : nat)
    (hi_processor_step :
       list (T3 F) -> list (T3 F) -> list (T3 F) -> list (T3 F)
       -> M (BaseHiGraphModel.reps F))
    (B N0 : nat) (mesh_rep : T3 F) (tr : list modid) :
  wf self d ->
  hi_spec self d hi_processor_step ->
  N_mesh_levels self !! 0 = Some N0 ->
  has_shape B N0 d mesh_rep ->
  exists levels out tr',
    process_step self hi_processor_step mesh_rep tr = Ok (out, tr')
    /\ shapes B d (N_mesh_levels self) levels
    /\ levels !! 0 = Some out
    /\ has_shape B N0 d out.
Proof.
  intros (Hg & Hemb & Hsame & Hup & Hdown & Hinit & Hread) Hhi HN0 Hrep.
  pose proof (has_shape_dims _ _ _ _ Hrep) as (HB & _ & _).
  unfold process_step. rewrite HB.
  (* the upper levels *)
  destruct (embed_all_ok B d _ _ tr (Forall2_drop _ _ _ 1 Hemb))
    as (upper & tr1 & Hrun1 & Hupper).
  rewrite (bind_eq _ _ _ _ _ Hrun1).
  assert (Hlv : shapes B d (N_mesh_levels self) (mesh_rep :: upper)).
  { unfold N_mesh_levels in *.
    destruct (mesh_static_features self) as [|f0 feats]; [done|].
    simpl in HN0. injection HN0 as <-. rewrite fmap_cons.
    constructor; [done|]. exact Hupper. }
  (* the three edge families *)
  destruct (edge_embed_ok B d _ _ _ tr1 Hsame) as (same & tr2 & Hrun2 & Hs).
  rewrite (bind_eq _ _ _ _ _ Hrun2).
  destruct (edge_embed_ok B d _ _ _ tr2 Hup) as (up & tr3 & Hrun3 & Hu).
  rewrite (bind_eq _ _ _ _ _ Hrun3).
  destruct (edge_embed_ok B d _ _ _ tr3 Hdown) as (down & tr4 & Hrun4 & Hd).
  rewrite (bind_eq _ _ _ _ _ Hrun4).
  (* mesh init *)
  destruct (foldM_inv init_body
              (fun st => shapes B d (N_mesh_levels self) st.1
                         /\ shapes B d (M_up self) st.2)
              (init_item self d)
              (fun st it tr Hst Hit => init_body_ok self B d st it tr Hst Hit)
              _ (mesh_rep :: upper, up) tr4 (init_items self d Hinit)
              (conj Hlv Hu))
    as ([lv1 up1] & tr5 & Hrun5 & Hlv1 & Hup1).
  rewrite (bind_eq _ _ _ _ _ Hrun5). simpl in Hlv1, Hup1.
  (* processor *)
  destruct (Hhi B lv1 same up1 down tr5 (conj Hlv1 (conj Hs (conj Hup1 Hd))))
    as ([[[lv2 same2] up2] down2] & tr6 & Hrun6 & Hlv2 & _ & _ & Hd2).
  rewrite (bind_eq _ _ _ _ _ Hrun6).
  (* read out *)
  destruct (foldM_inv (read_body down2)
              (fun lv => shapes B d (N_mesh_levels self) lv)
              (read_item self d)
              (fun lv it tr Hst Hit => read_body_ok self B d down2 lv it tr Hd2 Hst Hit)
              _ lv2 tr6 (read_items self d Hg Hread) Hlv2)
    as (lv3 & tr7 & Hrun7 & Hlv3).
  rewrite (bind_eq _ _ _ _ _ Hrun7).
  destruct (shapes_lookup _ _ _ _ _ _ Hlv3 HN0) as (out & Hout & Hos).
  exists lv3, out, tr7. unfold lift.
  change 0%Z with (Z.of_nat 0). rewrite (getitem_nat lv3 0 out Hout).
  split; [done|]. split; [done|]. by split.
Qed.

(** One run of [process_step]: what each phase computes, from what the
    phase before it left. *)
Lemma process_step_stages
    (self : BaseHiGraphModel.t F) (d : nat)
    (hi_processor_step :
       list (T3 F) -> list (T3 F) -> list (T3 F) -> list (T3 F)
       -> M (BaseHiGraphModel.reps F))
    (B N0 : nat) (mesh_rep : T3 F) (tr : list modid) :
  wf self d ->
  hi_spec self d hi_processor_step ->
  N_mesh_levels self !! 0 = Some N0 ->
  has_shape B N0 d mesh_rep ->
  exists upper tr1 mesh_same_rep tr2 mesh_up_rep tr3 mesh_down_rep tr4
         levels1 up1 tr5 levels2 down2 tr6 levels3 tr7 out,
    mapM (embed_expand (dimB mesh_rep))
         (zip (drop 1 (mesh_embedders self))
              (drop 1 (mesh_static_features self))) tr
      = Ok (upper, tr1)
    /\ length upper = N_levels self - 1
    /\ mapM (embed_expand (dimB mesh_rep))
            (zip (mesh_same_embedders self) (m2m_features self)) tr1
       = Ok (mesh_same_rep, tr2)
    /\ mapM (embed_expand (dimB mesh_rep))
            (zip (mesh_up_embedders self) (mesh_up_features self)) tr2
       = Ok (mesh_up_rep, tr3)
    /\ mapM (embed_expand (dimB mesh_rep))
            (zip (mesh_down_embedders self) (mesh_down_features self)) tr3
       = Ok (mesh_down_rep, tr4)
    /\ foldM init_body (enumerate 1 (mesh_init_gnns self))
             (mesh_rep :: upper, mesh_up_rep) tr4
       = Ok ((levels1, up1), tr5)
    /\ (exists same2 up2,
          hi_processor_step levels1 mesh_same_rep up1 mesh_down_rep tr5
          = Ok ((levels2, same2, up2, down2), tr6))
    /\ foldM (read_body down2)
             (zip (range_down (Z.of_nat (N_levels self) - 2) (-1))
                  (reverse (mesh_read_gnns self)))
             levels2 tr6
       = Ok (levels3, tr7)
    /\ shapes B d (N_mesh_levels self) levels3
    /\ levels3 !! 0 = Some out
    /\ process_step self hi_processor_step mesh_rep tr = Ok (out, tr7)
    /\ has_shape B N0 d out.
Proof.
  intros (Hg & Hemb & Hsame & Hup & Hdown & Hinit & Hread) Hhi HN0 Hrep.
  pose proof (has_shape_dims _ _ _ _ Hrep) as (HB & _ & _).
  unfold process_step. rewrite HB.
  (* the upper levels *)
  destruct (embed_all_ok B d _ _ tr (Forall2_drop _ _ _ 1 Hemb))
    as (upper & tr1 & Hrun1 & Hupper).
  rewrite (bind_eq _ _ _ _ _ Hrun1).
  assert (Hlv : shapes B d (N_mesh_levels self) (mesh_rep :: upper)).
  { unfold N_mesh_levels in *.
    destruct (mesh_static_features self) as [|f0 feats]; [done|].
    simpl in HN0. injection HN0 as <-. rewrite fmap_cons.
    constructor; [done|]. exact Hupper. }
  assert (Hlen : length upper = N_levels self - 1).
  { apply shapes_length in Hlv. unfold N_mesh_levels, N_levels in *.
    rewrite length_fmap in Hlv. simpl in Hlv. lia. }
  (* the three edge families *)
  destruct (edge_embed_ok B d _ _ _ tr1 Hsame) as (same & tr2 & Hrun2 & Hs).
  rewrite (bind_eq _ _ _ _ _ Hrun2).
  destruct (edge_embed_ok B d _ _ _ tr2 Hup) as (up & tr3 & Hrun3 & Hu).
  rewrite (bind_eq _ _ _ _ _ Hrun3).
  destruct (edge_embed_ok B d _ _ _ tr3 Hdown) as (down & tr4 & Hrun4 & Hd).
  rewrite (bind_eq _ _ _ _ _ Hrun4).
  (* mesh init *)
  destruct (foldM_inv init_body
              (fun st => shapes B d (N_mesh_levels self) st.1
                         /\ shapes B d (M_up self) st.2)
              (init_item self d)
              (fun st it tr Hst Hit => init_body_ok self B d st it tr Hst Hit)
              _ (mesh_rep :: upper, up) tr4 (init_items self d Hinit)
              (conj Hlv Hu))
    as ([lv1 up1] & tr5 & Hrun5 & Hlv1 & Hup1).
  rewrite (bind_eq _ _ _ _ _ Hrun5). simpl in Hlv1, Hup1.
  (* processor *)
  destruct (Hhi B lv1 same up1 down tr5 (conj Hlv1 (conj Hs (conj Hup1 Hd))))
    as ([[[lv2 same2] up2] down2] & tr6 & Hrun6 & Hlv2 & _ & _ & Hd2).
  rewrite (bind_eq _ _ _ _ _ Hrun6).
  (* read out *)
  destruct (foldM_inv (read_body down2)
              (fun lv => shapes B d (N_mesh_levels self) lv)
              (read_item self d)
              (fun lv it tr Hst Hit => read_body_ok self B d down2 lv it tr Hd2 Hst Hit)
              _ lv2 tr6 (read_items self d Hg Hread) Hlv2)
    as (lv3 & tr7 & Hrun7 & Hlv3).
  rewrite (bind_eq _ _ _ _ _ Hrun7).
  destruct (shapes_lookup _ _ _ _ _ _ Hlv3 HN0) as (out & Hout & Hos).
  exists upper, tr1, same, tr2, up, tr3, down, tr4, lv1, up1, tr5, lv2, down2,
    tr6, lv3, tr7, out.
  repeat (split; [done|]).
  split; [by exists same2, up2|].
  repeat (split; [done|]).
  split; [|done]. unfold lift.
  change 0%Z with (Z.of_nat 0). by rewrite (getitem_nat lv3 0 out Hout).
Qed.

(** The bottom-level embedding of a hierarchical model. *)
Lemma embedd_mesh_nodes_ok (self : BaseHiGraphModel.t F) (d N0 : nat) tr :
  wf self d -> N_mesh_levels self !! 0 = Some N0 ->
  exists mesh_emb tr',
    embedd_mesh_nodes self tr = Ok (mesh_emb, tr')
    /\ wf2 mesh_emb /\ rows2 mesh_emb = N0 /\ cols2 mesh_emb = d.
Proof.
  intros (_ & Hemb & _) HN0. unfold N_mesh_levels in HN0.
  unfold embedd_mesh_nodes.
  destruct (mesh_static_features self) as [|feat feats]; [done|].
  destruct (mesh_embedders self) as [|emb embs]; [by inversion Hemb|].
  apply Forall2_cons in Hemb as [Hef _].
  simpl in HN0. injection HN0 as <-.
  destruct (BaseFacts.call_mlp2_ok d emb feat tr Hef) as (r & Hr & Hw & Hrows & Hcols).
  exists r, (tr ++ [mlp_name emb]). split; [|done].
  change 0%Z with (Z.of_nat 0).
  rewrite (bind_lift _ _ _ _ (getitem_nat (emb :: embs) 0 emb eq_refl)).
  by rewrite (bind_lift _ _ _ _ (getitem_nat (feat :: feats) 0 feat eq_refl)).
Qed.

(** A hierarchical model gives [predict_step] what it needs. *)
Lemma hi_overrides_ok (self : BaseHiGraphModel.t F)
    (hi_processor_step :
       list (T3 F) -> list (T3 F) -> list (T3 F) -> list (T3 F)
       -> M (BaseHiGraphModel.reps F))
    (D : BaseGraphModel.dims) :
  wf self (BaseGraphModel.d_h D) ->
  hi_spec self (BaseGraphModel.d_h D) hi_processor_step ->
  N_mesh_levels self !! 0 = Some (BaseGraphModel.N_mesh D) ->
  BaseGraphModel.overrides_ok (as_base self hi_processor_step) D.
Proof.
  intros Hwf Hhi HN0. split.
  - intros tr. by apply embedd_mesh_nodes_ok.
  - intros B mesh_rep tr Hrep.
    destruct (process_step_ok self _ hi_processor_step B _ mesh_rep tr
                Hwf Hhi HN0 Hrep) as (levels & out & tr' & Hrun & _ & _ & Hout).
    by exists out, tr'.
Qed.

End Run.
End HiRun.

Module HiClaims.
Import TorchFacts PyFacts FwdFacts HiFacts HiRun.
Import BaseHiGraphModel.
Section Claims.
Context {F : Type}.

(** C2.  For a hierarchical model of [L >= 2] levels over a well-formed
    graph, and a [hi_processor_step] that keeps the representations fit
    for the graph, [process_step] applied to a level-0 representation
    [mesh_rep] of shape [(B, N_mesh_levels[0], d_h)] runs to its end, phase
    by phase: it embeds the [L - 1 >= 1] levels above 0 and puts them
    behind [mesh_rep] in the list of levels, embeds the same-level, up and
    down edges, runs the mesh-init loop on the list of levels and the up
    edges, hands the result to [hi_processor_step], and runs the read-out
    loop on the levels and down edges that come back.  Of the [L] levels
    that are then in the list it returns one tensor, the level-0 entry, of
    shape [(B, N_mesh_levels[0], d_h)]; the upper levels stay in the list,
    which the call builds and drops. *)
Theorem process_step_returns_bottom_level
    (self : BaseHiGraphModel.t F) (d : nat)
    (hi_processor_step :
       list (T3 F) -> list (T3 F) -> list (T3 F) -> list (T3 F)
       -> M (BaseHiGraphModel.reps F))
    (B N0 : nat) (mesh_rep : T3 F) (tr : list modid) :
  wf self d ->
  2 <= N_levels self ->
  hi_spec self d hi_processor_step ->
  N_mesh_levels self !! 0 = Some N0 ->
  has_shape B N0 d mesh_rep ->
  exists upper tr1 mesh_same_rep tr2 mesh_up_rep tr3 mesh_down_rep tr4
         levels1 up1 tr5 levels2 down2 tr6 levels3 tr7 out,
    (* the levels above 0 are embedded; level 0 is [mesh_rep] *)
    mapM (embed_expand (dimB mesh_rep))
         (zip (drop 1 (mesh_embedders self))
              (drop 1 (mesh_static_features self))) tr
      = Ok (upper, tr1)
    /\ length upper = N_levels self - 1
    /\ upper <> []
    (* the edges are embedded *)
    /\ mapM (embed_expand (dimB mesh_rep))
            (zip (mesh_same_embedders self) (m2m_features self)) tr1
       = Ok (mesh_same_rep, tr2)
    /\ mapM (embed_expand (dimB mesh_rep))
            (zip (mesh_up_embedders self) (mesh_up_features self)) tr2
       = Ok (mesh_up_rep, tr3)
    /\ mapM (embed_expand (dimB mesh_rep))
            (zip (mesh_down_embedders self) (mesh_down_features self)) tr3
       = Ok (mesh_down_rep, tr4)
    (* mesh init, on the list of all levels *)
    /\ foldM init_body (enumerate 1 (mesh_init_gnns self))
             (mesh_rep :: upper, mesh_up_rep) tr4
       = Ok ((levels1, up1), tr5)
    (* processor *)
    /\ (exists same2 up2,
          hi_processor_step levels1 mesh_same_rep up1 mesh_down_rep tr5
          = Ok ((levels2, same2, up2, down2), tr6))
    (* read-out *)
    /\ foldM (read_body down2)
             (zip (range_down (Z.of_nat (N_levels self) - 2) (-1))
                  (reverse (mesh_read_gnns self)))
             levels2 tr6
       = Ok (levels3, tr7)
    (* of the levels that are left, level 0 alone is returned *)
    /\ length levels3 = N_levels self
    /\ levels3 !! 0 = Some out
    /\ process_step self hi_processor_step mesh_rep tr = Ok (out, tr7)
    /\ has_shape B N0 d out
    /\ dimN out = N0.
Proof.
  intros Hwf HL Hhi HN0 Hrep.
  destruct (process_step_stages self d hi_processor_step B N0 mesh_rep tr
              Hwf Hhi HN0 Hrep)
    as (upper & tr1 & same & tr2 & up & tr3 & down & tr4 & lv1 & up1 & tr5
        & lv2 & down2 & tr6 & lv3 & tr7 & out
        & Hrun1 & Hlen & Hrun2 & Hrun3 & Hrun4 & Hrun5 & Hrun6 & Hrun7
        & Hlv3 & Hout & Hrun & Hos).
  exists upper, tr1, same, tr2, up, tr3, down, tr4, lv1, up1, tr5, lv2, down2,
    tr6, lv3, tr7, out.
  split; [done|]. split; [done|].
  split; [intros ->; simpl in Hlen; lia|].
  repeat (split; [done|]).
  split.
  { apply shapes_length in Hlv3. unfold N_mesh_levels in Hlv3.
    by rewrite length_fmap in Hlv3. }
  repeat (split; [done|]).
  by apply has_shape_dims in Hos as (_ & ? & _).
Qed.

End Claims.
End HiClaims.

Module BaseRun.
Import TorchFacts PyFacts FwdFacts HiFacts BaseFacts.
Import BaseGraphModel.
Section Run.
Context {F : Type} `{Scalar F}.

(** One run of [predict_step] on a valid batch, stage by stage, up to the
    rescaling. *)
Lemma predict_step_run (self : BaseGraphModel.t F)
    (cls : BaseGraphModel.overrides F) (D : dims) (B : nat)
    (prev_state prev_prev_state batch_static_features forcing : T3 F)
    (tr : list modid) :
  wf self D -> overrides_ok cls D ->
  valid_batch D B prev_state prev_prev_state batch_static_features forcing ->
  exists grid_features mesh_emb tr_e mesh_rep0 mesh_rep tr_p grid_rep net_output,
    cat_last [prev_state; prev_prev_state; batch_static_features; forcing;
              expand_to_batch (grid_static_features self) (dimB prev_state)]
      = Ok grid_features
    /\ has_shape B (N_grid D) (grid_dim D) grid_features
    /\ embedd_mesh_nodes cls
         (tr ++ [mlp_name (grid_embedder self); mlp_name (g2m_embedder self);
                 mlp_name (m2g_embedder self)]) = Ok (mesh_emb, tr_e)
    /\ has_shape B (N_mesh D) (d_h D) mesh_rep0
    /\ process_step cls mesh_rep0
         (tr_e ++ [net_name (g2m_gnn self); mlp_name (encoding_grid_mlp self)])
       = Ok (mesh_rep, tr_p)
    /\ has_shape B (N_grid D) (d_h D) grid_rep
    /\ mlp3 (output_map self) grid_rep = Ok net_output
    /\ has_shape B (N_grid D) (grid_state_dim D) net_output
    /\ predict_step self cls prev_state prev_prev_state batch_static_features
                    forcing tr
       = lift (rescale_residual self prev_state net_output)
              (tr_p ++ [net_name (m2g_gnn self); mlp_name (output_map self)]).
Proof.
  intros ((Hgs & Hgsr & Hgsc) & (Hge & Hgei & Hgeo) & (Hg2m & Hg2mr)
          & (Hm2g & Hm2gr) & (Hgu & Hgspec) & (Henc & Henci & Henco)
          & (Hmu & Hmspec) & (Hom & Homi & Homo) & Hstd & Hmean)
         [Hembed Hproc] (Hprev & Hpp & Hbsf & Hforc).
  pose proof (has_shape_dims _ _ _ _ Hprev) as (HB & _ & _).
  (* the grid features *)
  pose proof (expand_to_batch_shape (grid_static_features self) B Hgs) as Hst.
  rewrite Hgsr, Hgsc in Hst.
  destruct (cat_last_ok B (N_grid D)
              [grid_state_dim D; grid_state_dim D; batch_static_feature_dim D;
               grid_forcing_dim D; grid_static_dim D]
              [prev_state; prev_prev_state; batch_static_features; forcing;
               expand_to_batch (grid_static_features self) B])
    as (gf & Hgf & Hgfs);
    [done|repeat (constructor; [assumption|]); constructor|].
  replace (sum_list _) with (grid_dim D) in Hgfs
    by (unfold grid_dim; simpl; lia).
  (* embedders *)
  destruct (call_mlp3_ok _ B (N_grid D) (grid_dim D) gf tr Hge Hgei Hgfs)
    as (grid_emb & Hrun1 & _ & Hges). rewrite Hgeo in Hges.
  destruct (call_mlp2_ok _ _ _ (tr ++ [mlp_name (grid_embedder self)]) Hg2m)
    as (g2m_emb & Hrun2 & Hg2w & Hg2r & Hg2c).
  destruct (call_mlp2_ok _ _ _
              ((tr ++ [mlp_name (grid_embedder self)])
                 ++ [mlp_name (g2m_embedder self)]) Hm2g)
    as (m2g_emb & Hrun3 & Hm2w & Hm2r & Hm2c).
  destruct (Hembed (((tr ++ [mlp_name (grid_embedder self)])
                       ++ [mlp_name (g2m_embedder self)])
                      ++ [mlp_name (m2g_embedder self)]))
    as (mesh_emb & tr_e & Hrun4 & Hmew & Hmer & Hmec).
  (* encode *)
  pose proof (expand_to_batch_shape mesh_emb B Hmew) as Hmee.
  rewrite Hmer, Hmec in Hmee.
  pose proof (expand_to_batch_shape g2m_emb B Hg2w) as Hg2e.
  rewrite Hg2r, Hg2c, Hg2mr in Hg2e.
  destruct (call_gnn1_ok _ _ _ _ _ B _ _ _ tr_e Hgu Hgspec Hges Hmee Hg2e)
    as (mesh_rep0 & Hrun5 & Hmr0).
  destruct (call_mlp3_ok _ B (N_grid D) (d_h D) grid_emb
              (tr_e ++ [net_name (g2m_gnn self)]) Henc Henci Hges)
    as (enc & Hrun6 & _ & Hencs). rewrite Henco in Hencs.
  destruct (tadd_ok B (N_grid D) (d_h D) grid_emb enc Hges Hencs)
    as (grid_rep0 & Hrun7 & Hgr0 & _).
  (* process *)
  destruct (Hproc B mesh_rep0
              ((tr_e ++ [net_name (g2m_gnn self)])
                 ++ [mlp_name (encoding_grid_mlp self)]) Hmr0)
    as (mesh_rep & tr_p & Hrun8 & Hmr).
  (* decode *)
  pose proof (expand_to_batch_shape m2g_emb B Hm2w) as Hm2e.
  rewrite Hm2r, Hm2c, Hm2gr in Hm2e.
  destruct (call_gnn1_ok _ _ _ _ _ B _ _ _ tr_p Hmu Hmspec Hmr Hgr0 Hm2e)
    as (grid_rep & Hrun9 & Hgr).
  destruct (call_mlp3_ok _ B (N_grid D) (d_h D) grid_rep
              (tr_p ++ [net_name (m2g_gnn self)]) Hom Homi Hgr)
    as (net_output & Hrun10 & Hno & Hnos). rewrite Homo in Hnos.
  rewrite <- !app_assoc in *. simpl in Hrun4, Hrun8.
  exists gf, mesh_emb, tr_e, mesh_rep0, mesh_rep, tr_p, grid_rep, net_output.
  rewrite HB. repeat (split; [done|]).
  unfold predict_step. rewrite HB.
  rewrite (bind_lift _ _ _ _ Hgf).
  rewrite (bind_eq _ _ _ _ _ Hrun1), (bind_eq _ _ _ _ _ Hrun2),
    (bind_eq _ _ _ _ _ Hrun3), (bind_eq _ _ _ _ _ Hrun4),
    (bind_eq _ _ _ _ _ Hrun5), (bind_eq _ _ _ _ _ Hrun6).
  rewrite (bind_lift _ _ _ _ Hrun7).
  rewrite (bind_eq _ _ _ _ _ Hrun8), (bind_eq _ _ _ _ _ Hrun9),
    (bind_eq _ _ _ _ _ Hrun10).
  done.
Qed.

(** What a call that returned has computed. *)
Lemma call_mlp2_inv (m : MLP F) (t r : T2 F) tr tr' :
  call_mlp2 m t tr = Ok (r, tr') -> mlp2 m t = Ok r.
Proof.
  unfold call_mlp2, bind, called, lift.
  destruct (mlp2 m t); [by intros [= -> _]|discriminate].
Qed.

Lemma call_gnn1_inv (g : InteractionNet F) (s r e r' : T3 F) tr tr' :
  call_gnn1 g s r e tr = Ok (r', tr') ->
  exists e', net_fn g s r e = Ok (r', e').
Proof.
  unfold call_gnn1, bind, called, lift.
  destruct (net_update_edges g); [discriminate|].
  destruct (net_fn g s r e) as [[r0 e0]|]; [|discriminate].
  cbn [rbind fst]. intros [= -> _]. by exists e0.
Qed.

(** One run of [predict_step] on a valid batch: what each stage computes,
    from what the stage before it returned. *)
Lemma predict_step_stages (self : BaseGraphModel.t F)
    (cls : BaseGraphModel.overrides F) (D : dims) (B : nat)
    (prev_state prev_prev_state batch_static_features forcing : T3 F)
    (tr : list modid) :
  wf self D -> overrides_ok cls D ->
  valid_batch D B prev_state prev_prev_state batch_static_features forcing ->
  exists grid_features grid_emb g2m_emb m2g_emb mesh_emb tr_e mesh_rep0 enc
         grid_rep0 mesh_rep tr_p grid_rep net_output,
    cat_last [prev_state; prev_prev_state; batch_static_features; forcing;
              expand_to_batch (grid_static_features self) (dimB prev_state)]
      = Ok grid_features
    /\ has_shape B (N_grid D) (grid_dim D) grid_features
    /\ mlp3 (grid_embedder self) grid_features = Ok grid_emb
    /\ mlp2 (g2m_embedder self) (g2m_features self) = Ok g2m_emb
    /\ mlp2 (m2g_embedder self) (m2g_features self) = Ok m2g_emb
    /\ embedd_mesh_nodes cls
         (tr ++ [mlp_name (grid_embedder self); mlp_name (g2m_embedder self);
                 mlp_name (m2g_embedder self)]) = Ok (mesh_emb, tr_e)
    /\ (exists e, net_fn (g2m_gnn self) grid_emb
                    (expand_to_batch mesh_emb (dimB prev_state))
                    (expand_to_batch g2m_emb (dimB prev_state))
                  = Ok (mesh_rep0, e))
    /\ mlp3 (encoding_grid_mlp self) grid_emb = Ok enc
    /\ tadd grid_emb enc = Ok grid_rep0
    /\ process_step cls mesh_rep0
         (tr_e ++ [net_name (g2m_gnn self); mlp_name (encoding_grid_mlp self)])
       = Ok (mesh_rep, tr_p)
    /\ (exists e, net_fn (m2g_gnn self) mesh_rep grid_rep0
                    (expand_to_batch m2g_emb (dimB prev_state))
                  = Ok (grid_rep, e))
    /\ mlp3 (output_map self) grid_rep = Ok net_output
    /\ has_shape B (N_grid D) (grid_state_dim D) net_output
    /\ predict_step self cls prev_state prev_prev_state batch_static_features
                    forcing tr
       = lift (rescale_residual self prev_state net_output)
              (tr_p ++ [net_name (m2g_gnn self); mlp_name (output_map self)]).
Proof.
  intros ((Hgs & Hgsr & Hgsc) & (Hge & Hgei & Hgeo) & (Hg2m & Hg2mr)
          & (Hm2g & Hm2gr) & (Hgu & Hgspec) & (Henc & Henci & Henco)
          & (Hmu & Hmspec) & (Hom & Homi & Homo) & Hstd & Hmean)
         [Hembed Hproc] (Hprev & Hpp & Hbsf & Hforc).
  pose proof (has_shape_dims _ _ _ _ Hprev) as (HB & _ & _).
  (* the grid features *)
  pose proof (expand_to_batch_shape (grid_static_features self) B Hgs) as Hst.
  rewrite Hgsr, Hgsc in Hst.
  destruct (cat_last_ok B (N_grid D)
              [grid_state_dim D; grid_state_dim D; batch_static_feature_dim D;
               grid_forcing_dim D; grid_static_dim D]
              [prev_state; prev_prev_state; batch_static_features; forcing;
               expand_to_batch (grid_static_features self) B])
    as (gf & Hgf & Hgfs);
    [done|repeat (constructor; [assumption|]); constructor|].
  replace (sum_list _) with (grid_dim D) in Hgfs
    by (unfold grid_dim; simpl; lia).
  (* embedders *)
  destruct (call_mlp3_ok _ B (N_grid D) (grid_dim D) gf tr Hge Hgei Hgfs)
    as (grid_emb & Hrun1 & Hfn1 & Hges). rewrite Hgeo in Hges.
  destruct (call_mlp2_ok _ _ _ (tr ++ [mlp_name (grid_embedder self)]) Hg2m)
    as (g2m_emb & Hrun2 & Hg2w & Hg2r & Hg2c).
  destruct (call_mlp2_ok _ _ _
              ((tr ++ [mlp_name (grid_embedder self)])
                 ++ [mlp_name (g2m_embedder self)]) Hm2g)
    as (m2g_emb & Hrun3 & Hm2w & Hm2r & Hm2c).
  destruct (Hembed (((tr ++ [mlp_name (grid_embedder self)])
                       ++ [mlp_name (g2m_embedder self)])
                      ++ [mlp_name (m2g_embedder self)]))
    as (mesh_emb & tr_e & Hrun4 & Hmew & Hmer & Hmec).
  (* encode *)
  pose proof (expand_to_batch_shape mesh_emb B Hmew) as Hmee.
  rewrite Hmer, Hmec in Hmee.
  pose proof (expand_to_batch_shape g2m_emb B Hg2w) as Hg2e.
  rewrite Hg2r, Hg2c, Hg2mr in Hg2e.
  destruct (call_gnn1_ok _ _ _ _ _ B _ _ _ tr_e Hgu Hgspec Hges Hmee Hg2e)
    as (mesh_rep0 & Hrun5 & Hmr0).
  destruct (call_mlp3_ok _ B (N_grid D) (d_h D) grid_emb
              (tr_e ++ [net_name (g2m_gnn self)]) Henc Henci Hges)
    as (enc & Hrun6 & Hfn6 & Hencs). rewrite Henco in Hencs.
  destruct (tadd_ok B (N_grid D) (d_h D) grid_emb enc Hges Hencs)
    as (grid_rep0 & Hrun7 & Hgr0 & _).
  (* process *)
  destruct (Hproc B mesh_rep0
              ((tr_e ++ [net_name (g2m_gnn self)])
                 ++ [mlp_name (encoding_grid_mlp self)]) Hmr0)
    as (mesh_rep & tr_p & Hrun8 & Hmr).
  (* decode *)
  pose proof (expand_to_batch_shape m2g_emb B Hm2w) as Hm2e.
  rewrite Hm2r, Hm2c, Hm2gr in Hm2e.
  destruct (call_gnn1_ok _ _ _ _ _ B _ _ _ tr_p Hmu Hmspec Hmr Hgr0 Hm2e)
    as (grid_rep & Hrun9 & Hgr).
  destruct (call_mlp3_ok _ B (N_grid D) (d_h D) grid_rep
              (tr_p ++ [net_name (m2g_gnn self)]) Hom Homi Hgr)
    as (net_output & Hrun10 & Hno & Hnos). rewrite Homo in Hnos.
  pose proof (call_mlp2_inv _ _ _ _ _ Hrun2) as Hfn2.
  pose proof (call_mlp2_inv _ _ _ _ _ Hrun3) as Hfn3.
  pose proof (call_gnn1_inv _ _ _ _ _ _ _ Hrun5) as Hfn5.
  pose proof (call_gnn1_inv _ _ _ _ _ _ _ Hrun9) as Hfn9.
  rewrite <- !app_assoc in *. simpl in Hrun4, Hrun8.
  exists gf, grid_emb, g2m_emb, m2g_emb, mesh_emb, tr_e, mesh_rep0, enc,
    grid_rep0, mesh_rep, tr_p, grid_rep, net_output.
  rewrite HB. repeat (split; [done|]).
  unfold predict_step. rewrite HB.
  rewrite (bind_lift _ _ _ _ Hgf).
  rewrite (bind_eq _ _ _ _ _ Hrun1), (bind_eq _ _ _ _ _ Hrun2),
    (bind_eq _ _ _ _ _ Hrun3), (bind_eq _ _ _ _ _ Hrun4),
    (bind_eq _ _ _ _ _ Hrun5), (bind_eq _ _ _ _ _ Hrun6).
  rewrite (bind_lift _ _ _ _ Hrun7).
  rewrite (bind_eq _ _ _ _ _ Hrun8), (bind_eq _ _ _ _ _ Hrun9),
    (bind_eq _ _ _ _ _ Hrun10).
  done.
Qed.

(** Adding a rescaled all-zero output changes nothing, entry by entry. *)
Lemma residual_vals_zero (std mean : list F) (N D : nat)
    (prev net : list (list (list F))) :
  length std = D -> mean = replicate D fzero ->
  Forall (fun s => fmul fzero s = fzero) std ->
  fadd fzero fzero = fzero ->
  length prev = length net ->
  Forall (fun m => length m = N
                   /\ Forall (fun r => length r = D
                                       /\ Forall (fun x => fadd x fzero = x) r) m)
         prev ->
  Forall (fun m => m = replicate N (replicate D fzero)) net ->
  residual_vals std mean prev net = prev.
Proof.
  intros Hstd -> Hmul Hadd Hlen Hprev Hnet.
  assert (Hz1 : zip_with fmul (replicate D fzero) std = replicate D fzero).
  { subst D. clear -Hmul. induction Hmul as [|s std Hs _ IH]; [done|].
    simpl. by rewrite Hs, IH. }
  assert (Hz2 : zip_with fadd (replicate D fzero) (replicate D fzero)
                = replicate D fzero).
  { clear -Hadd. induction D as [|n IH]; [done|]. simpl. by rewrite Hadd, IH. }
  assert (Hrow : forall r, length r = D -> Forall (fun x => fadd x fzero = x) r ->
                   zip_with fadd r (replicate D fzero) = r).
  { clear. intros r <- Hr. induction Hr as [|x r Hx _ IH]; [done|].
    simpl. by rewrite Hx, IH. }
  unfold residual_vals. revert net Hlen Hnet.
  induction Hprev as [|m prev [Hm Hrows] _ IH]; intros [|o net] Hlen Hnet;
    simplify_eq/=; [done|].
  inversion Hnet as [|?? Ho Hnet']; subst. f_equal; [|by apply IH].
  clear -Hrows Hz1 Hz2 Hrow.
  induction Hrows as [|r m [Hr Hx] _ IHm]; [done|].
  simpl. rewrite Hz1, Hz2, Hrow by done. by rewrite IHm.
Qed.

End Run.
End BaseRun.

Module BaseClaims.
Import TorchFacts PyFacts FwdFacts HiFacts BaseFacts BaseRun.
Import BaseGraphModel.
Section Claims.
Context {F : Type} `{Scalar F}.

(** C1.  On a valid batch, for a well-formed model whose subclass embeds
    the mesh and processes it without changing shapes, [predict_step] runs
    to its end, and each stage works on what the stage before it returned:
    [prev_state], [prev_prev_state], the batch static features, the forcing
    and the batch-expanded static grid features are joined, in that order,
    into one grid feature tensor of [grid_dim] features; the grid embedder
    is applied to it, the two edge embedders to the static edge features,
    and the subclass embeds the mesh; the encoder GNN sends the grid
    embedding to the mesh embedding over the grid-to-mesh edges, and the
    grid representation is the grid embedding plus what the encoding MLP
    makes of it; the subclass processes the mesh representation; the
    decoder GNN sends the processed mesh representation to the grid
    representation over the mesh-to-grid edges; the output map gives
    [net_output] with [grid_state_dim] features; and the value returned is
    [prev_state + (net_output * step_diff_std + step_diff_mean)], entry by
    entry.  Its shape is the shape of [prev_state].  The sub-modules are
    called in the order embedders, mesh embedding, encoder GNN, encoding
    MLP, processor, decoder GNN, output map. *)
Theorem predict_step_residual_shape (self : BaseGraphModel.t F)
    (cls : BaseGraphModel.overrides F) (D : dims) (B : nat)
    (prev_state prev_prev_state batch_static_features forcing : T3 F)
    (tr : list modid) :
  wf self D -> overrides_ok cls D ->
  valid_batch D B prev_state prev_prev_state batch_static_features forcing ->
  exists grid_features grid_emb g2m_emb m2g_emb mesh_emb tr_e mesh_rep0 enc
         grid_rep0 mesh_rep tr_p grid_rep net_output out,
    (* the grid features *)
    cat_last [prev_state; prev_prev_state; batch_static_features; forcing;
              expand_to_batch (grid_static_features self) (dimB prev_state)]
      = Ok grid_features
    /\ has_shape B (N_grid D) (grid_dim D) grid_features
    (* embed *)
    /\ mlp3 (grid_embedder self) grid_features = Ok grid_emb
    /\ mlp2 (g2m_embedder self) (g2m_features self) = Ok g2m_emb
    /\ mlp2 (m2g_embedder self) (m2g_features self) = Ok m2g_emb
    /\ embedd_mesh_nodes cls
         (tr ++ [mlp_name (grid_embedder self); mlp_name (g2m_embedder self);
                 mlp_name (m2g_embedder self)]) = Ok (mesh_emb, tr_e)
    (* encode *)
    /\ (exists e, net_fn (g2m_gnn self) grid_emb
                    (expand_to_batch mesh_emb (dimB prev_state))
                    (expand_to_batch g2m_emb (dimB prev_state))
                  = Ok (mesh_rep0, e))
    /\ mlp3 (encoding_grid_mlp self) grid_emb = Ok enc
    /\ tadd grid_emb enc = Ok grid_rep0
    (* process *)
    /\ process_step cls mesh_rep0
         (tr_e ++ [net_name (g2m_gnn self); mlp_name (encoding_grid_mlp self)])
       = Ok (mesh_rep, tr_p)
    (* decode *)
    /\ (exists e, net_fn (m2g_gnn self) mesh_rep grid_rep0
                    (expand_to_batch m2g_emb (dimB prev_state))
                  = Ok (grid_rep, e))
    (* output map, rescaling and residual *)
    /\ mlp3 (output_map self) grid_rep = Ok net_output
    /\ has_shape B (N_grid D) (grid_state_dim D) net_output
    /\ rescale_residual self prev_state net_output = Ok out
    /\ predict_step self cls prev_state prev_prev_state batch_static_features
                    forcing tr
       = Ok (out, tr_p ++ [net_name (m2g_gnn self); mlp_name (output_map self)])
    /\ val3 out = residual_vals (step_diff_std self) (step_diff_mean self)
                    (val3 prev_state) (val3 net_output)
    /\ wf3 out
    /\ shape3 out = shape3 prev_state.
Proof.
  intros Hwf Hcls Hbatch.
  destruct (predict_step_stages self cls D B _ _ _ _ tr Hwf Hcls Hbatch)
    as (gf & grid_emb & g2m_emb & m2g_emb & mesh_emb & tr_e & mesh_rep0 & enc
        & grid_rep0 & mesh_rep & tr_p & grid_rep & net_output
        & Hgf & Hgfs & Hge & Hg2m & Hm2g & Hemb & Henc & Hmlp & Hadd & Hproc
        & Hdec & Hmap & Hnos & Hrun).
  destruct Hwf as (_ & _ & _ & _ & _ & _ & _ & _ & Hstd & Hmean).
  destruct Hbatch as (Hprev & _).
  destruct (rescale_residual_ok self B _ _ prev_state net_output
              Hprev Hnos Hstd Hmean) as (out & Hout & Houts & Houtv).
  exists gf, grid_emb, g2m_emb, m2g_emb, mesh_emb, tr_e, mesh_rep0, enc,
    grid_rep0, mesh_rep, tr_p, grid_rep, net_output, out.
  repeat (split; [done|]).
  split; [by rewrite Hrun, Hout|]. split; [done|].
  destruct Houts as [Hw Hs], Hprev as [_ Hps]. split; [done|]. congruence.
Qed.

(** C8.  Residual property: when the output map gives the all-zero vector
    whatever it is applied to (so the network output before rescaling is
    all zero) and [step_diff_mean] is zero, [predict_step] returns
    [prev_state] itself.  The arithmetic facts used are stated for the
    scalars at hand: zero times each entry of [step_diff_std] is zero,
    zero plus zero is zero, and each entry of [prev_state] plus zero is
    that entry. *)
Theorem predict_step_zero_output (self : BaseGraphModel.t F)
    (cls : BaseGraphModel.overrides F) (D : dims) (B : nat)
    (prev_state prev_prev_state batch_static_features forcing : T3 F)
    (tr : list modid) :
  wf self D -> overrides_ok cls D ->
  valid_batch D B prev_state prev_prev_state batch_static_features forcing ->
  (forall v, length v = d_h D ->
             mlp_fn (output_map self) v = replicate (grid_state_dim D) fzero) ->
  step_diff_mean self = replicate (grid_state_dim D) fzero ->
  Forall (fun s => fmul fzero s = fzero) (step_diff_std self) ->
  fadd fzero fzero = fzero ->
  Forall (Forall (Forall (fun x => fadd x fzero = x))) (val3 prev_state) ->
  exists tr',
    predict_step self cls prev_state prev_prev_state batch_static_features
                 forcing tr = Ok (prev_state, tr').
Proof.
  intros Hwf Hcls Hbatch Hzero Hmean0 Hmul Hadd Hprev0.
  destruct (predict_step_run self cls D B _ _ _ _ tr Hwf Hcls Hbatch)
    as (gf & mesh_emb & tr_e & mesh_rep0 & mesh_rep & tr_p & grid_rep
        & net_output & _ & _ & _ & _ & _ & Hgrs & Hmap & Hnos & Hrun).
  destruct Hwf as (_ & _ & _ & _ & _ & _ & _ & (Hom & Homi & Homo) & Hstd & Hmean).
  destruct Hbatch as (Hprev & _).
  destruct (rescale_residual_ok self B _ _ prev_state net_output
              Hprev Hnos Hstd Hmean) as (out & Hout & Houts & Houtv).
  eexists. rewrite Hrun, Hout. unfold lift. do 2 f_equal.
  (* the network output is all zero *)
  destruct (mlp3_ok _ B (N_grid D) (d_h D) grid_rep Hom Homi Hgrs)
    as (no' & Hno' & _ & Hnov).
  rewrite Hmap in Hno'. injection Hno' as <-.
  pose proof (has_shape_dims _ _ _ _ Hprev) as (HBp & HNp & HDp).
  pose proof (has_shape_dims _ _ _ _ Houts) as (HBo & HNo & HDo).
  pose proof (has_shape_dims _ _ _ _ Hgrs) as (HBg & HNg & HDg).
  destruct Hprev as [[Hpl Hpm] _], Hgrs as [[Hgl Hgm] _].
  rewrite HNp, HDp in Hpm. rewrite HNg, HDg in Hgm.
  assert (Hval : val3 out = val3 prev_state).
  { rewrite Houtv.
    apply (residual_vals_zero _ _ (N_grid D) (grid_state_dim D));
      try done.
    - rewrite Hnov, length_fmap. lia.
    - clear -Hpm Hprev0. induction Hpm as [|m ms [Hm Hr] _ IH]; [done|].
      inversion Hprev0 as [|?? Hm0 Hms0]; subst.
      constructor; [|by apply IH]. split; [done|].
      clear -Hr Hm0. induction Hr as [|r rs Hrl _ IHr]; [done|].
      inversion Hm0; subst. constructor; [done|by apply IHr].
    - rewrite Hnov. apply Forall_fmap.
      eapply Forall_impl; [exact Hgm|]. intros m [Hm Hr]. simpl.
      rewrite <- Hm. clear -Hr Hzero.
      induction Hr as [|r rs Hrl _ IHr]; [done|].
      rewrite fmap_cons. cbn [length replicate].
      by rewrite (Hzero r Hrl), IHr. }
  destruct out, prev_state; simpl in *. f_equal; congruence.
Qed.

End Claims.
End BaseClaims.

(* ===================================================================== *)
(** * HiLAM: sequential down and up sweeps                                *)
(* ===================================================================== *)

Module HiLAMFacts.
Import TorchFacts PyFacts FwdFacts HiFacts.
Import BaseHiGraphModel.

(** A loop whose body keeps an invariant and records its calls. *)
Lemma foldM_inv_calls {A S} (f : S -> A -> M S) (Inv : S -> Prop)
    (P : A -> Prop) (names : A -> list modid) :
  (forall s a tr, Inv s -> P a ->
     exists s', f s a tr = Ok (s', tr ++ names a) /\ Inv s') ->
  forall l s tr, Forall P l -> Inv s ->
    exists s', foldM f l s tr = Ok (s', tr ++ concat (names <$> l)) /\ Inv s'.
Proof.
  intros Hbody l. induction l as [|a l IH]; intros s tr Hl Hs.
  - exists s. split; [|done]. simpl. unfold ret. by rewrite app_nil_r.
  - inversion Hl as [|?? Ha Hl']; subst.
    destruct (Hbody s a tr Hs Ha) as (s1 & Hrun & Hs1).
    destruct (IH s1 (tr ++ names a) Hl' Hs1) as (s2 & Hrest & Hs2).
    exists s2. split; [|done].
    cbn [foldM]. rewrite (bind_eq _ _ _ _ _ Hrun), Hrest.
    rewrite fmap_cons. simpl. by rewrite app_assoc.
Qed.

Lemma getitem_neg1 {A} (l : list A) x :
  l !! (length l - 1) = Some x -> getitem l (-1) = Ok x.
Proof.
  intros Hx. pose proof (lookup_lt_Some _ _ _ Hx) as Hlt.
  unfold getitem. change (-1 <? 0)%Z with true. cbv iota.
  replace (Z.of_nat (length l) + -1)%Z with (Z.of_nat (length l - 1)) by lia.
  by rewrite ltb_nat_false, Nat2Z.id, Hx.
Qed.

Lemma setitem_neg1 {A} (l : list A) x :
  1 <= length l -> setitem l (-1) x = Ok (<[length l - 1 := x]> l).
Proof.
  intros Hlt. unfold setitem. change (-1 <? 0)%Z with true. cbv iota.
  replace (Z.of_nat (length l) + -1)%Z with (Z.of_nat (length l - 1)) by lia.
  rewrite ltb_nat_false, Nat2Z.id. by rewrite decide_True by lia.
Qed.

Lemma slice_to_neg1 {A} (l : list A) : slice_to l (-1) = take (length l - 1) l.
Proof.
  unfold slice_to, slice_bound. change (-1 <? 0)%Z with true. cbv iota.
  f_equal. lia.
Qed.

Lemma last_lookup_some {A} (l : list A) x :
  l !! (length l - 1) = Some x -> last l = Some x.
Proof.
  intros Hx. rewrite last_lookup.
  replace (pred (length l)) with (length l - 1) by lia. done.
Qed.

Section Facts.
Context {F : Type}.
Implicit Types (sup : BaseHiGraphModel.t F) (self : HiLAM.t F).

Lemma down_body_ok sup B d st it tr :
  HiLAM.sweep_inv sup B d (M_down sup) st -> HiLAM.down_item sup d it ->
  exists st',
    HiLAM.down_body st it tr
      = Ok (st', tr ++ [net_name it.1.2; net_name it.2])
    /\ HiLAM.sweep_inv sup B d (M_down sup) st'.
Proof.
  destruct st as [[lv same] down], it as [[z dg] sg].
  intros (Hlv & Hsame & Hdown)
         (l & n1 & n0 & md & ms & Hz & Hud & Hus & Hn1 & Hn0 & Hmd & Hms
          & Hdspec & Hsspec).
  simpl in *. subst z.
  destruct (shapes_lookup _ _ _ _ _ _ Hlv Hn1) as (s & Hs & Hss).
  destruct (shapes_lookup _ _ _ _ _ _ Hlv Hn0) as (r & Hr & Hrs).
  destruct (shapes_lookup _ _ _ _ _ _ Hdown Hmd) as (de & Hde & Hdes).
  destruct (shapes_lookup _ _ _ _ _ _ Hsame Hms) as (se & Hse & Hses).
  destruct (call_gnn2_ok dg n1 n0 md d B s r de tr Hud Hdspec Hss Hrs Hdes)
    as (nn & nd & Hrun1 & Hnn & Hnd).
  destruct (call_gnn2_ok sg n0 n0 ms d B nn nn se (tr ++ [net_name dg])
              Hus Hsspec Hnn Hnn Hses)
    as (nr & ns & Hrun2 & Hnr & Hns).
  exists (<[l := nr]> lv, <[l := ns]> same, <[l := nd]> down).
  split; [|repeat split; simpl; eapply shapes_insert; eauto].
  unfold HiLAM.down_body.
  replace (Z.of_nat l + 1)%Z with (Z.of_nat (S l)) by lia.
  rewrite (bind_lift _ _ _ _ (getitem_nat _ _ _ Hs)).
  rewrite (bind_lift _ _ _ _ (getitem_nat _ _ _ Hr)).
  rewrite (bind_lift _ _ _ _ (getitem_nat _ _ _ Hde)).
  rewrite (bind_lift _ _ _ _ (getitem_nat _ _ _ Hse)).
  rewrite (bind_eq _ _ _ _ _ Hrun1).
  rewrite (bind_lift _ _ _ _ (setitem_nat down l nd
             (shapes_lookup_lt _ _ _ _ _ _ Hdown Hmd))).
  rewrite (bind_eq _ _ _ _ _ Hrun2).
  rewrite (bind_lift _ _ _ _ (setitem_nat lv l nr
             (shapes_lookup_lt _ _ _ _ _ _ Hlv Hn0))).
  rewrite (bind_lift _ _ _ _ (setitem_nat same l ns
             (shapes_lookup_lt _ _ _ _ _ _ Hsame Hms))).
  unfold ret. by rewrite <- app_assoc.
Qed.

Lemma up_body_ok sup B d st it tr :
  HiLAM.sweep_inv sup B d (M_up sup) st -> HiLAM.up_item sup d it ->
  exists st',
    HiLAM.up_body st it tr
      = Ok (st', tr ++ [net_name it.2.1; net_name it.2.2])
    /\ HiLAM.sweep_inv sup B d (M_up sup) st'.
Proof.
  destruct st as [[lv same] up], it as [z [ug sg]].
  intros (Hlv & Hsame & Hup)
         (l & n0 & n1 & mu & ms & Hz & Huu & Hus & Hn0 & Hn1 & Hmu & Hms
          & Huspec & Hsspec).
  simpl in *. subst z.
  destruct (shapes_lookup _ _ _ _ _ _ Hlv Hn0) as (s & Hs & Hss).
  destruct (shapes_lookup _ _ _ _ _ _ Hlv Hn1) as (r & Hr & Hrs).
  destruct (shapes_lookup _ _ _ _ _ _ Hup Hmu) as (ue & Hue & Hues).
  destruct (shapes_lookup _ _ _ _ _ _ Hsame Hms) as (se & Hse & Hses).
  destruct (call_gnn2_ok ug n0 n1 mu d B s r ue tr Huu Huspec Hss Hrs Hues)
    as (nn & nu & Hrun1 & Hnn & Hnu).
  destruct (call_gnn2_ok sg n1 n1 ms d B nn nn se (tr ++ [net_name ug])
              Hus Hsspec Hnn Hnn Hses)
    as (nr & ns & Hrun2 & Hnr & Hns).
  exists (<[S l := nr]> lv, <[S l := ns]> same, <[l := nu]> up).
  split; [|repeat split; simpl; eapply shapes_insert; eauto].
  unfold HiLAM.up_body.
  replace (Z.of_nat (S l) - 1)%Z with (Z.of_nat l) by lia.
  rewrite (bind_lift _ _ _ _ (getitem_nat _ _ _ Hs)).
  rewrite (bind_lift _ _ _ _ (getitem_nat _ _ _ Hr)).
  rewrite (bind_lift _ _ _ _ (getitem_nat _ _ _ Hue)).
  rewrite (bind_lift _ _ _ _ (getitem_nat _ _ _ Hse)).
  rewrite (bind_eq _ _ _ _ _ Hrun1).
  rewrite (bind_lift _ _ _ _ (setitem_nat up l nu
             (shapes_lookup_lt _ _ _ _ _ _ Hup Hmu))).
  rewrite (bind_eq _ _ _ _ _ Hrun2).
  rewrite (bind_lift _ _ _ _ (setitem_nat lv (S l) nr
             (shapes_lookup_lt _ _ _ _ _ _ Hlv Hn1))).
  rewrite (bind_lift _ _ _ _ (setitem_nat same (S l) ns
             (shapes_lookup_lt _ _ _ _ _ _ Hsame Hms))).
  unfold ret. by rewrite <- app_assoc.
Qed.

Lemma down_items sup d down_gnns same_gnns :
  wf_graph sup ->
  level_gnns_ok sup d true 1 0 (M_down sup) down_gnns ->
  level_gnns_ok sup d true 0 0 (M_same sup) same_gnns ->
  Forall (HiLAM.down_item sup d)
    (zip (zip (range_down (Z.of_nat (N_levels sup) - 2) (-1))
              (reverse down_gnns))
         (reverse (slice_to same_gnns (-1)))).
Proof.
  intros (HL & Hsl & _ & Hdl) [Hdlen Hdg] [Hslen Hsg].
  unfold M_down, M_same in Hdlen, Hslen. rewrite length_fmap in Hdlen, Hslen.
  apply Forall_lookup. intros i p Hp.
  apply lookup_zip_with_Some in Hp as (p1 & sg & -> & Hp1 & Hsgi).
  apply lookup_zip_with_Some in Hp1 as (z & dg & -> & Hz & Hdgi).
  replace (Z.of_nat (N_levels sup) - 2)%Z
    with (Z.of_nat (N_levels sup - 1) - 1)%Z in Hz by lia.
  apply range_down_lookup in Hz as [Hi ->].
  apply reverse_lookup_Some in Hdgi as [Hdgi _].
  rewrite slice_to_neg1 in Hsgi.
  apply reverse_lookup_Some in Hsgi as [Hsgi _].
  rewrite length_take in Hsgi. rewrite lookup_take_Some in Hsgi.
  destruct Hsgi as [Hsgi _].
  replace (length down_gnns - S i) with (N_levels sup - 1 - 1 - i) in Hdgi by lia.
  replace ((length same_gnns - 1) `min` length same_gnns - S i)
    with (N_levels sup - 1 - 1 - i) in Hsgi by lia.
  destruct (Hdg _ dg Hdgi) as (Hud & n1 & n0 & md & Hn1 & Hn0 & Hmd & Hdspec).
  destruct (Hsg _ sg Hsgi) as (Hus & n0' & n0'' & ms & Hn0' & Hn0'' & Hms & Hsspec).
  rewrite Nat.add_1_r in Hn1. rewrite Nat.add_0_r in Hn0, Hn0', Hn0''.
  simplify_eq.
  exists (N_levels sup - 1 - 1 - i), n1, n0, md, ms. by simpl.
Qed.

Lemma up_items sup d up_gnns same_gnns :
  level_gnns_ok sup d true 0 1 (M_up sup) up_gnns ->
  level_gnns_ok sup d true 0 0 (M_same sup) same_gnns ->
  Forall (HiLAM.up_item sup d)
    (enumerate 1 (zip up_gnns (slice_from same_gnns 1))).
Proof.
  intros [_ Hug] [_ Hsg].
  apply Forall_lookup. intros i p Hp.
  apply enumerate_lookup in Hp as (q & Hq & ->).
  apply lookup_zip_with_Some in Hq as (ug & sg & -> & Hugi & Hsgi).
  change 1%Z with (Z.of_nat 1) in Hsgi. rewrite slice_from_nat in Hsgi.
  rewrite lookup_drop in Hsgi.
  destruct (Hug _ ug Hugi) as (Huu & n0 & n1 & mu & Hn0 & Hn1 & Hmu & Huspec).
  destruct (Hsg _ sg Hsgi) as (Hus & n1' & n1'' & ms & Hn1' & Hn1'' & Hms & Hsspec).
  rewrite Nat.add_0_r in Hn0, Hn1', Hn1''. rewrite Nat.add_1_r in Hn1.
  simpl in Hn1', Hn1'', Hms. simplify_eq.
  exists i, n0, n1, mu, ms. simpl. repeat split; try done. lia.
Qed.

End Facts.
End HiLAMFacts.

Module HiLAMRun.
Import TorchFacts PyFacts FwdFacts HiFacts HiLAMFacts.
Import BaseHiGraphModel.
Section Run.
Context {F : Type}.
Implicit Types (sup : BaseHiGraphModel.t F) (self : HiLAM.t F).

(** One down-sweep keeps the lists fit for the graph and calls the GNNs of
    [down_calls], in that order. *)
Lemma mesh_down_step_ok self B d levels same down down_gnns same_gnns tr :
  wf_graph (HiLAM.super self) ->
  level_gnns_ok (HiLAM.super self) d true 1 0 (M_down (HiLAM.super self)) down_gnns ->
  level_gnns_ok (HiLAM.super self) d true 0 0 (M_same (HiLAM.super self)) same_gnns ->
  HiLAM.sweep_inv (HiLAM.super self) B d (M_down (HiLAM.super self))
                  (levels, same, down) ->
  exists st',
    HiLAM.mesh_down_step self levels same down down_gnns same_gnns tr
      = Ok (st', tr ++ HiLAM.down_calls self down_gnns same_gnns)
    /\ HiLAM.sweep_inv (HiLAM.super self) B d (M_down (HiLAM.super self)) st'.
Proof.
  remember (HiLAM.super self) as sup eqn:Hsup.
  intros Hg Hdg Hsg (Hlv & Hsame & Hdown). simpl in Hlv, Hsame, Hdown.
  pose proof Hg as (HL & Hsl & _ & _).
  pose proof Hsg as [Hslen Hsgs].
  pose proof (shapes_length _ _ _ _ Hlv) as Hll.
  pose proof (shapes_length _ _ _ _ Hsame) as Hsml.
  unfold N_mesh_levels in Hll. unfold M_same in Hsml, Hslen.
  rewrite length_fmap in Hll. rewrite length_fmap in Hsml.
  rewrite length_fmap in Hslen. fold (N_levels sup) in Hll.
  destruct (lookup_lt_is_Some_2 same_gnns (N_levels sup - 1) ltac:(lia))
    as (g & Hgi).
  destruct (Hsgs _ g Hgi) as (Hup & n & n' & ms & Hn & Hn' & Hms & Hspec).
  rewrite Nat.add_0_r in Hn, Hn'. rewrite Hn in Hn'. injection Hn' as <-.
  destruct (shapes_lookup _ _ _ _ _ _ Hlv Hn) as (top & Htop & Htops).
  destruct (shapes_lookup _ _ _ _ _ _ Hsame Hms) as (te & Hte & Htes).
  destruct (call_gnn2_ok g n n ms d B top top te tr Hup Hspec Htops Htops Htes)
    as (nr & ne & Hrun & Hnr & Hne).
  destruct (foldM_inv_calls HiLAM.down_body
              (HiLAM.sweep_inv sup B d (M_down sup))
              (HiLAM.down_item sup d)
              (fun it => [net_name it.1.2; net_name it.2])
              (fun st it tr Hst Hit => down_body_ok sup B d st it tr Hst Hit)
              _ (<[N_levels sup - 1 := nr]> levels,
                 <[N_levels sup - 1 := ne]> same, down)
              (tr ++ [net_name g])
              (down_items sup d down_gnns same_gnns Hg Hdg Hsg))
    as (st' & Hloop & Hinv).
  { repeat split; simpl; [eapply shapes_insert; eauto..|done]. }
  exists st'. split; [|done].
  unfold HiLAM.mesh_down_step, HiLAM.down_calls. rewrite <- Hsup.
  rewrite (bind_lift _ _ _ _ (getitem_neg1 same_gnns g
             ltac:(by rewrite Hslen, Hsl))).
  rewrite (bind_lift _ _ _ _ (getitem_neg1 levels top ltac:(by rewrite Hll))).
  rewrite (bind_lift _ _ _ _ (getitem_neg1 same te
             ltac:(by rewrite Hsml, Hsl))).
  rewrite (bind_eq _ _ _ _ _ Hrun).
  rewrite (bind_lift _ _ _ _ (setitem_neg1 levels nr ltac:(lia))).
  rewrite (bind_lift _ _ _ _ (setitem_neg1 same ne ltac:(lia))).
  rewrite Hll, Hsml, Hsl. rewrite Hloop.
  rewrite (last_lookup_some same_gnns g ltac:(by rewrite Hslen, Hsl)).
  simpl. by rewrite <- app_assoc.
Qed.

(** One up-sweep keeps the lists fit for the graph and calls the GNNs of
    [up_calls], in that order. *)
Lemma mesh_up_step_ok self B d levels same up up_gnns same_gnns tr :
  wf_graph (HiLAM.super self) ->
  level_gnns_ok (HiLAM.super self) d true 0 1 (M_up (HiLAM.super self)) up_gnns ->
  level_gnns_ok (HiLAM.super self) d true 0 0 (M_same (HiLAM.super self)) same_gnns ->
  HiLAM.sweep_inv (HiLAM.super self) B d (M_up (HiLAM.super self))
                  (levels, same, up) ->
  exists st',
    HiLAM.mesh_up_step self levels same up up_gnns same_gnns tr
      = Ok (st', tr ++ HiLAM.up_calls up_gnns same_gnns)
    /\ HiLAM.sweep_inv (HiLAM.super self) B d (M_up (HiLAM.super self)) st'.
Proof.
  remember (HiLAM.super self) as sup eqn:Hsup.
  intros Hg Hug Hsg (Hlv & Hsame & Hup). simpl in Hlv, Hsame, Hup.
  pose proof Hg as (HL & Hsl & _ & _).
  pose proof Hsg as [Hslen Hsgs].
  unfold M_same in Hslen. rewrite length_fmap in Hslen.
  destruct (lookup_lt_is_Some_2 same_gnns 0 ltac:(lia)) as (g & Hgi).
  destruct (Hsgs _ g Hgi) as (Hupd & n & n' & ms & Hn & Hn' & Hms & Hspec).
  simpl in Hn, Hn'. rewrite Hn in Hn'. injection Hn' as <-.
  destruct (shapes_lookup _ _ _ _ _ _ Hlv Hn) as (bot & Hbot & Hbots).
  destruct (shapes_lookup _ _ _ _ _ _ Hsame Hms) as (be & Hbe & Hbes).
  destruct (call_gnn2_ok g n n ms d B bot bot be tr Hupd Hspec Hbots Hbots Hbes)
    as (nr & ne & Hrun & Hnr & Hne).
  destruct (foldM_inv_calls HiLAM.up_body
              (HiLAM.sweep_inv sup B d (M_up sup))
              (HiLAM.up_item sup d)
              (fun it => [net_name it.2.1; net_name it.2.2])
              (fun st it tr Hst Hit => up_body_ok sup B d st it tr Hst Hit)
              _ (<[0 := nr]> levels, <[0 := ne]> same, up)
              (tr ++ [net_name g])
              (up_items sup d up_gnns same_gnns Hug Hsg))
    as (st' & Hloop & Hinv).
  { repeat split; simpl; [eapply shapes_insert; eauto..|done]. }
  exists st'. split; [|done].
  unfold HiLAM.mesh_up_step, HiLAM.up_calls.
  change 0%Z with (Z.of_nat 0).
  rewrite (bind_lift _ _ _ _ (getitem_nat _ _ _ Hgi)).
  rewrite (bind_lift _ _ _ _ (getitem_nat _ _ _ Hbot)).
  rewrite (bind_lift _ _ _ _ (getitem_nat _ _ _ Hbe)).
  rewrite (bind_eq _ _ _ _ _ Hrun).
  rewrite (bind_lift _ _ _ _ (setitem_nat levels 0 nr
             (shapes_lookup_lt _ _ _ _ _ _ Hlv Hn))).
  rewrite (bind_lift _ _ _ _ (setitem_nat same 0 ne
             (shapes_lookup_lt _ _ _ _ _ _ Hsame Hms))).
  rewrite Hloop. destruct same_gnns as [|g0 rest]; [done|].
  simpl in Hgi. injection Hgi as ->. simpl. by rewrite <- app_assoc.
Qed.

(** [HiLAM.hi_processor_step] keeps the representations fit for the graph
    and calls, per repetition, the GNNs of a down-sweep and then those of an
    up-sweep. *)
Lemma hi_processor_step_ok self B d levels same up down tr :
  HiLAM.wf self d ->
  reps_ok (HiLAM.super self) B d (levels, same, up, down) ->
  exists r,
    HiLAM.hi_processor_step self levels same up down tr
      = Ok (r, tr ++ HiLAM.calls self)
    /\ reps_ok (HiLAM.super self) B d r.
Proof.
  intros (Hg & Hdown & Hdsame & Hup & Husame) Hreps.
  unfold HiLAM.hi_processor_step, HiLAM.calls.
  apply (foldM_inv_calls (HiLAM.layer_body self)
           (reps_ok (HiLAM.super self) B d)
           (fun it =>
              level_gnns_ok (HiLAM.super self) d true 1 0
                (M_down (HiLAM.super self)) it.1.1.1
              /\ level_gnns_ok (HiLAM.super self) d true 0 0
                   (M_same (HiLAM.super self)) it.1.1.2
              /\ level_gnns_ok (HiLAM.super self) d true 0 1
                   (M_up (HiLAM.super self)) it.1.2
              /\ level_gnns_ok (HiLAM.super self) d true 0 0
                   (M_same (HiLAM.super self)) it.2)); [| |done].
  - clear levels same up down tr Hreps.
    intros [[[lv same] up] down] [[[dg dsg] ug] usg] tr
           (Hlv & Hs & Hu & Hd) (Hdg & Hdsg & Hug & Husg). simpl in *.
    destruct (mesh_down_step_ok self B d lv same down dg dsg tr Hg Hdg Hdsg
                ltac:(by repeat split))
      as ([[lv1 same1] down1] & Hrun1 & Hlv1 & Hs1 & Hd1).
    simpl in Hlv1, Hs1, Hd1.
    destruct (mesh_up_step_ok self B d lv1 same1 up ug usg
                (tr ++ HiLAM.down_calls self dg dsg) Hg Hug Husg
                ltac:(by repeat split))
      as ([[lv2 same2] up2] & Hrun2 & Hlv2 & Hs2 & Hu2).
    simpl in Hlv2, Hs2, Hu2.
    exists (lv2, same2, up2, down1). split; [|by repeat split].
    unfold HiLAM.layer_body.
    rewrite (bind_eq _ _ _ _ _ Hrun1), (bind_eq _ _ _ _ _ Hrun2).
    unfold ret. by rewrite <- app_assoc.
  - apply Forall_lookup. intros i it Hit.
    apply lookup_zip_with_Some in Hit as (it1 & usg & -> & Hit1 & Husg).
    apply lookup_zip_with_Some in Hit1 as (it2 & ug & -> & Hit2 & Hug).
    apply lookup_zip_with_Some in Hit2 as (dg & dsg & -> & Hdg & Hdsg).
    simpl. split; [exact (Forall_lookup_1 _ _ _ _ Hdown Hdg)|].
    split; [exact (Forall_lookup_1 _ _ _ _ Hdsame Hdsg)|].
    split; [exact (Forall_lookup_1 _ _ _ _ Hup Hug)|].
    exact (Forall_lookup_1 _ _ _ _ Husame Husg).
Qed.

End Run.
End HiLAMRun.

Module HiLAMClaims.
Import TorchFacts PyFacts FwdFacts HiFacts HiLAMFacts HiLAMRun.
Import BaseHiGraphModel.
Section Claims.
Context {F : Type}.
Variable forward :
  modid -> net_args -> T3 F -> T3 F -> T3 F -> res (T3 F * T3 F).


End Claims.
End HiLAMClaims.

(* ===================================================================== *)
(** * Construction of GraphLAM                                            *)
(* ===================================================================== *)

Module ConstructionClaims.
Import Construction.
Local Open Scope string_scope.

(** Peel the [rbind]s off a run that succeeded. *)
Ltac bind_inv H :=
  match type of H with
  | rbind ?m _ = Ok _ =>
      let E := fresh "E" in
      destruct m eqn:E; cbn [rbind] in H; [|discriminate H]
  | context [match ?p with pair _ _ => _ end] => destruct p
  end.

Section Claims.
Variable InteractionNet_init : list nat -> res unit.

(** Any other attribute is, after [BaseGraphModel.__init__], what the
    graph, the [hierarchical] flag or [ARModel.__init__] made it. *)
Lemma base_init_frame get_num hp self0 h ld self1 name :
  BaseGraphModel_init InteractionNet_init get_num hp self0 (h, ld) = Ok self1 ->
  name ∉ base_assigned ->
  self1 !! name = (ld ∪ <["hierarchical" := VBool h]> self0) !! name.
Proof.
  intros Hrun Hname. unfold BaseGraphModel_init in Hrun.
  repeat bind_inv Hrun.
  injection Hrun as <-. unfold setattr.
  unfold base_assigned in Hname.
  rewrite !lookup_insert_ne;
    [done|intros <-; apply Hname; apply (bool_decide_unpack _);
          vm_compute; exact I..].
Qed.

(** C3 (as the code behaves).  [GraphLAM.__init__] never returns an
    object when neither [ARModel.__init__] nor the loaded graph sets an
    attribute named [hierachical]: on a non-hierarchical graph for which
    [BaseGraphModel.__init__] succeeds, the [print] after the assertion
    reads [self.hierachical] and raises [AttributeError]. *)
Theorem GraphLAM_init_attribute_error
    (hp : HyperParam) (self0 ld : gmap string value) :
  self0 !! "hierachical" = None -> ld !! "hierachical" = None ->
  ld !! "hierarchical" = None ->
  (forall h, is_ok (GraphLAM_init InteractionNet_init hp self0 (h, ld)) = false)
  /\ (forall self1,
        BaseGraphModel_init InteractionNet_init get_num_mesh hp self0 (false, ld)
          = Ok self1 ->
        GraphLAM_init InteractionNet_init hp self0 (false, ld)
          = Raise (AttributeError "hierachical")).
Proof.
  intros H0 Hld Hld'.
  assert (Habs : forall h self1,
             BaseGraphModel_init InteractionNet_init get_num_mesh hp self0 (h, ld)
               = Ok self1 -> self1 !! "hierachical" = None).
  { intros h self1 Hbase.
    rewrite (base_init_frame _ _ _ _ _ _ _ Hbase)
      by (apply (bool_decide_unpack _); vm_compute; exact I).
    apply lookup_union_None. split; [done|]. by rewrite lookup_insert_ne. }
  split.
  - intros h. unfold GraphLAM_init.
    destruct (BaseGraphModel_init _ _ _ _ _) as [self1|e] eqn:Hbase; [|done].
    cbn [rbind]. destruct (getattr self1 "hierarchical") as [hv|e]; [|done].
    cbn [rbind]. destruct (truthy hv); [done|].
    unfold getattr at 1. by rewrite (Habs _ _ Hbase).
  - intros self1 Hbase. unfold GraphLAM_init. rewrite Hbase. cbn [rbind].
    assert (Hh : getattr self1 "hierarchical" = Ok (VBool false)).
    { unfold getattr.
      rewrite (base_init_frame _ _ _ _ _ _ _ Hbase)
        by (apply (bool_decide_unpack _); vm_compute; exact I).
      rewrite lookup_union_r by done. by rewrite lookup_insert_eq. }
    rewrite Hh. cbn [rbind truthy].
    unfold getattr at 1. by rewrite (Habs _ _ Hbase).
Qed.

End Claims.

(** On the small graph, with an [InteractionNet] constructor that does not
    raise, [BaseGraphModel.__init__] succeeds. *)
Lemma small_base_init_ok :
  is_ok (BaseGraphModel_init (fun _ => Ok tt) get_num_mesh small_hp small_self
           (false, small_graph)) = true.
Proof. vm_compute. reflexivity. Qed.

Lemma small_self_lookup : small_self !! "hierachical" = None.
Proof. vm_compute. reflexivity. Qed.

Lemma small_graph_lookup :
  small_graph !! "hierachical" = None /\ small_graph !! "hierarchical" = None.
Proof. split; vm_compute; reflexivity. Qed.

(** ... and [GraphLAM.__init__] raises [AttributeError]. *)
Lemma GraphLAM_init_attribute_error_witness :
  GraphLAM_init (fun _ => Ok tt) small_hp small_self (false, small_graph)
    = Raise (AttributeError "hierachical").
Proof.
  destruct (BaseGraphModel_init (fun _ => Ok tt) get_num_mesh small_hp small_self
              (false, small_graph)) as [self1|e] eqn:Hbase.
  - apply (proj2 (GraphLAM_init_attribute_error (fun _ => Ok tt) small_hp
                    small_self small_graph small_self_lookup
                    (proj1 small_graph_lookup) (proj2 small_graph_lookup))
             self1 Hbase).
  - pose proof small_base_init_ok as Hok. rewrite Hbase in Hok. discriminate Hok.
Defined.

End ConstructionClaims.

(* ===================================================================== *)
(** * The dataset registry                                                *)
(* ===================================================================== *)

Module DatasetsClaims.
Import Datasets.
Local Open Scope string_scope.

(** The package root, read off the location of the module. *)
Lemma parents_module_file (root : Path) :
  parents (module_file root) 2 = Ok root.
Proof.
  destruct root as [a ps]. unfold parents, module_file, joinpath.
  cbn [parts anchor]. rewrite <- !app_assoc. cbn [app].
  rewrite decide_True by (rewrite length_app; simpl; lia).
  do 2 f_equal. rewrite length_app. cbn [length].
  replace (length ps + 3 - 3) with (length ps) by lia.
  by rewrite take_app_length.
Qed.

(** The module body once [default_config_root] is known. *)
Lemma module_body_eq (root : Path) (imp : string -> import_outcome) :
  module_body root imp
  = match imp "base" with
    | ImportRaises e => Raise e
    | Imported =>
        rbind (try_register "smeagol" "SmeagolDataset"
                 (config_path root "smeagol") [ImportError] (imp "smeagol")
                 (mkState ∅ []))
          (fun st =>
             try_register "titan" "TitanDataset" (config_path root "titan")
               [ImportError; FileNotFoundError; ModuleNotFoundError]
               (imp "titan") st)
    end.
Proof.
  unfold module_body. destruct (imp "base"); [|done].
  by rewrite parents_module_file.
Qed.

(** Which of the two datasets a member of [dataset_modules] is. *)
Lemma dataset_modules_cases (d kls : string) :
  (d, kls) ∈ dataset_modules ->
  (d = "smeagol" /\ kls = "SmeagolDataset")
  \/ (d = "titan" /\ kls = "TitanDataset").
Proof.
  unfold dataset_modules. intros Hd.
  apply elem_of_cons in Hd as [Hd|Hd].
  - left. by injection Hd.
  - apply list_elem_of_singleton in Hd. right. by injection Hd.
Qed.

(** Both [except] clauses catch a missing dependency. *)
Lemma missing_dependency_caught o :
  missing_dependency o ->
  exists e, o = ImportRaises e
            /\ caught [ImportError] e = true
            /\ caught [ImportError; FileNotFoundError; ModuleNotFoundError] e
               = true.
Proof. intros [-> | ->]; eexists; by repeat split. Qed.

(** The module body, by the outcomes of the two dataset imports. *)
Lemma module_body_smeagol_missing root imp e ot :
  imp "base" = Imported -> imp "smeagol" = ImportRaises e ->
  caught [ImportError] e = true -> imp "titan" = ot ->
  module_body root imp
  = try_register "titan" "TitanDataset" (config_path root "titan")
      [ImportError; FileNotFoundError; ModuleNotFoundError] ot
      (mkState ∅ ["Could not import SmeagolDataset"]).
Proof.
  intros Hb Hs Hc Ht. rewrite module_body_eq, Hb, Hs, Ht.
  unfold try_register at 1. by rewrite Hc.
Qed.

(** C9.  When the import of one dataset implementation fails for a missing
    dependency, and the other one is either imported or fails in the same
    way, the module body runs to its end: the failure is turned into a
    warning, the name of that dataset is not in the registry (so
    [get_datasets] refuses it), and the other dataset is registered exactly
    when its import succeeded. *)
Theorem missing_dependency_is_a_warning
    (root : Path) (imp : string -> import_outcome) (d kls : string) :
  imp "base" = Imported ->
  (d, kls) ∈ dataset_modules ->
  missing_dependency (imp d) ->
  (forall d' kls', (d', kls') ∈ dataset_modules -> d' <> d ->
     imp d' = Imported \/ missing_dependency (imp d')) ->
  exists st,
    module_body root imp = Ok st
    /\ registry st !! d = None
    /\ ("Could not import " ++ kls) ∈ warned st
    /\ get_datasets st d None = Raise ValueError
    /\ (forall d' kls', (d', kls') ∈ dataset_modules -> d' <> d ->
          (is_Some (registry st !! d') <-> imp d' = Imported)).
Proof.
  intros Hbase Hd Hmiss Hother.
  destruct (missing_dependency_caught _ Hmiss) as (e & He & Hc1 & Hc2).
  destruct (dataset_modules_cases _ _ Hd) as [[-> ->]|[-> ->]].
  - (* smeagol is missing *)
    assert (Ht : imp "titan" = Imported \/ missing_dependency (imp "titan")).
    { apply (Hother "titan" "TitanDataset"); [|done].
      unfold dataset_modules. apply elem_of_cons. right.
      by apply list_elem_of_singleton. }
    rewrite (module_body_smeagol_missing root imp e _ Hbase He Hc1 eq_refl).
    destruct Ht as [Ht|Ht].
    + rewrite Ht. eexists. split; [reflexivity|]. cbn [registry warned].
      unfold get_datasets. cbn [registry].
      rewrite lookup_insert_ne, lookup_empty by done.
      split; [done|]. split; [by apply list_elem_of_singleton|].
      split; [done|]. intros d' kls' Hd' Hne.
      destruct (dataset_modules_cases _ _ Hd') as [[-> ->]|[-> ->]]; [done|].
      rewrite lookup_insert_eq. split; [done|by eexists].
    + destruct (missing_dependency_caught _ Ht) as (e' & He' & _ & Hc').
      rewrite He'. unfold try_register. rewrite Hc'.
      eexists. split; [reflexivity|]. cbn [registry warned].
      unfold get_datasets. cbn [registry]. rewrite lookup_empty.
      split; [done|]. split; [apply elem_of_cons; by left|].
      split; [done|]. intros d' kls' Hd' Hne.
      destruct (dataset_modules_cases _ _ Hd') as [[-> ->]|[-> ->]]; [done|].
      rewrite lookup_empty, He'. split; [by intros [x Hx]|done].
  - (* titan is missing *)
    assert (Hs : imp "smeagol" = Imported
                 \/ missing_dependency (imp "smeagol")).
    { apply (Hother "smeagol" "SmeagolDataset"); [|done].
      unfold dataset_modules. apply elem_of_cons. by left. }
    rewrite module_body_eq, Hbase, He.
    destruct Hs as [Hs|Hs].
    + rewrite Hs. unfold try_register. cbn [rbind]. rewrite Hc2.
      eexists. split; [reflexivity|]. cbn [registry warned].
      unfold get_datasets. cbn [registry].
      rewrite lookup_insert_ne, lookup_empty by done.
      split; [done|]. split; [by apply list_elem_of_singleton|].
      split; [done|]. intros d' kls' Hd' Hne.
      destruct (dataset_modules_cases _ _ Hd') as [[-> ->]|[-> ->]]; [|done].
      rewrite lookup_insert_eq. split; [done|by eexists].
    + destruct (missing_dependency_caught _ Hs) as (e' & He' & Hc' & _).
      rewrite He'. unfold try_register. rewrite Hc'. cbn [rbind]. rewrite Hc2.
      eexists. split; [reflexivity|]. cbn [registry warned].
      unfold get_datasets. cbn [registry]. rewrite lookup_empty.
      split; [done|].
      split; [apply elem_of_cons; right; by apply list_elem_of_singleton|].
      split; [done|]. intros d' kls' Hd' Hne.
      destruct (dataset_modules_cases _ _ Hd') as [[-> ->]|[-> ->]]; [|done].
      rewrite lookup_empty, He'. split; [by intros [x Hx]|done].
Qed.

End DatasetsClaims.

(* ===================================================================== *)
(** * The training entry point                                            *)
(* ===================================================================== *)

Module TrainVincentClaims.
Import TrainVincent.
Local Open Scope string_scope.
Section Claims.
Context {Loader : Type}.
Implicit Types (training_dataset val_dataset test_dataset : Dataset Loader).

(** X25.  In mode ["val"] the validation loader is assigned and at once
    overwritten: the trainer tests on the loader of the test dataset. *)
Lemma main_val_uses_test_loader training_dataset val_dataset test_dataset
    (tp : TrainingParams) :
  evaluation tp = Some "val" ->
  main training_dataset val_dataset test_dataset tp
    = Ok (test (loader test_dataset)).
Proof.
  intros Hval. unfold main. rewrite Hval. cbn [truthy].
  rewrite bool_decide_eq_false_2 by done. cbn [negb].
  rewrite bool_decide_eq_true_2 by done.
  by rewrite lookup_insert_eq.
Qed.

(** X26.  [trainer.test] never receives anything but the loader of the
    test dataset. *)
Lemma main_tests_on_test_loader training_dataset val_dataset test_dataset
    (tp : TrainingParams) (l : Loader) :
  main training_dataset val_dataset test_dataset tp = Ok (test l) ->
  l = loader test_dataset.
Proof.
  unfold main. destruct (truthy (evaluation tp)); [|discriminate].
  destruct (bool_decide (evaluation tp = Some "val")).
  - rewrite lookup_insert_eq. by intros [= <-].
  - by rewrite lookup_empty.
Qed.

(** C10 (as the code behaves).  In every evaluation mode other than
    ["val"], and so in mode ["test"], no branch assigns [eval_loader]:
    [main] raises [UnboundLocalError] where it passes [eval_loader] to
    [trainer.test], and nothing is evaluated. *)
Theorem main_test_mode_unbound training_dataset val_dataset test_dataset
    (tp : TrainingParams) (mode : string) :
  evaluation tp = Some mode -> mode <> "" -> mode <> "val" ->
  main training_dataset val_dataset test_dataset tp
    = Raise (UnboundLocalError "eval_loader").
Proof.
  intros Hmode Hne Hval. unfold main. rewrite Hmode. cbn [truthy].
  rewrite bool_decide_eq_false_2 by done. cbn [negb].
  rewrite bool_decide_eq_false_2 by (intros [= ->]; done).
  by rewrite lookup_empty.
Qed.

End Claims.

(** Mode ["test"], with loaders numbered 0 (train), 1 (val) and 2 (test). *)
Lemma main_test_mode_unbound_witness :
  main (mkDataset 0) (mkDataset 1) (mkDataset 2)
       (mkTrainingParams (Some "test") "32" 1 200)
    = Raise (UnboundLocalError "eval_loader").
Proof.
  apply (main_test_mode_unbound (mkDataset 0) (mkDataset 1) (mkDataset 2)
           (mkTrainingParams (Some "test") "32" 1 200) "test");
    [reflexivity|discriminate|discriminate].
Defined.

End TrainVincentClaims.

(* ===================================================================== *)
(** * The small instance meets the hypotheses                             *)
(* ===================================================================== *)

Module SmallFacts.
Import TorchFacts PyFacts FwdFacts HiFacts HiRun HiLAMRun.
Import Small.

Lemma id_net_spec name upd name' args Ns Nr Me d :
  net_spec (mkNet name upd (id_forward name' args)) Ns Nr Me d.
Proof. intros B s r e Hs Hr He. by exists r, e. Qed.

Lemma new_net_spec name args Ns Nr Me d :
  net_spec (InteractionNet_new id_forward name args) Ns Nr Me d.
Proof. apply id_net_spec. Qed.

Lemma zero_mlp_ok name n_in n_out : mlp_ok (zero_mlp name n_in n_out).
Proof. intros v _. simpl. by rewrite length_replicate. Qed.

Lemma ones_wf n : wf2 (ones n).
Proof.
  split; simpl; [by rewrite length_replicate|by apply Forall_replicate].
Qed.

Lemma rep_shape n x : has_shape 1 n 1 (rep n x).
Proof.
  split; [|done]. split; [done|]. constructor; [|constructor].
  split; simpl; [by rewrite length_replicate|by apply Forall_replicate].
Qed.

Lemma zero_embedder_ok name n :
  embedder_ok 1 (zero_mlp name 1 1) (ones n).
Proof. split; [apply ones_wf|]. split; [apply zero_mlp_ok|done]. Qed.

Lemma base_wf : BaseGraphModel.wf base dims.
Proof.
  unfold BaseGraphModel.wf.
  split; [split; [|done]; split; [done|by repeat constructor]|].
  split; [split; [apply zero_mlp_ok|done]|].
  split; [split; [apply zero_embedder_ok|done]|].
  split; [split; [apply zero_embedder_ok|done]|].
  split; [split; [done|apply id_net_spec]|].
  split; [split; [apply zero_mlp_ok|done]|].
  split; [split; [done|apply id_net_spec]|].
  split; [split; [apply zero_mlp_ok|done]|].
  done.
Qed.

Lemma hi_wf_graph : BaseHiGraphModel.wf_graph hi.
Proof. unfold BaseHiGraphModel.wf_graph. cbn. lia. Qed.

Lemma small_reps_ok : BaseHiGraphModel.reps_ok hi 1 1 (levels, same, up, down).
Proof. repeat split; repeat constructor; apply rep_shape. Qed.

(** Lists of GNNs built on [id_forward] fit any graph they are as long
    as. *)
Lemma id_level_gnns_ok upd src dst Ms
    (gnns : list (InteractionNet Z)) :
  length gnns = length Ms ->
  length Ms + src <= BaseHiGraphModel.N_levels hi ->
  length Ms + dst <= BaseHiGraphModel.N_levels hi ->
  Forall (fun g => net_update_edges g = upd
                   /\ forall s r e, net_fn g s r e = Ok (r, e)) gnns ->
  BaseHiGraphModel.level_gnns_ok hi 1 upd src dst Ms gnns.
Proof.
  intros Hlen Hsrc Hdst Hall. split; [done|]. intros l g Hg.
  pose proof (lookup_lt_Some _ _ _ Hg) as Hl.
  destruct (Forall_lookup_1 _ _ _ _ Hall Hg) as (Hupd & Hfn).
  split; [done|].
  destruct (lookup_lt_is_Some_2 (BaseHiGraphModel.N_mesh_levels hi) (l + src))
    as (ns & Hns); [unfold BaseHiGraphModel.N_mesh_levels;
                    rewrite length_fmap;
                    fold (BaseHiGraphModel.N_levels hi); lia|].
  destruct (lookup_lt_is_Some_2 (BaseHiGraphModel.N_mesh_levels hi) (l + dst))
    as (nr & Hnr); [unfold BaseHiGraphModel.N_mesh_levels;
                    rewrite length_fmap;
                    fold (BaseHiGraphModel.N_levels hi); lia|].
  destruct (lookup_lt_is_Some_2 Ms l) as (m & Hm); [lia|].
  exists ns, nr, m. repeat split; try done.
  intros B s r e Hs Hr He. exists r, e. by rewrite Hfn.
Qed.

Lemma hi_wf : BaseHiGraphModel.wf hi 1.
Proof.
  assert (Hemb : forall (names : list modid) (ns : list nat),
             length names = length ns ->
             Forall2 (embedder_ok 1) ((fun n => zero_mlp n 1 1) <$> names)
                     (ones <$> ns)).
  { intros names. induction names as [|n names IH]; intros [|k ns] Hl;
      simplify_eq/=; constructor; [apply zero_embedder_ok|by apply IH]. }
  split; [apply hi_wf_graph|].
  split; [exact (Hemb [nm_mesh_embedders 0; nm_mesh_embedders 1] [2; 1] eq_refl)|].
  split; [split;
          [exact (Hemb [nm_mesh_same_embedders 0; nm_mesh_same_embedders 1]
                       [2; 1] eq_refl)
          |constructor; [done|constructor; [done|constructor]]]|].
  split; [split;
          [exact (Hemb [nm_mesh_up_embedders 0] [2] eq_refl)
          |constructor; [done|constructor]]|].
  split; [split;
          [exact (Hemb [nm_mesh_down_embedders 0] [2] eq_refl)
          |constructor; [done|constructor]]|].
  split; (apply id_level_gnns_ok; [done|vm_compute; lia|vm_compute; lia|]);
    repeat (apply Forall_cons; split; [split; [done|done]|]);
    apply Forall_nil_2.
Qed.

Lemma hilam_wf : HiLAM.wf hilam 1.
Proof.
  split; [apply hi_wf_graph|].
  split; [|split; [|split]];
    (apply Forall_cons; split; [|apply Forall_nil_2]);
    (apply id_level_gnns_ok; [done|vm_compute; lia|vm_compute; lia|]);
    repeat (apply Forall_cons; split; [split; [done|done]|]);
    apply Forall_nil_2.
Qed.

(** The sequential processor of the small model keeps representations fit
    for the graph. *)
Lemma hilam_hi_spec :
  BaseHiGraphModel.hi_spec hi 1 (HiLAM.hi_processor_step hilam).
Proof.
  intros B lv sm u dn tr Hreps.
  destruct (hi_processor_step_ok hilam B 1 lv sm u dn tr hilam_wf Hreps)
    as (r & Hrun & Hr).
  by exists r, (tr ++ HiLAM.calls hilam).
Qed.

Lemma small_overrides_ok :
  BaseGraphModel.overrides_ok
    (BaseHiGraphModel.as_base hi (HiLAM.hi_processor_step hilam)) dims.
Proof. apply hi_overrides_ok; [apply hi_wf|apply hilam_hi_spec|done]. Qed.

Lemma small_batch_ok :
  BaseGraphModel.valid_batch dims 1 prev_state prev_prev_state
    batch_static_features forcing.
Proof. repeat split; apply rep_shape. Qed.

End SmallFacts.

(* ===================================================================== *)
(** * The claims on the small instance                                    *)
(* ===================================================================== *)

Module Witnesses.
Import Small SmallFacts.
Local Open Scope string_scope.

(** Concrete runs of the embedded code. *)
Example small_cat :
  cat_dim1 levels = Ok (mkT3 1 3 1 [[[5]; [5]; [6]]]%Z).
Proof. reflexivity. Qed.

Example small_split :
  split_dim1 (mkT3 1 3 1 [[[5]; [5]; [6]]]%Z) [2; 1] = Ok levels.
Proof. reflexivity. Qed.

Example small_hilam_calls :
  HiLAM.calls hilam
  = [nm_mesh_down_same_gnns 0 1; nm_mesh_down_gnns 0 0;
     nm_mesh_down_same_gnns 0 0;
     nm_mesh_up_same_gnns 0 0; nm_mesh_up_gnns 0 0;
     nm_mesh_up_same_gnns 0 1].
Proof. reflexivity. Qed.

Example small_predict_step :
  BaseGraphModel.predict_step base
    (BaseHiGraphModel.as_base hi (HiLAM.hi_processor_step hilam))
    prev_state prev_prev_state batch_static_features forcing []
  = Ok (prev_state,
        [nm_grid_embedder; nm_g2m_embedder; nm_m2g_embedder;
         nm_mesh_embedders 0; nm_g2m_gnn; nm_encoding_grid_mlp;
         nm_mesh_embedders 1;
         nm_mesh_same_embedders 0; nm_mesh_same_embedders 1;
         nm_mesh_up_embedders 0; nm_mesh_down_embedders 0;
         nm_mesh_init_gnns 0;
         nm_mesh_down_same_gnns 0 1; nm_mesh_down_gnns 0 0;
         nm_mesh_down_same_gnns 0 0;
         nm_mesh_up_same_gnns 0 0; nm_mesh_up_gnns 0 0;
         nm_mesh_up_same_gnns 0 1;
         nm_mesh_read_gnns 0; nm_m2g_gnn; nm_output_map]).
Proof. vm_compute. reflexivity. Qed.

Lemma cat_split_roundtrip_witness :
  exists c, cat_dim1 levels = Ok c /\ has_shape 1 (sum_list [2; 1]) 1 c
            /\ split_dim1 c [2; 1] = Ok levels.
Proof.
  apply (RoundTrip.cat_split_roundtrip 1 1 [2; 1] levels);
    [discriminate|repeat constructor; apply rep_shape].
Defined.

Lemma parallel_zero_layers_identity_witness :
  HiLAMParallel.hi_processor_step (parallel 0) levels same up down []
    = Ok ((levels, same, up, down), []).
Proof.
  apply (ParallelClaims.parallel_zero_layers_identity id_forward hi (hp 0)
           (parallel 0) 1 1 levels same up down []);
    [reflexivity|reflexivity|apply hi_wf_graph|apply small_reps_ok].
Defined.



Lemma process_step_returns_bottom_level_witness :
  exists out tr',
    BaseHiGraphModel.process_step hi (HiLAM.hi_processor_step hilam)
      (rep 2 5%Z) [] = Ok (out, tr')
    /\ dimN out = 2.
Proof.
  destruct (HiClaims.process_step_returns_bottom_level hi 1
              (HiLAM.hi_processor_step hilam) 1 2 (rep 2 5%Z) []
              hi_wf (le_n 2) hilam_hi_spec eq_refl (rep_shape 2 5%Z))
    as (upper & tr1 & sm & tr2 & up' & tr3 & dn & tr4 & lv1 & up1 & tr5
        & lv2 & dn2 & tr6 & lv3 & tr7 & out
        & _ & _ & _ & _ & _ & _ & _ & _ & _ & _ & _ & Hrun & _ & Hn).
  by exists out, tr7.
Defined.

Lemma predict_step_residual_shape_witness :
  exists out tr',
    BaseGraphModel.predict_step base
      (BaseHiGraphModel.as_base hi (HiLAM.hi_processor_step hilam))
      prev_state prev_prev_state batch_static_features forcing []
    = Ok (out, tr')
    /\ shape3 out = shape3 prev_state.
Proof.
  destruct (BaseClaims.predict_step_residual_shape base
              (BaseHiGraphModel.as_base hi (HiLAM.hi_processor_step hilam))
              dims 1 prev_state prev_prev_state batch_static_features
              forcing [] base_wf small_overrides_ok small_batch_ok)
    as (gf & ge & g2m & m2g & me & tre & mr0 & enc & gr0 & mr & trp & gr
        & no & out
        & _ & _ & _ & _ & _ & _ & _ & _ & _ & _ & _ & _ & _ & _ & Hrun & _
        & _ & Hshape).
  eexists out, _. by split.
Defined.

Lemma predict_step_zero_output_witness :
  exists tr',
    BaseGraphModel.predict_step base
      (BaseHiGraphModel.as_base hi (HiLAM.hi_processor_step hilam))
      prev_state prev_prev_state batch_static_features forcing []
    = Ok (prev_state, tr').
Proof.
  apply (BaseClaims.predict_step_zero_output base
           (BaseHiGraphModel.as_base hi (HiLAM.hi_processor_step hilam))
           dims 1 prev_state prev_prev_state batch_static_features forcing []
           base_wf small_overrides_ok small_batch_ok);
    [reflexivity|reflexivity|by repeat constructor|reflexivity
    |by repeat constructor].
Defined.

Lemma missing_dependency_is_a_warning_witness :
  exists st,
    Datasets.module_body Datasets.site_packages Datasets.smeagol_missing
      = Ok st
    /\ Datasets.registry st !! "smeagol" = None
    /\ Datasets.get_datasets st "smeagol" None = Raise ValueError.
Proof.
  destruct (DatasetsClaims.missing_dependency_is_a_warning
              Datasets.site_packages Datasets.smeagol_missing
              "smeagol" "SmeagolDataset")
    as (st & Hrun & Hreg & _ & Hget & _).
  - reflexivity.
  - unfold Datasets.dataset_modules. apply elem_of_cons. by left.
  - by left.
  - intros d' kls' Hd' Hne. left. unfold Datasets.smeagol_missing.
    by rewrite bool_decide_eq_false_2.
  - by exists st.
Defined.

End Witnesses.

(* ===================================================================== *)
(** * More on the forward pass: lists                                  *)
(* ===================================================================== *)

Module ListFacts.

Lemma elem_of_concat_fmap {A B} (f : A -> list B) (l : list A) (x : B) :
  x ∈ concat (f <$> l) <-> exists a, a ∈ l /\ x ∈ f a.
Proof.
  induction l as [|a l IH]; simpl.
  - split; [by intros ?%elem_of_nil|]. by intros (a & ?%elem_of_nil & _).
  - rewrite elem_of_app, IH. split.
    + intros [Hx|(b & Hb & Hx)].
      * exists a. split; [by left|done].
      * exists b. split; [by right|done].
    + intros (b & Hb & Hx). apply elem_of_cons in Hb as [->|Hb]; [by left|].
      right. by exists b.
Qed.

Lemma NoDup_concat_fmap {A B} (f : A -> list B) (l : list A) :
  NoDup l -> (forall a, a ∈ l -> NoDup (f a)) ->
  (forall a b x, a ∈ l -> b ∈ l -> x ∈ f a -> x ∈ f b -> a = b) ->
  NoDup (concat (f <$> l)).
Proof.
  intros Hl. induction Hl as [|a l Ha Hl IH]; intros Hf Hdis; simpl.
  - constructor.
  - apply NoDup_app. split; [apply Hf; by left|]. split.
    + intros x Hx Hin. apply elem_of_concat_fmap in Hin as (b & Hb & Hxb).
      assert (a = b) as -> by (apply (Hdis a b x); [by left|by right|done|done]).
      done.
    + apply IH.
      * intros b Hb. apply Hf. by right.
      * intros b c x Hb Hc. apply Hdis; by right.
Qed.

Lemma length_concat_fmap {A B} (f : A -> list B) (l : list A) (c : nat) :
  (forall a, length (f a) = c) -> length (concat (f <$> l)) = length l * c.
Proof.
  intros Hf. induction l as [|a l IH]; [done|].
  rewrite fmap_cons. cbn [concat length]. rewrite length_app, Hf, IH. lia.
Qed.

Lemma concat_pairs_perm {A B} (a b : A -> B) (l : list A) :
  concat ((fun x => [a x; b x]) <$> l) ≡ₚ (a <$> l) ++ (b <$> l).
Proof.
  induction l as [|x l IH]; [done|]. simpl. rewrite IH.
  constructor. by rewrite Permutation_middle.
Qed.

Lemma concat_app_perm {A B} (f g : A -> list B) (l : list A) :
  concat ((fun x => f x ++ g x) <$> l) ≡ₚ concat (f <$> l) ++ concat (g <$> l).
Proof.
  induction l as [|x l IH]; [done|]. simpl. rewrite IH.
  rewrite <- !app_assoc. apply Permutation_app_head.
  rewrite !app_assoc. apply Permutation_app_tail. apply Permutation_app_comm.
Qed.

Lemma concat_fmap_perm {A B} (f g : A -> list B) (l : list A) :
  (forall x, f x ≡ₚ g x) -> concat (f <$> l) ≡ₚ concat (g <$> l).
Proof.
  intros Hfg. induction l as [|x l IH]; [done|].
  rewrite !fmap_cons. cbn [concat]. by rewrite IH, (Hfg x).
Qed.

Lemma fmap_concat {A B} (f : A -> B) (ls : list (list A)) :
  f <$> concat ls = concat ((fun l : list A => f <$> l) <$> ls).
Proof.
  induction ls as [|l ls IH]; [done|].
  rewrite fmap_cons. cbn [concat]. by rewrite fmap_app, IH.
Qed.

End ListFacts.

(* ===================================================================== *)
(** * HiLAM: the order of the calls, for any number of levels and layers *)
(* ===================================================================== *)

Module HiLAMMore.
Import TorchFacts PyFacts FwdFacts HiFacts HiLAMFacts HiLAMRun.
Import BaseHiGraphModel Schedule.

Lemma zip_ignore_fst {A B C D} (h : B -> C -> D) (zs : list A)
    (bs : list B) (cs : list C) :
  length bs <= length zs ->
  (fun it : A * B * C => h it.1.2 it.2) <$> zip (zip zs bs) cs
  = zip_with h bs cs.
Proof.
  revert bs cs. induction zs as [|z zs IH]; intros [|b bs] [|c cs] Hl;
    simpl in *; try done; try lia.
  f_equal. apply IH. lia.
Qed.

Lemma enumerate_ignore_fst {A D} (h : A -> D) (s : Z) (l : list A) :
  (fun it : Z * A => h it.2) <$> enumerate s l = h <$> l.
Proof.
  revert s. induction l as [|x l IH]; intros s; [done|].
  simpl. f_equal. apply IH.
Qed.

Section Facts.
Context {F : Type}.
Variable forward :
  modid -> net_args -> T3 F -> T3 F -> T3 F -> res (T3 F * T3 F).
Implicit Types (sup : BaseHiGraphModel.t F).

Lemma make_gnns_names (name : nat -> modid) (eis : list EdgeIndex) hp :
  net_name <$> HiLAM.make_gnns forward name eis hp = name <$> seq 0 (length eis).
Proof.
  unfold HiLAM.make_gnns. apply list_eq. intros i.
  rewrite !list_lookup_fmap, list_lookup_imap.
  destruct (eis !! i) as [ei|] eqn:Hi.
  - rewrite (lookup_seq_lt _ _ _ (lookup_lt_Some _ _ _ Hi)). done.
  - rewrite lookup_seq_ge; [done|]. by apply lookup_ge_None.
Qed.

Lemma zip_names (gs hs : list (InteractionNet F)) :
  zip_with (fun a b : InteractionNet F => [net_name a; net_name b]) gs hs
  = zip_with (fun a b => [a; b]) (net_name <$> gs) (net_name <$> hs).
Proof. by rewrite zip_with_fmap_l, zip_with_fmap_r. Qed.

Lemma fmap_zip_names (gs hs : list (InteractionNet F)) :
  (fun p : InteractionNet F * InteractionNet F => [net_name p.1; net_name p.2])
    <$> zip gs hs
  = zip_with (fun a b : InteractionNet F => [net_name a; net_name b]) gs hs.
Proof.
  revert hs. induction gs as [|g gs IH]; intros [|h hs]; try done.
  simpl. by rewrite IH.
Qed.

Lemma zip_same_seq (f g : nat -> modid) (l : list nat) :
  zip_with (fun a b => [a; b]) (f <$> l) (g <$> l) = (fun x => [f x; g x]) <$> l.
Proof. by rewrite zip_with_fmap_l, zip_with_fmap_r, zip_with_diag. Qed.

Lemma make_gnns_length (name : nat -> modid) (eis : list EdgeIndex) hp :
  length (HiLAM.make_gnns forward name eis hp) = length eis.
Proof. unfold HiLAM.make_gnns. by rewrite length_imap. Qed.

Lemma down_calls_init sup hp (self : HiLAM.t F) i :
  wf_graph sup -> HiLAM.super self = sup ->
  HiLAM.down_calls self
    (HiLAM.make_down_gnns forward (nm_mesh_down_gnns i) sup hp)
    (HiLAM.make_same_gnns forward (nm_mesh_down_same_gnns i) sup hp)
  = down_schedule (N_levels sup) i.
Proof.
  intros (HL & Hsl & Hul & Hdl) Hsup.
  unfold HiLAM.down_calls, down_schedule,
    HiLAM.make_down_gnns, HiLAM.make_same_gnns. rewrite Hsup.
  set (dg := HiLAM.make_gnns forward (nm_mesh_down_gnns i)
               (mesh_down_edge_index sup) hp).
  set (sg := HiLAM.make_gnns forward (nm_mesh_down_same_gnns i)
               (m2m_edge_index sup) hp).
  assert (Hdn : net_name <$> dg = nm_mesh_down_gnns i <$> seq 0 (N_levels sup - 1))
    by (unfold dg; by rewrite make_gnns_names, Hdl).
  assert (Hsn : net_name <$> sg = nm_mesh_down_same_gnns i <$> seq 0 (N_levels sup))
    by (unfold sg; by rewrite make_gnns_names, Hsl).
  assert (Hdlen : length dg = N_levels sup - 1)
    by (unfold dg; by rewrite make_gnns_length).
  assert (Hslen : length sg = N_levels sup)
    by (unfold sg; by rewrite make_gnns_length).
  (* the top level *)
  assert (Hlast : net_name <$> option_list (last sg)
                  = [nm_mesh_down_same_gnns i (N_levels sup - 1)]).
  { rewrite last_lookup.
    replace (pred (length sg)) with (N_levels sup - 1) by lia.
    pose proof (f_equal (fun l => l !! (N_levels sup - 1)) Hsn) as Hl.
    simpl in Hl. rewrite !list_lookup_fmap in Hl.
    assert (Hlt : N_levels sup - 1 < N_levels sup) by lia.
    rewrite (lookup_seq_lt _ _ _ Hlt) in Hl.
    destruct (sg !! (N_levels sup - 1)) as [g|]; [|done].
    simpl in Hl. injection Hl as Hl. simpl. by rewrite Hl. }
  rewrite Hlast. cbn [app]. f_equal. f_equal.
  rewrite (zip_ignore_fst (fun a b => [net_name a; net_name b])).
  2:{ unfold range_down. rewrite length_reverse, length_fmap, length_seq. lia. }
  rewrite slice_to_neg1, Hslen, zip_names.
  rewrite !fmap_reverse, fmap_take, Hdn, Hsn.
  rewrite <- fmap_take, take_seq, Nat.min_l by lia.
  rewrite <- !fmap_reverse. apply zip_same_seq.
Qed.

Lemma up_calls_init sup hp i :
  wf_graph sup ->
  HiLAM.up_calls
    (HiLAM.make_up_gnns forward (nm_mesh_up_gnns i) sup hp)
    (HiLAM.make_same_gnns forward (nm_mesh_up_same_gnns i) sup hp)
  = up_schedule (N_levels sup) i.
Proof.
  intros (HL & Hsl & Hul & Hdl).
  unfold HiLAM.up_calls, up_schedule, HiLAM.make_up_gnns, HiLAM.make_same_gnns.
  set (ug := HiLAM.make_gnns forward (nm_mesh_up_gnns i)
               (mesh_up_edge_index sup) hp).
  set (sg := HiLAM.make_gnns forward (nm_mesh_up_same_gnns i)
               (m2m_edge_index sup) hp).
  assert (Hun : net_name <$> ug = nm_mesh_up_gnns i <$> seq 0 (N_levels sup - 1))
    by (unfold ug; by rewrite make_gnns_names, Hul).
  assert (Hsn : net_name <$> sg = nm_mesh_up_same_gnns i <$> seq 0 (N_levels sup))
    by (unfold sg; by rewrite make_gnns_names, Hsl).
  assert (Hhead : net_name <$> option_list (head sg)
                  = [nm_mesh_up_same_gnns i 0]).
  { destruct sg as [|g0 rest]; simpl in *.
    - destruct (N_levels sup); [lia|done].
    - destruct (N_levels sup); [lia|]. simpl in Hsn. by injection Hsn as -> _. }
  rewrite Hhead. cbn [app]. f_equal. f_equal.
  rewrite (enumerate_ignore_fst
             (fun p : InteractionNet F * InteractionNet F =>
                [net_name p.1; net_name p.2])).
  change 1%Z with (Z.of_nat 1). rewrite slice_from_nat.
  rewrite fmap_zip_names, zip_names.
  rewrite fmap_drop, Hun, Hsn.
  rewrite <- fmap_drop, drop_seq. simpl.
  rewrite <- fmap_S_seq, <- list_fmap_compose.
  apply (zip_same_seq (nm_mesh_up_gnns i) (nm_mesh_up_same_gnns i ∘ S)).
Qed.

Lemma zip4_fmap {A B C D E} (f1 : A -> B) (f2 : A -> C) (f3 : A -> D)
    (f4 : A -> E) (l : list A) :
  zip (zip (zip (f1 <$> l) (f2 <$> l)) (f3 <$> l)) (f4 <$> l)
  = (fun x => (f1 x, f2 x, f3 x, f4 x)) <$> l.
Proof. induction l as [|x l IH]; [done|]. simpl. f_equal. exact IH. Qed.

(** The calls of a model that [__init__] built, in closed form. *)
Lemma calls_init sup hp :
  wf_graph sup ->
  HiLAM.calls (HiLAM.init forward sup hp)
  = schedule (N_levels sup) (processor_layers (graph hp)).
Proof.
  intros Hg. unfold HiLAM.calls, schedule.
  set (self := HiLAM.init forward sup hp).
  change (HiLAM.mesh_down_gnns self)
    with ((fun i => HiLAM.make_down_gnns forward (nm_mesh_down_gnns i) sup hp)
            <$> seq 0 (processor_layers (graph hp))).
  change (HiLAM.mesh_down_same_gnns self)
    with ((fun i => HiLAM.make_same_gnns forward (nm_mesh_down_same_gnns i)
                      sup hp) <$> seq 0 (processor_layers (graph hp))).
  change (HiLAM.mesh_up_gnns self)
    with ((fun i => HiLAM.make_up_gnns forward (nm_mesh_up_gnns i) sup hp)
            <$> seq 0 (processor_layers (graph hp))).
  change (HiLAM.mesh_up_same_gnns self)
    with ((fun i => HiLAM.make_same_gnns forward (nm_mesh_up_same_gnns i)
                      sup hp) <$> seq 0 (processor_layers (graph hp))).
  rewrite zip4_fmap, <- list_fmap_compose. f_equal.
  apply list_fmap_ext. intros k i _. simpl.
  rewrite (down_calls_init sup hp self i Hg eq_refl).
  by rewrite (up_calls_init sup hp i Hg).
Qed.

End Facts.
End HiLAMMore.

Module HiLAMExtras.
Import TorchFacts PyFacts FwdFacts HiFacts HiLAMFacts HiLAMRun.
Import BaseHiGraphModel Schedule HiLAMMore HiLAMAll ListFacts.

Lemma elem_of_grid c n k x :
  x ∈ grid c n k <-> exists i l, i < n /\ l < k /\ x = c i l.
Proof.
  unfold grid. rewrite elem_of_concat_fmap. split.
  - intros (i & Hi & Hx). apply elem_of_seq in Hi.
    apply list_elem_of_fmap in Hx as (l & -> & Hl). apply elem_of_seq in Hl.
    exists i, l. repeat split; lia.
  - intros (i & l & Hi & Hl & ->). exists i. split; [apply elem_of_seq; lia|].
    apply list_elem_of_fmap. exists l. split; [done|]. apply elem_of_seq. lia.
Qed.

Lemma NoDup_grid c n k :
  (forall i l j m, c i l = c j m -> i = j /\ l = m) -> NoDup (grid c n k).
Proof.
  intros Hc. apply NoDup_concat_fmap.
  - apply NoDup_seq.
  - intros i _. apply NoDup_fmap_2; [|apply NoDup_seq].
    intros l m Heq. by apply Hc in Heq as [_ ?].
  - intros i j x _ _ Hi Hj.
    apply list_elem_of_fmap in Hi as (l & -> & _).
    apply list_elem_of_fmap in Hj as (m & Heq & _).
    by apply Hc in Heq as [? _].
Qed.

Lemma length_grid c n k : length (grid c n k) = n * k.
Proof.
  unfold grid. rewrite (length_concat_fmap _ _ k), length_seq; [done|].
  intros i. by rewrite length_fmap, length_seq.
Qed.

Lemma down_schedule_perm L i :
  1 <= L ->
  down_schedule L i
  ≡ₚ (nm_mesh_down_gnns i <$> seq 0 (L - 1))
     ++ (nm_mesh_down_same_gnns i <$> seq 0 L).
Proof.
  intros HL. unfold down_schedule.
  rewrite concat_pairs_perm, !fmap_reverse, !reverse_Permutation.
  replace (seq 0 L) with (seq 0 (L - 1) ++ [L - 1]).
  2:{ replace L with (S (L - 1)) at 3 by lia. by rewrite seq_S. }
  rewrite fmap_app. simpl.
  rewrite (Permutation_app_comm _ [_]). simpl.
  by rewrite <- Permutation_middle.
Qed.

Lemma up_schedule_perm L i :
  1 <= L ->
  up_schedule L i
  ≡ₚ (nm_mesh_up_gnns i <$> seq 0 (L - 1))
     ++ (nm_mesh_up_same_gnns i <$> seq 0 L).
Proof.
  intros HL. unfold up_schedule.
  rewrite concat_pairs_perm.
  replace (seq 0 L) with (0 :: seq 1 (L - 1)).
  2:{ replace L with (S (L - 1)) at 2 by lia. done. }
  rewrite fmap_cons, <- fmap_S_seq, <- list_fmap_compose.
  by rewrite <- Permutation_middle.
Qed.

Lemma schedule_perm L n :
  1 <= L ->
  schedule L n
  ≡ₚ grid nm_mesh_down_gnns n (L - 1) ++ grid nm_mesh_down_same_gnns n L
     ++ grid nm_mesh_up_gnns n (L - 1) ++ grid nm_mesh_up_same_gnns n L.
Proof.
  intros HL. unfold schedule, grid.
  rewrite (concat_fmap_perm _
             (fun i => ((nm_mesh_down_gnns i <$> seq 0 (L - 1))
                        ++ (nm_mesh_down_same_gnns i <$> seq 0 L))
                       ++ ((nm_mesh_up_gnns i <$> seq 0 (L - 1))
                           ++ (nm_mesh_up_same_gnns i <$> seq 0 L)))).
  2:{ intros i.
      by rewrite (down_schedule_perm L i HL), (up_schedule_perm L i HL). }
  rewrite (concat_app_perm
             (fun i => (nm_mesh_down_gnns i <$> seq 0 (L - 1))
                       ++ (nm_mesh_down_same_gnns i <$> seq 0 L))
             (fun i => (nm_mesh_up_gnns i <$> seq 0 (L - 1))
                       ++ (nm_mesh_up_same_gnns i <$> seq 0 L))).
  rewrite (concat_app_perm (fun i => nm_mesh_down_gnns i <$> seq 0 (L - 1))
                           (fun i => nm_mesh_down_same_gnns i <$> seq 0 L)).
  rewrite (concat_app_perm (fun i => nm_mesh_up_gnns i <$> seq 0 (L - 1))
                           (fun i => nm_mesh_up_same_gnns i <$> seq 0 L)).
  by rewrite <- !app_assoc.
Qed.

Lemma NoDup_families n L :
  NoDup (grid nm_mesh_down_gnns n (L - 1) ++ grid nm_mesh_down_same_gnns n L
         ++ grid nm_mesh_up_gnns n (L - 1) ++ grid nm_mesh_up_same_gnns n L).
Proof.
  repeat (apply NoDup_app; split;
          [apply NoDup_grid; by intros ???? [= -> ->]|split]).
  4: apply NoDup_grid; by intros ???? [= -> ->].
  all: intros x (i & l & _ & _ & ->)%elem_of_grid;
       rewrite ?elem_of_app, !elem_of_grid;
       intros Hin; repeat destruct Hin as [Hin|Hin];
       by destruct Hin as (? & ? & _ & _ & ?).
Qed.

Lemma length_schedule L n : 1 <= L -> length (schedule L n) = n * (4 * L - 2).
Proof.
  intros HL. rewrite (schedule_perm L n HL).
  rewrite !length_app, !length_grid. nia.
Qed.

Section Extras.
Context {F : Type}.
Variable forward :
  modid -> net_args -> T3 F -> T3 F -> T3 F -> res (T3 F * T3 F).

Lemma all_gnns_names (sup : BaseHiGraphModel.t F) hp :
  wf_graph sup ->
  net_name <$> all_gnns (HiLAM.init forward sup hp)
  = grid nm_mesh_down_gnns (processor_layers (graph hp)) (N_levels sup - 1)
    ++ grid nm_mesh_down_same_gnns (processor_layers (graph hp)) (N_levels sup)
    ++ grid nm_mesh_up_gnns (processor_layers (graph hp)) (N_levels sup - 1)
    ++ grid nm_mesh_up_same_gnns (processor_layers (graph hp)) (N_levels sup).
Proof.
  intros (HL & Hsl & Hul & Hdl). unfold all_gnns, grid.
  cbn [HiLAM.init HiLAM.mesh_down_gnns HiLAM.mesh_down_same_gnns
       HiLAM.mesh_up_gnns HiLAM.mesh_up_same_gnns].
  rewrite !fmap_app, !fmap_concat, <- !list_fmap_compose.
  unfold HiLAM.make_down_gnns, HiLAM.make_up_gnns, HiLAM.make_same_gnns.
  apply (f_equal2 app);
    [|apply (f_equal2 app); [|apply (f_equal2 app)]];
    apply (f_equal (@concat modid)), list_fmap_ext; intros k i _; simpl;
    by rewrite make_gnns_names, ?Hsl, ?Hul, ?Hdl.
Qed.

(** X17.  The order of the GNN calls of the sequential processor, for any
    number of levels and of layers.  On representations that fit a
    well-formed graph of [L] levels, [hi_processor_step] of the model that
    [__init__] builds runs to its end, returns representations that fit
    the graph, and calls, for each layer [i] in turn: the same-level GNN of
    level [L-1], then for [l = L-2, ..., 0] the down GNN into level [l] and
    the same-level GNN of level [l] (the down-sweep); then the same-level
    GNN of level 0, then for [l = 0, ..., L-2] the up GNN out of level [l]
    and the same-level GNN of level [l+1] (the up-sweep). *)
Theorem hilam_call_order (sup : BaseHiGraphModel.t F) (hp : HyperParam)
    (B d : nat) (levels same up down : list (T3 F)) (tr : list modid) :
  HiLAM.wf (HiLAM.init forward sup hp) d ->
  reps_ok sup B d (levels, same, up, down) ->
  exists r,
    HiLAM.hi_processor_step (HiLAM.init forward sup hp) levels same up down tr
    = Ok (r, tr ++ schedule (N_levels sup) (processor_layers (graph hp)))
    /\ reps_ok sup B d r.
Proof.
  intros Hwf Hreps. pose proof Hwf as (Hg & _).
  destruct (hi_processor_step_ok (HiLAM.init forward sup hp) B d
              levels same up down tr Hwf Hreps) as (r & Hrun & Hr).
  exists r. split; [|done]. by rewrite <- (calls_init forward sup hp Hg).
Qed.

(** X18.  One [hi_processor_step] of a [HiLAM] model calls every GNN of its
    processor exactly once: the list of calls is a rearrangement of the
    GNNs that [__init__] created, no GNN occurs twice in it, and so it has
    [processor_layers * (4 * N_levels - 2)] entries. *)
Theorem hilam_each_gnn_once (sup : BaseHiGraphModel.t F) (hp : HyperParam)
    (B d : nat) (levels same up down : list (T3 F)) (tr : list modid) :
  HiLAM.wf (HiLAM.init forward sup hp) d ->
  reps_ok sup B d (levels, same, up, down) ->
  exists r calls,
    HiLAM.hi_processor_step (HiLAM.init forward sup hp) levels same up down tr
    = Ok (r, tr ++ calls)
    /\ calls ≡ₚ net_name <$> all_gnns (HiLAM.init forward sup hp)
    /\ NoDup calls
    /\ length calls = processor_layers (graph hp) * (4 * N_levels sup - 2).
Proof.
  intros Hwf Hreps. pose proof Hwf as (Hg & _).
  destruct (hi_processor_step_ok (HiLAM.init forward sup hp) B d
              levels same up down tr Hwf Hreps) as (r & Hrun & Hr).
  rewrite (calls_init forward sup hp Hg) in Hrun.
  pose proof Hg as (HL & _).
  exists r, (schedule (N_levels sup) (processor_layers (graph hp))).
  split; [done|].
  rewrite (all_gnns_names sup hp Hg).
  split; [by apply schedule_perm|].
  split; [|by apply length_schedule].
  rewrite (schedule_perm _ _ HL). apply NoDup_families.
Qed.

(** X19.  With [processor_layers = 0] a [HiLAM] model has no GNN lists, and
    [hi_processor_step] hands back the four lists it was given, whatever
    they are, without calling anything. *)
Theorem hilam_zero_layers_identity (sup : BaseHiGraphModel.t F)
    (hp : HyperParam) (levels same up down : list (T3 F)) (tr : list modid) :
  processor_layers (graph hp) = 0 ->
  HiLAM.hi_processor_step (HiLAM.init forward sup hp) levels same up down tr
  = Ok ((levels, same, up, down), tr).
Proof.
  intros Hz. unfold HiLAM.hi_processor_step, HiLAM.init.
  cbn [HiLAM.mesh_down_gnns HiLAM.mesh_down_same_gnns HiLAM.mesh_up_gnns
       HiLAM.mesh_up_same_gnns]. by rewrite Hz.
Qed.

End Extras.
End HiLAMExtras.

(* ===================================================================== *)
(** * BaseHiGraphModel: the phases of a processing step                *)
(* ===================================================================== *)

Module HiMore.
Import TorchFacts PyFacts FwdFacts HiFacts HiLAMFacts HiRun.
Import BaseHiGraphModel HiCalls HiLAMMore.
Section More.
Context {F : Type}.
Implicit Types (self : BaseHiGraphModel.t F).

Lemma concat_singletons {A B} (f : A -> B) (l : list A) :
  concat ((fun x => [f x]) <$> l) = f <$> l.
Proof. induction l as [|x l IH]; [done|]. simpl. f_equal. exact IH. Qed.

Lemma zip_ignore_index {A B C} (h : B -> C) (zs : list A) (bs : list B) :
  length bs <= length zs ->
  (fun it : A * B => h it.2) <$> zip zs bs = h <$> bs.
Proof.
  revert bs. induction zs as [|z zs IH]; intros [|b bs] Hl;
    simpl in *; try done; try lia.
  f_equal. apply IH. lia.
Qed.

Lemma embed_all_calls B d (embs : list (MLP F)) (feats : list (T2 F)) tr :
  Forall2 (embedder_ok d) embs feats ->
  exists rs, mapM (embed_expand B) (zip embs feats) tr
             = Ok (rs, tr ++ (mlp_name <$> embs))
             /\ shapes B d (rows2 <$> feats) rs.
Proof.
  intros Hall. revert tr.
  induction Hall as [|emb feat embs feats Hef _ IH]; intros tr.
  - exists []. split; [|constructor]. simpl. unfold ret. by rewrite app_nil_r.
  - destruct (embed_expand_ok B d emb feat tr Hef) as (r & Hr & Hrs).
    destruct (IH (tr ++ [mlp_name emb])) as (rs & Hrest & Hshapes).
    exists (r :: rs). split; [|by constructor].
    cbn [zip zip_with mapM]. rewrite (bind_eq _ _ _ _ _ Hr).
    rewrite (bind_eq _ _ _ _ _ Hrest). unfold ret.
    by rewrite fmap_cons, <- app_assoc.
Qed.

Lemma edge_embed_calls B d embs (feats : list (T2 F)) (eis : list EdgeIndex) tr :
  edge_features_ok d embs feats eis ->
  exists rs, mapM (embed_expand B) (zip embs feats) tr
             = Ok (rs, tr ++ (mlp_name <$> embs))
             /\ shapes B d (length <$> eis) rs.
Proof.
  intros [Hemb Hrows].
  destruct (embed_all_calls B d embs feats tr Hemb) as (rs & Hrun & Hs).
  exists rs. split; [done|].
  replace (length <$> eis) with (rows2 <$> feats); [done|].
  clear -Hrows. induction Hrows as [|f e fs es Hfe _ IH]; [done|].
  by rewrite !fmap_cons, Hfe, IH.
Qed.

Lemma init_body_calls self B d st it tr :
  shapes B d (N_mesh_levels self) st.1 /\ shapes B d (M_up self) st.2 ->
  init_item self d it ->
  exists st', init_body st it tr = Ok (st', tr ++ [net_name it.2])
    /\ shapes B d (N_mesh_levels self) st'.1 /\ shapes B d (M_up self) st'.2.
Proof.
  destruct st as [lv up], it as [z g]. simpl.
  intros [Hlv Hupr] (l & ns & nr & m & Hz & Hup & Hns & Hnr & Hm & Hspec).
  simpl in *. subst z.
  destruct (shapes_lookup _ _ _ _ _ _ Hlv Hns) as (s & Hs & Hss).
  destruct (shapes_lookup _ _ _ _ _ _ Hlv Hnr) as (r & Hr & Hrs).
  destruct (shapes_lookup _ _ _ _ _ _ Hupr Hm) as (e & He & Hes).
  destruct (call_gnn2_ok g ns nr m d B s r e tr Hup Hspec Hss Hrs Hes)
    as (r' & e' & Hrun & Hr' & He').
  exists (<[S l := r']> lv, <[l := e']> up).
  split; [|split; eapply shapes_insert; eauto].
  unfold init_body.
  replace (Z.of_nat (S l) - 1)%Z with (Z.of_nat l) by lia.
  rewrite (bind_lift _ _ _ _ (getitem_nat _ _ _ Hs)).
  rewrite (bind_lift _ _ _ _ (getitem_nat _ _ _ Hr)).
  rewrite (bind_lift _ _ _ _ (getitem_nat _ _ _ He)).
  rewrite (bind_eq _ _ _ _ _ Hrun).
  rewrite (bind_lift _ _ _ _ (setitem_nat lv (S l) r'
             (shapes_lookup_lt _ _ _ _ _ _ Hlv Hnr))).
  rewrite (bind_lift _ _ _ _ (setitem_nat up l e'
             (shapes_lookup_lt _ _ _ _ _ _ Hupr Hm))).
  done.
Qed.

Lemma read_body_calls self B d down lv it tr :
  shapes B d (M_down self) down ->
  shapes B d (N_mesh_levels self) lv ->
  read_item self d it ->
  exists lv', read_body down lv it tr = Ok (lv', tr ++ [net_name it.2])
    /\ shapes B d (N_mesh_levels self) lv'.
Proof.
  destruct it as [z g].
  intros Hd Hlv (l & ns & nr & m & Hz & Hup & Hns & Hnr & Hm & Hspec).
  simpl in *. subst z.
  destruct (shapes_lookup _ _ _ _ _ _ Hlv Hns) as (s & Hs & Hss).
  destruct (shapes_lookup _ _ _ _ _ _ Hlv Hnr) as (r & Hr & Hrs).
  destruct (shapes_lookup _ _ _ _ _ _ Hd Hm) as (e & He & Hes).
  destruct (call_gnn1_ok g ns nr m d B s r e tr Hup Hspec Hss Hrs Hes)
    as (r' & Hrun & Hr').
  exists (<[l := r']> lv).
  split; [|eapply shapes_insert; eauto].
  unfold read_body.
  replace (Z.of_nat l + 1)%Z with (Z.of_nat (S l)) by lia.
  rewrite (bind_lift _ _ _ _ (getitem_nat _ _ _ Hs)).
  rewrite (bind_lift _ _ _ _ (getitem_nat _ _ _ Hr)).
  rewrite (bind_lift _ _ _ _ (getitem_nat _ _ _ He)).
  rewrite (bind_eq _ _ _ _ _ Hrun).
  by rewrite (setitem_nat lv l r' (shapes_lookup_lt _ _ _ _ _ _ Hlv Hnr)).
Qed.

(** [process_step] up to the processor: the embeddings and the mesh-init
    loop give representations that fit the graph, and what is left to run
    is the processor and the read-out. *)
Lemma process_step_init
    self (d : nat)
    (hi_processor_step :
       list (T3 F) -> list (T3 F) -> list (T3 F) -> list (T3 F)
       -> M (BaseHiGraphModel.reps F))
    (B N0 : nat) (mesh_rep : T3 F) (tr : list modid) :
  wf self d ->
  N_mesh_levels self !! 0 = Some N0 ->
  has_shape B N0 d mesh_rep ->
  exists levels same up down,
    reps_ok self B d (levels, same, up, down)
    /\ process_step self hi_processor_step mesh_rep tr
       = ('(mesh_rep_levels, _, _, mesh_down_rep) <-
            hi_processor_step levels same up down;
          mesh_rep_levels <-
            foldM (read_body mesh_down_rep)
                  (zip (range_down (Z.of_nat (N_levels self) - 2) (-1))
                       (reverse (mesh_read_gnns self)))
                  mesh_rep_levels;
          lift (getitem mesh_rep_levels 0)) (tr ++ init_calls self).
Proof.
  intros (Hg & Hemb & Hsame & Hup & Hdown & Hinit & Hread) HN0 Hrep.
  pose proof (has_shape_dims _ _ _ _ Hrep) as (HB & _ & _).
  unfold process_step, init_calls. rewrite HB.
  destruct (embed_all_calls B d _ _ tr (Forall2_drop _ _ _ 1 Hemb))
    as (upper & Hrun1 & Hupper).
  rewrite (bind_eq _ _ _ _ _ Hrun1).
  assert (Hlv : shapes B d (N_mesh_levels self) (mesh_rep :: upper)).
  { unfold N_mesh_levels in *.
    destruct (mesh_static_features self) as [|f0 feats]; [done|].
    simpl in HN0. injection HN0 as <-. rewrite fmap_cons.
    constructor; [done|]. exact Hupper. }
  destruct (edge_embed_calls B d _ _ _
              (tr ++ (mlp_name <$> drop 1 (mesh_embedders self))) Hsame)
    as (same & Hrun2 & Hs).
  rewrite (bind_eq _ _ _ _ _ Hrun2).
  destruct (edge_embed_calls B d _ _ _
              ((tr ++ (mlp_name <$> drop 1 (mesh_embedders self)))
                 ++ (mlp_name <$> mesh_same_embedders self)) Hup)
    as (up & Hrun3 & Hu).
  rewrite (bind_eq _ _ _ _ _ Hrun3).
  destruct (edge_embed_calls B d _ _ _
              (((tr ++ (mlp_name <$> drop 1 (mesh_embedders self)))
                  ++ (mlp_name <$> mesh_same_embedders self))
                 ++ (mlp_name <$> mesh_up_embedders self)) Hdown)
    as (down & Hrun4 & Hd).
  rewrite (bind_eq _ _ _ _ _ Hrun4).
  destruct (foldM_inv_calls init_body
              (fun st => shapes B d (N_mesh_levels self) st.1
                         /\ shapes B d (M_up self) st.2)
              (init_item self d)
              (fun it => [net_name it.2])
              (fun st it tr Hst Hit => init_body_calls self B d st it tr Hst Hit)
              _ (mesh_rep :: upper, up)
              ((((tr ++ (mlp_name <$> drop 1 (mesh_embedders self)))
                   ++ (mlp_name <$> mesh_same_embedders self))
                  ++ (mlp_name <$> mesh_up_embedders self))
                 ++ (mlp_name <$> mesh_down_embedders self))
              (init_items self d Hinit) (conj Hlv Hu))
    as ([lv1 up1] & Hrun5 & Hlv1 & Hup1).
  rewrite (bind_eq _ _ _ _ _ Hrun5). simpl in Hlv1, Hup1.
  exists lv1, same, up1, down. split; [by repeat split|].
  rewrite (concat_singletons (fun it : Z * InteractionNet F => net_name it.2)).
  rewrite (enumerate_ignore_fst net_name).
  by rewrite <- !app_assoc.
Qed.

(** The read-out loop: the GNNs of [mesh_read_gnns], last one first. *)
Lemma read_out_calls self B d down lv tr N0 :
  wf self d -> N_mesh_levels self !! 0 = Some N0 ->
  shapes B d (M_down self) down -> shapes B d (N_mesh_levels self) lv ->
  exists lv' out,
    foldM (read_body down)
          (zip (range_down (Z.of_nat (N_levels self) - 2) (-1))
               (reverse (mesh_read_gnns self))) lv tr
    = Ok (lv', tr ++ read_calls self)
    /\ getitem lv' 0 = Ok out /\ has_shape B N0 d out.
Proof.
  intros (Hg & _ & _ & _ & _ & _ & Hread) HN0 Hd Hlv.
  destruct (foldM_inv_calls (read_body down)
              (fun lv => shapes B d (N_mesh_levels self) lv)
              (read_item self d)
              (fun it => [net_name it.2])
              (fun lv it tr Hst Hit => read_body_calls self B d down lv it tr Hd Hst Hit)
              _ lv tr (read_items self d Hg Hread) Hlv)
    as (lv' & Hrun & Hlv').
  destruct (shapes_lookup _ _ _ _ _ _ Hlv' HN0) as (out & Hout & Hos).
  exists lv', out. split; [|split; [|done]].
  - rewrite Hrun. do 2 f_equal. unfold read_calls.
    rewrite (concat_singletons (fun it : Z * InteractionNet F => net_name it.2)).
    f_equal. apply (zip_ignore_index net_name).
    destruct Hg as (HL & _ & _ & Hdl). destruct Hread as [Hlen _].
    unfold M_down in Hlen. rewrite length_fmap in Hlen.
    unfold range_down. rewrite length_reverse, length_fmap, length_seq. lia.
  - change 0%Z with (Z.of_nat 0). by apply getitem_nat.
Qed.

End More.
End HiMore.

Module HiExtras.
Import TorchFacts PyFacts FwdFacts HiFacts HiLAMFacts HiRun BaseFacts BaseRun.
Import BaseHiGraphModel HiCalls HiLAMMore HiMore.
Section Extras.
Context {F : Type}.
Implicit Types (self : BaseHiGraphModel.t F).

(** One run of [process_step], with its calls. *)
Lemma process_step_calls
    self (d : nat)
    (hi_processor_step :
       list (T3 F) -> list (T3 F) -> list (T3 F) -> list (T3 F)
       -> M (BaseHiGraphModel.reps F))
    (pcalls : list modid) (B N0 : nat) (mesh_rep : T3 F) (tr : list modid) :
  wf self d ->
  hi_spec_calls self d hi_processor_step pcalls ->
  N_mesh_levels self !! 0 = Some N0 ->
  has_shape B N0 d mesh_rep ->
  exists out,
    process_step self hi_processor_step mesh_rep tr
    = Ok (out, tr ++ init_calls self ++ pcalls ++ read_calls self)
    /\ has_shape B N0 d out.
Proof.
  intros Hwf Hhi HN0 Hrep.
  destruct (process_step_init self d hi_processor_step B N0 mesh_rep tr
              Hwf HN0 Hrep) as (lv & same & up & down & Hreps & ->).
  destruct (Hhi B lv same up down (tr ++ init_calls self) Hreps)
    as ([[[lv2 same2] up2] down2] & Hrun & Hlv2 & _ & _ & Hd2).
  rewrite (bind_eq _ _ _ _ _ Hrun).
  destruct (read_out_calls self B d down2 lv2
              ((tr ++ init_calls self) ++ pcalls) N0 Hwf HN0 Hd2 Hlv2)
    as (lv3 & out & Hread & Hget & Hout).
  rewrite (bind_eq _ _ _ _ _ Hread). unfold lift. rewrite Hget.
  exists out. split; [|done]. by rewrite <- !app_assoc.
Qed.

(** X7.  The phases of [process_step] and the order of its calls, for a
    hierarchical model over a well-formed graph and a processor that keeps
    representations fit for the graph: first the node embedders of the
    levels above 0 (level 0 comes in as [mesh_rep]), then the embedders of
    the same-level, up and down edges; then the mesh-init GNNs, level 1
    first; then the processor; then the read-out GNNs, top level first.
    The result is the level-0 representation, of shape
    [(B, N_mesh_levels[0], d_h)]. *)
Theorem process_step_call_order
    self (d : nat)
    (hi_processor_step :
       list (T3 F) -> list (T3 F) -> list (T3 F) -> list (T3 F)
       -> M (BaseHiGraphModel.reps F))
    (pcalls : list modid) (B N0 : nat) (mesh_rep : T3 F) (tr : list modid) :
  wf self d ->
  hi_spec_calls self d hi_processor_step pcalls ->
  N_mesh_levels self !! 0 = Some N0 ->
  has_shape B N0 d mesh_rep ->
  exists out,
    process_step self hi_processor_step mesh_rep tr
    = Ok (out,
          tr ++ (mlp_name <$> drop 1 (mesh_embedders self))
             ++ (mlp_name <$> mesh_same_embedders self)
             ++ (mlp_name <$> mesh_up_embedders self)
             ++ (mlp_name <$> mesh_down_embedders self)
             ++ (net_name <$> mesh_init_gnns self)
             ++ pcalls
             ++ (net_name <$> reverse (mesh_read_gnns self)))
    /\ has_shape B N0 d out.
Proof.
  intros Hwf Hhi HN0 Hrep.
  destruct (process_step_calls self d hi_processor_step pcalls B N0 mesh_rep
              tr Hwf Hhi HN0 Hrep) as (out & Hrun & Hout).
  exists out. split; [|done]. rewrite Hrun. unfold init_calls, read_calls.
  by rewrite <- !app_assoc.
Qed.

(** X8.  Over a well-formed graph [process_step] calls the embedders of
    the upper levels and of the edges and the mesh-init GNNs, and then
    [hi_processor_step] of the subclass, on representations that fit the
    graph: whatever exception that method raises at this point is the
    exception [process_step] raises.  [BaseHiGraphModel] leaves the method
    to its subclasses, so on the base class [process_step] raises
    [NotImplementedError]. *)
Theorem process_step_is_abstract
    self (d B N0 : nat) (mesh_rep : T3 F) (tr : list modid) :
  wf self d ->
  N_mesh_levels self !! 0 = Some N0 ->
  has_shape B N0 d mesh_rep ->
  (forall (hi_processor_step :
             list (T3 F) -> list (T3 F) -> list (T3 F) -> list (T3 F)
             -> M (BaseHiGraphModel.reps F)) (e : exn),
     (forall levels same up down,
        reps_ok self B d (levels, same, up, down) ->
        hi_processor_step levels same up down (tr ++ init_calls self)
        = Raise e) ->
     process_step self hi_processor_step mesh_rep tr = Raise e)
  /\ process_step self hi_processor_step_abstract mesh_rep tr
     = Raise NotImplementedError.
Proof.
  intros Hwf HN0 Hrep.
  assert (Hup : forall (hi_processor_step :
             list (T3 F) -> list (T3 F) -> list (T3 F) -> list (T3 F)
             -> M (BaseHiGraphModel.reps F)) (e : exn),
     (forall levels same up down,
        reps_ok self B d (levels, same, up, down) ->
        hi_processor_step levels same up down (tr ++ init_calls self)
        = Raise e) ->
     process_step self hi_processor_step mesh_rep tr = Raise e).
  { intros hps e Hraise.
    destruct (process_step_init self d hps B N0 mesh_rep tr Hwf HN0 Hrep)
      as (lv & same & up & down & Hreps & ->).
    unfold bind at 1. by rewrite (Hraise lv same up down Hreps). }
  split; [exact Hup|]. apply Hup. by intros.
Qed.

(** X6.  [get_num_mesh] of a hierarchical model counts the mesh nodes of
    all levels, and counts as ignored those of the levels above 0: the two
    numbers differ by the number of nodes of level 0.  Without any level
    it fails. *)
Theorem get_num_mesh_counts self :
  (N_levels self = 0 -> is_ok (get_num_mesh self) = false)
  /\ (forall N0, N_mesh_levels self !! 0 = Some N0 ->
        get_num_mesh self
        = Ok (sum_list (N_mesh_levels self),
              sum_list (drop 1 (N_mesh_levels self)))
        /\ sum_list (N_mesh_levels self)
           = N0 + sum_list (drop 1 (N_mesh_levels self))).
Proof.
  unfold get_num_mesh, N_levels, N_mesh_levels. split.
  - by destruct (mesh_static_features self).
  - intros N0 HN0. destruct (mesh_static_features self) as [|f0 feats]; [done|].
    simpl in HN0. injection HN0 as <-.
    split; [|done]. change 0%Z with (Z.of_nat 0).
    rewrite (getitem_nat (f0 :: feats) 0 f0 eq_refl). cbn [rbind].
    rewrite fmap_cons. cbn [sum_list sum_list_with drop]. do 2 f_equal.
    rewrite drop_0. unfold id. lia.
Qed.

(** A processor that keeps shapes and calls [pcalls] keeps shapes. *)
Lemma hi_spec_of_calls self d step pcalls :
  hi_spec_calls self d step pcalls -> hi_spec self d step.
Proof.
  intros Hc B lv same up down tr Hreps.
  destruct (Hc B lv same up down tr Hreps) as (r & Hrun & Hr). eauto.
Qed.

Lemma embedd_mesh_nodes_calls self (d N0 : nat) tr :
  wf self d -> N_mesh_levels self !! 0 = Some N0 ->
  exists mesh_emb,
    embedd_mesh_nodes self tr
    = Ok (mesh_emb, tr ++ (mlp_name <$> take 1 (mesh_embedders self))).
Proof.
  intros (_ & Hemb & _) HN0. unfold N_mesh_levels in HN0.
  unfold embedd_mesh_nodes.
  destruct (mesh_static_features self) as [|feat feats]; [done|].
  destruct (mesh_embedders self) as [|emb embs]; [by inversion Hemb|].
  apply Forall2_cons in Hemb as [Hef _].
  destruct (call_mlp2_ok d emb feat tr Hef) as (r & Hr & _).
  exists r. change 0%Z with (Z.of_nat 0).
  rewrite (bind_lift _ _ _ _ (getitem_nat (emb :: embs) 0 emb eq_refl)).
  by rewrite (bind_lift _ _ _ _ (getitem_nat (feat :: feats) 0 feat eq_refl)).
Qed.

Context `{Scalar F}.

(** X9.  A whole forward pass of a hierarchical model.  On a valid batch,
    [predict_step] of a well-formed model runs to its end and returns a
    tensor of the shape of [prev_state]; the sub-modules are called in this
    order: the grid, grid-to-mesh and mesh-to-grid embedders, the node
    embedder of mesh level 0, the encoder GNN and the grid encoding MLP,
    then what [process_step] calls (embedders of the upper levels and of the
    edges, mesh init, processor, read-out), then the decoder GNN and the
    output map. *)
Theorem hi_forward_pass
    self (D : BaseGraphModel.dims)
    (hi_processor_step :
       list (T3 F) -> list (T3 F) -> list (T3 F) -> list (T3 F)
       -> M (BaseHiGraphModel.reps F))
    (pcalls : list modid) (B : nat)
    (prev_state prev_prev_state batch_static_features forcing : T3 F)
    (tr : list modid) :
  BaseGraphModel.wf (super self) D ->
  wf self (BaseGraphModel.d_h D) ->
  N_mesh_levels self !! 0 = Some (BaseGraphModel.N_mesh D) ->
  hi_spec_calls self (BaseGraphModel.d_h D) hi_processor_step pcalls ->
  BaseGraphModel.valid_batch D B prev_state prev_prev_state
    batch_static_features forcing ->
  exists out,
    BaseGraphModel.predict_step (super self) (as_base self hi_processor_step)
      prev_state prev_prev_state batch_static_features forcing tr
    = Ok (out,
          tr ++ [mlp_name (BaseGraphModel.grid_embedder (super self));
                 mlp_name (BaseGraphModel.g2m_embedder (super self));
                 mlp_name (BaseGraphModel.m2g_embedder (super self))]
             ++ (mlp_name <$> take 1 (mesh_embedders self))
             ++ [net_name (BaseGraphModel.g2m_gnn (super self));
                 mlp_name (BaseGraphModel.encoding_grid_mlp (super self))]
             ++ init_calls self ++ pcalls ++ read_calls self
             ++ [net_name (BaseGraphModel.m2g_gnn (super self));
                 mlp_name (BaseGraphModel.output_map (super self))])
    /\ wf3 out
    /\ shape3 out = shape3 prev_state.
Proof.
  intros Hbase Hwf HN0 Hhi Hbatch.
  pose proof (hi_overrides_ok self hi_processor_step D Hwf
                (hi_spec_of_calls _ _ _ _ Hhi) HN0) as Hcls.
  destruct (predict_step_run (super self) (as_base self hi_processor_step)
              D B _ _ _ _ tr Hbase Hcls Hbatch)
    as (gf & mesh_emb & tr_e & mesh_rep0 & mesh_rep & tr_p & grid_rep
        & net_output & _ & _ & Hemb & Hmr0 & Hproc & _ & _ & Hnos & Hrun).
  cbn [as_base BaseGraphModel.embedd_mesh_nodes BaseGraphModel.process_step]
    in Hemb, Hproc.
  destruct (embedd_mesh_nodes_calls self _ _
              (tr ++ [mlp_name (BaseGraphModel.grid_embedder (super self));
                      mlp_name (BaseGraphModel.g2m_embedder (super self));
                      mlp_name (BaseGraphModel.m2g_embedder (super self))])
              Hwf HN0) as (me & Hemb').
  rewrite Hemb' in Hemb. injection Hemb as _ <-.
  destruct (process_step_calls self _ hi_processor_step pcalls B _
              mesh_rep0
              (((tr ++ [mlp_name (BaseGraphModel.grid_embedder (super self));
                        mlp_name (BaseGraphModel.g2m_embedder (super self));
                        mlp_name (BaseGraphModel.m2g_embedder (super self))])
                  ++ (mlp_name <$> take 1 (mesh_embedders self)))
                 ++ [net_name (BaseGraphModel.g2m_gnn (super self));
                     mlp_name (BaseGraphModel.encoding_grid_mlp (super self))])
              Hwf Hhi HN0 Hmr0) as (out' & Hproc' & _).
  rewrite Hproc' in Hproc. injection Hproc as _ <-.
  destruct Hbase as (_ & _ & _ & _ & _ & _ & _ & _ & Hstd & Hmean).
  destruct Hbatch as (Hprev & _).
  destruct (rescale_residual_ok (super self) B _ _ prev_state net_output
              Hprev Hnos Hstd Hmean) as (out & Hout & Houts & _).
  exists out. rewrite Hrun, Hout. unfold lift.
  split; [by rewrite <- !app_assoc|].
  destruct Houts as [Hw Hs], Hprev as [_ Hps]. split; [done|]. congruence.
Qed.

End Extras.
End HiExtras.

(* ===================================================================== *)
(** * HiLAMParallel, BaseGraphModel and GraphLAM: forward passes       *)
(* ===================================================================== *)

Module ParallelMore.
Import TorchFacts PyFacts FwdFacts ParallelFacts.
Import BaseHiGraphModel.
Section More.
Context {F : Type}.
Variable forward :
  modid -> net_args -> T3 F -> T3 F -> T3 F -> res (T3 F * T3 F).

(** X16.  The parallel processor for any number of layers: on
    representations that fit a well-formed graph, [hi_processor_step] runs
    to its end, calls the layers of the processor once each, first layer
    first (and nothing when there is no layer), and returns representations
    that fit the graph. *)
Theorem parallel_call_order
    (sup : BaseHiGraphModel.t F) (hp : HyperParam) (self : HiLAMParallel.t F)
    (B d : nat) (levels same up down : list (T3 F)) (tr : list modid) :
  HiLAMParallel.init forward sup hp = Ok self ->
  wf_graph sup ->
  (forall i, i < processor_layers (graph hp) ->
     net_spec
       (InteractionNet_new forward (nm_processor i)
          (mkArgs (concat (m2m_edge_index sup ++ mesh_up_edge_index sup
                           ++ mesh_down_edge_index sup))
                  (hidden_dim (graph hp)) (hidden_layers (graph hp)) true
                  (Some (M_same sup ++ M_up sup ++ M_down sup))
                  (Some (N_mesh_levels sup))))
       (sum_list (N_mesh_levels sup)) (sum_list (N_mesh_levels sup))
       (sum_list (M_same sup ++ M_up sup ++ M_down sup)) d) ->
  reps_ok sup B d (levels, same, up, down) ->
  exists r,
    HiLAMParallel.hi_processor_step self levels same up down tr
    = Ok (r, tr ++ (nm_processor <$> seq 0 (processor_layers (graph hp))))
    /\ reps_ok sup B d r.
Proof.
  intros Hinit Hg Hfwd Hreps.
  destruct (init_inv _ _ _ _ Hinit) as (Hsup & Hsec & Hproc).
  destruct (parallel_join sup B _ levels same up down Hg Hreps)
    as (node & edge & Hnode & Hedge & Hns & Hes).
  assert (Hrun : exists node' edge',
             HiLAMParallel.processor self node edge tr
             = Ok ((node', edge'),
                   tr ++ (nm_processor <$> seq 0 (processor_layers (graph hp))))
             /\ has_shape B (sum_list (N_mesh_levels sup)) d node'
             /\ has_shape B (sum_list (M_same sup ++ M_up sup ++ M_down sup))
                  d edge').
  { rewrite Hproc. destruct (processor_layers (graph hp)) as [|n] eqn:Hn.
    - exists node, edge. simpl. unfold ret. by rewrite app_nil_r.
    - cbn [Nat.eqb].
      match goal with
      | |- context [sequential ?nets] =>
          destruct (sequential_spec nets (sum_list (N_mesh_levels sup))
                      (sum_list (M_same sup ++ M_up sup ++ M_down sup))
                      d B node edge tr)
            as (n' & e' & Hseq & ? & ?); [|exact Hns|exact Hes|]
      end.
      + apply Forall_fmap, Forall_forall. intros i Hi.
        apply elem_of_seq in Hi. split; [done|]. apply Hfwd. lia.
      + exists n', e'. split; [|done]. rewrite Hseq. do 2 f_equal.
        by rewrite <- list_fmap_compose. }
  destruct Hrun as (node' & edge' & Hrun & Hns' & Hes').
  clear Hproc. subst sup. rewrite <- Hsec in Hes'.
  destruct (parallel_step_run self B _ levels same up down tr node edge
              node' edge' _ Hg Hsec Hreps Hnode Hedge Hrun Hns' Hes')
    as (levels' & same' & up' & down' & Hstep & _ & _ & _ & _ & _ & Hout).
  by exists (levels', same', up', down').
Qed.

End More.
End ParallelMore.

Module BaseMore.
Import TorchFacts PyFacts FwdFacts HiFacts BaseFacts BaseRun.
Import BaseGraphModel.
Section More.
Context {F : Type} `{Scalar F}.

(** X1.  On a valid batch [predict_step] calls the grid, grid-to-mesh and
    mesh-to-grid embedders and then [embedd_mesh_nodes] of the subclass:
    whatever exception that method raises at this point is the exception
    [predict_step] raises.  [BaseGraphModel] leaves the method to its
    subclasses, so on the base class [predict_step] raises
    [NotImplementedError]. *)
Theorem predict_step_is_abstract (self : BaseGraphModel.t F) (D : dims)
    (B : nat)
    (prev_state prev_prev_state batch_static_features forcing : T3 F)
    (tr : list modid) :
  wf self D ->
  valid_batch D B prev_state prev_prev_state batch_static_features forcing ->
  (forall (cls : BaseGraphModel.overrides F) (e : exn),
     embedd_mesh_nodes cls
       (tr ++ [mlp_name (grid_embedder self); mlp_name (g2m_embedder self);
               mlp_name (m2g_embedder self)]) = Raise e ->
     predict_step self cls prev_state prev_prev_state batch_static_features
                  forcing tr
     = Raise e)
  /\ predict_step self abstract prev_state prev_prev_state
                  batch_static_features forcing tr
     = Raise NotImplementedError.
Proof.
  intros ((Hgs & Hgsr & Hgsc) & (Hge & Hgei & Hgeo) & (Hg2m & Hg2mr)
          & (Hm2g & Hm2gr) & _) (Hprev & Hpp & Hbsf & Hforc).
  pose proof (has_shape_dims _ _ _ _ Hprev) as (HB & _ & _).
  pose proof (expand_to_batch_shape (grid_static_features self) B Hgs) as Hst.
  rewrite Hgsr, Hgsc in Hst.
  destruct (cat_last_ok B (N_grid D)
              [grid_state_dim D; grid_state_dim D; batch_static_feature_dim D;
               grid_forcing_dim D; grid_static_dim D]
              [prev_state; prev_prev_state; batch_static_features; forcing;
               expand_to_batch (grid_static_features self) B])
    as (gf & Hgf & Hgfs);
    [done|repeat (constructor; [assumption|]); constructor|].
  replace (sum_list _) with (grid_dim D) in Hgfs
    by (unfold grid_dim; simpl; lia).
  destruct (call_mlp3_ok _ B (N_grid D) (grid_dim D) gf tr Hge Hgei Hgfs)
    as (grid_emb & Hrun1 & _ & Hges).
  destruct (call_mlp2_ok _ _ _ (tr ++ [mlp_name (grid_embedder self)]) Hg2m)
    as (g2m_emb & Hrun2 & _).
  destruct (call_mlp2_ok _ _ _
              ((tr ++ [mlp_name (grid_embedder self)])
                 ++ [mlp_name (g2m_embedder self)]) Hm2g)
    as (m2g_emb & Hrun3 & _).
  assert (Hup : forall (cls : BaseGraphModel.overrides F) (e : exn),
            embedd_mesh_nodes cls
              (tr ++ [mlp_name (grid_embedder self);
                      mlp_name (g2m_embedder self);
                      mlp_name (m2g_embedder self)]) = Raise e ->
            predict_step self cls prev_state prev_prev_state
                         batch_static_features forcing tr = Raise e).
  { intros cls e Hraise. unfold predict_step. rewrite HB.
    rewrite (bind_lift _ _ _ _ Hgf).
    rewrite (bind_eq _ _ _ _ _ Hrun1), (bind_eq _ _ _ _ _ Hrun2),
      (bind_eq _ _ _ _ _ Hrun3).
    rewrite <- !app_assoc. cbn [app]. unfold bind at 1. by rewrite Hraise. }
  split; [exact Hup|]. by apply Hup.
Qed.

(** X2.  When the previous-previous state, the batch static features or
    the forcing disagree with [prev_state] on the batch size or on the
    number of grid nodes, [predict_step] raises torch's [RuntimeError],
    whatever the model and its subclass are. *)
Theorem predict_step_shape_mismatch (self : BaseGraphModel.t F)
    (cls : BaseGraphModel.overrides F)
    (prev_state prev_prev_state batch_static_features forcing : T3 F)
    (tr : list modid) :
  Exists (fun t => dimB t <> dimB prev_state \/ dimN t <> dimN prev_state)
         [prev_prev_state; batch_static_features; forcing] ->
  predict_step self cls prev_state prev_prev_state batch_static_features
               forcing tr
  = Raise RuntimeError.
Proof.
  intros Hbad. unfold predict_step, cat_last.
  match goal with
  | |- context [forallb ?f ?l] =>
      assert (Hf : forallb f l = false); [|by rewrite Hf]
  end.
  apply not_true_is_false. intros Hall.
  apply Is_true_true, forallb_True, Forall_cons in Hall as [_ Hall].
  apply Exists_exists in Hbad as (t & Ht & Hne).
  assert (Hin : t ∈ [prev_prev_state; batch_static_features; forcing]
                    ++ [expand_to_batch (grid_static_features self)
                                        (dimB prev_state)])
    by (apply elem_of_app; by left).
  pose proof (proj1 (Forall_forall _ _) Hall t Hin) as Hok.
  apply Is_true_true, andb_true_iff in Hok as [HB HN].
  apply Nat.eqb_eq in HB, HN. by destruct Hne.
Qed.

End More.
End BaseMore.

Module GraphLAMMore.
Import TorchFacts PyFacts FwdFacts HiFacts BaseFacts BaseRun ParallelFacts.
Section More.
Context {F : Type} `{Scalar F}.

(** One run of [GraphLAM.process_step], with its calls. *)
Lemma process_step_run (self : GraphLAM.t F) (d N B : nat) (mesh_rep : T3 F)
    (tr : list modid) :
  GraphLAM.wf self d N -> has_shape B N d mesh_rep ->
  exists out,
    GraphLAM.process_step self mesh_rep tr
    = Ok (out, tr ++ mlp_name (GraphLAM.m2m_embedder self)
                       :: (net_name <$> GraphLAM.processor_nets self))
    /\ has_shape B N d out.
Proof.
  intros (_ & _ & Hm2m & Hrows & _ & Hnets) Hrep.
  pose proof (has_shape_dims _ _ _ _ Hrep) as (HB & _ & _).
  destruct (call_mlp2_ok d _ _ tr Hm2m) as (m2m_emb & Hrun1 & Hw & Hr & Hc).
  pose proof (expand_to_batch_shape m2m_emb B Hw) as Hexp.
  rewrite Hr, Hc, Hrows in Hexp.
  destruct (sequential_spec _ N _ d B mesh_rep _
              (tr ++ [mlp_name (GraphLAM.m2m_embedder self)]) Hnets Hrep Hexp)
    as (node' & edge' & Hseq & Hn' & _).
  exists node'. split; [|done].
  unfold GraphLAM.process_step. rewrite HB.
  rewrite (bind_eq _ _ _ _ _ Hrun1), (bind_eq _ _ _ _ _ Hseq).
  unfold ret. by rewrite <- app_assoc.
Qed.

(** X14.  [GraphLAM.process_step] embeds the mesh edges once and runs the
    layers of the processor on the mesh, first layer first, each on what
    the one before returned; the mesh representation keeps its shape. *)
Theorem graphlam_process_step (self : GraphLAM.t F) (d N B : nat)
    (mesh_rep : T3 F) (tr : list modid) :
  GraphLAM.wf self d N -> has_shape B N d mesh_rep ->
  exists m2m_emb edge_rep out tr',
    mlp2 (GraphLAM.m2m_embedder self) (GraphLAM.m2m_features self) = Ok m2m_emb
    /\ sequential (GraphLAM.processor_nets self) mesh_rep
         (expand_to_batch m2m_emb B)
         (tr ++ [mlp_name (GraphLAM.m2m_embedder self)])
       = Ok ((out, edge_rep), tr')
    /\ tr' = tr ++ mlp_name (GraphLAM.m2m_embedder self)
                   :: (net_name <$> GraphLAM.processor_nets self)
    /\ GraphLAM.process_step self mesh_rep tr = Ok (out, tr')
    /\ has_shape B N d out.
Proof.
  intros Hwf Hrep. pose proof Hwf as (_ & _ & Hm2m & Hrows & _ & Hnets).
  pose proof (has_shape_dims _ _ _ _ Hrep) as (HB & _ & _).
  destruct (call_mlp2_ok d _ _ tr Hm2m) as (m2m_emb & Hrun1 & Hw & Hr & Hc).
  pose proof (expand_to_batch_shape m2m_emb B Hw) as Hexp.
  rewrite Hr, Hc, Hrows in Hexp.
  destruct (sequential_spec _ N _ d B mesh_rep _
              (tr ++ [mlp_name (GraphLAM.m2m_embedder self)]) Hnets Hrep Hexp)
    as (node' & edge' & Hseq & Hn' & _).
  exists m2m_emb, edge', node', (tr ++ mlp_name (GraphLAM.m2m_embedder self)
                                   :: (net_name <$> GraphLAM.processor_nets self)).
  assert (Hmlp : mlp2 (GraphLAM.m2m_embedder self) (GraphLAM.m2m_features self)
                 = Ok m2m_emb).
  { unfold call_mlp2, bind, called, lift in Hrun1.
    destruct (mlp2 _ _); [by injection Hrun1 as ->|done]. }
  split; [done|]. split; [by rewrite Hseq, <- app_assoc|].
  split; [done|]. split; [|done].
  unfold GraphLAM.process_step. rewrite HB.
  rewrite (bind_eq _ _ _ _ _ Hrun1), (bind_eq _ _ _ _ _ Hseq).
  unfold ret. by rewrite <- app_assoc.
Qed.

(** X15.  A whole forward pass of [GraphLAM].  On a valid batch
    [predict_step] runs to its end and returns a tensor of the shape of
    [prev_state]; the sub-modules are called in this order: the grid,
    grid-to-mesh and mesh-to-grid embedders, the mesh embedder, the encoder
    GNN, the grid encoding MLP, the mesh edge embedder, the layers of the
    processor, the decoder GNN and the output map. *)
Theorem graphlam_forward_pass (self : GraphLAM.t F)
    (D : BaseGraphModel.dims) (B : nat)
    (prev_state prev_prev_state batch_static_features forcing : T3 F)
    (tr : list modid) :
  BaseGraphModel.wf (GraphLAM.super self) D ->
  GraphLAM.wf self (BaseGraphModel.d_h D) (BaseGraphModel.N_mesh D) ->
  BaseGraphModel.valid_batch D B prev_state prev_prev_state
    batch_static_features forcing ->
  exists out,
    BaseGraphModel.predict_step (GraphLAM.super self) (GraphLAM.as_base self)
      prev_state prev_prev_state batch_static_features forcing tr
    = Ok (out,
          tr ++ [mlp_name (BaseGraphModel.grid_embedder (GraphLAM.super self));
                 mlp_name (BaseGraphModel.g2m_embedder (GraphLAM.super self));
                 mlp_name (BaseGraphModel.m2g_embedder (GraphLAM.super self));
                 mlp_name (GraphLAM.mesh_embedder self);
                 net_name (BaseGraphModel.g2m_gnn (GraphLAM.super self));
                 mlp_name (BaseGraphModel.encoding_grid_mlp
                             (GraphLAM.super self));
                 mlp_name (GraphLAM.m2m_embedder self)]
             ++ (net_name <$> GraphLAM.processor_nets self)
             ++ [net_name (BaseGraphModel.m2g_gnn (GraphLAM.super self));
                 mlp_name (BaseGraphModel.output_map (GraphLAM.super self))])
    /\ wf3 out
    /\ shape3 out = shape3 prev_state.
Proof.
  intros Hbase Hwf Hbatch.
  assert (Hemb1 : forall tr0, exists mesh_emb,
             GraphLAM.embedd_mesh_nodes self tr0
             = Ok (mesh_emb, tr0 ++ [mlp_name (GraphLAM.mesh_embedder self)])
             /\ wf2 mesh_emb /\ rows2 mesh_emb = BaseGraphModel.N_mesh D
             /\ cols2 mesh_emb = BaseGraphModel.d_h D).
  { intros tr0. destruct Hwf as (Hme & Hrows & _).
    destruct (call_mlp2_ok _ _ _ tr0 Hme) as (r & Hr & Hw & Hrr & Hc).
    exists r. split; [done|]. split; [done|]. split; [congruence|done]. }
  assert (Hcls : BaseGraphModel.overrides_ok (GraphLAM.as_base self) D).
  { split.
    - intros tr0. destruct (Hemb1 tr0) as (me & Hrun & ?). eauto.
    - intros B0 mesh_rep tr0 Hrep.
      destruct (process_step_run self _ _ B0 mesh_rep tr0 Hwf Hrep)
        as (out & Hrun & Hout). eauto. }
  destruct (predict_step_run (GraphLAM.super self) (GraphLAM.as_base self)
              D B _ _ _ _ tr Hbase Hcls Hbatch)
    as (gf & mesh_emb & tr_e & mesh_rep0 & mesh_rep & tr_p & grid_rep
        & net_output & _ & _ & Hemb & Hmr0 & Hproc & _ & _ & Hnos & Hrun).
  cbn [GraphLAM.as_base BaseGraphModel.embedd_mesh_nodes
       BaseGraphModel.process_step] in Hemb, Hproc.
  destruct (Hemb1 (tr ++ [mlp_name (BaseGraphModel.grid_embedder
                                      (GraphLAM.super self));
                          mlp_name (BaseGraphModel.g2m_embedder
                                      (GraphLAM.super self));
                          mlp_name (BaseGraphModel.m2g_embedder
                                      (GraphLAM.super self))]))
    as (me & Hemb' & _).
  rewrite Hemb' in Hemb. injection Hemb as _ <-.
  match type of Hproc with
  | GraphLAM.process_step _ _ ?t = _ =>
      destruct (process_step_run self _ _ B mesh_rep0 t Hwf Hmr0)
        as (out' & Hproc' & _)
  end.
  rewrite Hproc' in Hproc. injection Hproc as _ <-.
  destruct Hbase as (_ & _ & _ & _ & _ & _ & _ & _ & Hstd & Hmean).
  destruct Hbatch as (Hprev & _).
  destruct (rescale_residual_ok (GraphLAM.super self) B _ _ prev_state
              net_output Hprev Hnos Hstd Hmean) as (out & Hout & Houts & _).
  exists out. rewrite Hrun, Hout. unfold lift.
  split; [by rewrite <- !app_assoc|].
  destruct Houts as [Hw Hs], Hprev as [_ Hps]. split; [done|]. congruence.
Qed.

End More.
End GraphLAMMore.

(* ===================================================================== *)
(** * Construction: what the constructors require and record           *)
(* ===================================================================== *)

Module ConstructionMore.
Import Construction ConstructionClaims HiConstruction.
Local Open Scope string_scope.
Local Open Scope res_scope.

Section More.
Variable InteractionNet_init : list nat -> res unit.

(** Reading an attribute that [BaseGraphModel.__init__] does not assign
    itself, at any point of the constructor, gives what the graph or
    [ARModel.__init__] stored. *)
Ltac lookups :=
  unfold getattr_int, getattr, setattr;
  rewrite ?lookup_insert_ne by done.

(** X3.  [BaseGraphModel.__init__] returns an object when the loaded graph
    has 2-D grid, grid-to-mesh and mesh-to-grid features, the dataset sizes
    are integers, the subclass can count the mesh nodes, and
    [InteractionNet] accepts the two edge indices.  The object then holds
    the sizes read off the graph: [N_grid] and [g2m_edges], [m2g_edges] are
    the first dimensions of the features, [N_mesh] is what [get_num_mesh]
    returned; and the attributes the constructor does not assign are what
    the graph and [ARModel.__init__] made them. *)
Theorem BaseGraphModel_init_succeeds
    (get_num : obj -> res (nat * nat)) (hp : HyperParam)
    (self0 ld : obj) (h : bool)
    (N_grid gsd N_mesh ign gs gf bs g2m_e g2m_d m2g_e m2g_d : nat)
    (ei1 ei2 : list nat) :
  let s := ld ∪ <["hierarchical" := VBool h]> self0 in
  s !! "grid_static_features" = Some (VTensor [N_grid; gsd]) ->
  get_num (<["N_grid" := VInt N_grid]> s) = Ok (N_mesh, ign) ->
  s !! "grid_state_dim" = Some (VInt gs) ->
  s !! "grid_forcing_dim" = Some (VInt gf) ->
  s !! "batch_static_feature_dim" = Some (VInt bs) ->
  s !! "g2m_features" = Some (VTensor [g2m_e; g2m_d]) ->
  s !! "m2g_features" = Some (VTensor [m2g_e; m2g_d]) ->
  s !! "g2m_edge_index" = Some (VTensor ei1) ->
  s !! "m2g_edge_index" = Some (VTensor ei2) ->
  InteractionNet_init ei1 = Ok tt -> InteractionNet_init ei2 = Ok tt ->
  exists self1,
    BaseGraphModel_init InteractionNet_init get_num hp self0 (h, ld) = Ok self1
    /\ self1 !! "N_grid" = Some (VInt N_grid)
    /\ self1 !! "N_mesh" = Some (VInt N_mesh)
    /\ self1 !! "g2m_edges" = Some (VInt g2m_e)
    /\ self1 !! "m2g_edges" = Some (VInt m2g_e)
    /\ forall name, name ∉ base_assigned -> self1 !! name = s !! name.
Proof.
  intros s Hgrid Hnum Hgs Hgf Hbs Hg2m Hm2g Hei1 Hei2 Hi1 Hi2.
  assert (Hrun : exists self1,
             BaseGraphModel_init InteractionNet_init get_num hp self0 (h, ld)
             = Ok self1
             /\ self1 !! "N_grid" = Some (VInt N_grid)
             /\ self1 !! "N_mesh" = Some (VInt N_mesh)
             /\ self1 !! "g2m_edges" = Some (VInt g2m_e)
             /\ self1 !! "m2g_edges" = Some (VInt m2g_e)).
  { unfold BaseGraphModel_init, new_net, getattr_int, getattr, setattr.
    change (ld ∪ <["hierarchical" := VBool h]> self0) with s.
    rewrite Hgrid. cbn [rbind shape_of unpack2].
    rewrite Hnum. cbn [rbind].
    rewrite ?lookup_insert_ne by done.
    rewrite Hgs, Hgf, Hbs, Hg2m. cbn [rbind shape_of unpack2].
    rewrite ?lookup_insert_ne by done.
    rewrite Hm2g. cbn [rbind shape_of unpack2].
    rewrite ?lookup_insert_ne by done.
    rewrite Hei1. cbn [rbind shape_of]. rewrite Hi1. cbn [rbind].
    rewrite ?lookup_insert_ne by done.
    rewrite Hei2. cbn [rbind shape_of]. rewrite Hi2. cbn [rbind].
    eexists. split; [reflexivity|].
    repeat split; rewrite ?lookup_insert_ne by done; by rewrite lookup_insert_eq. }
  destruct Hrun as (self1 & Hrun & H1 & H2 & H3 & H4).
  exists self1. repeat (split; [done|]).
  intros name Hname. exact (base_init_frame _ _ _ _ _ _ _ _ Hrun Hname).
Qed.

(** X4.  What a successful [BaseGraphModel.__init__] shows of the graph:
    the grid, grid-to-mesh and mesh-to-grid features are 2-D tensors, the
    two edge indices are tensors that [InteractionNet] accepted, and the
    three dataset sizes are integers. *)
Theorem BaseGraphModel_init_requires
    (get_num : obj -> res (nat * nat)) (hp : HyperParam)
    (self0 ld self1 : obj) (h : bool) :
  let s := ld ∪ <["hierarchical" := VBool h]> self0 in
  BaseGraphModel_init InteractionNet_init get_num hp self0 (h, ld) = Ok self1 ->
  exists N_grid gsd N_mesh ign gs gf bs g2m_e g2m_d m2g_e m2g_d ei1 ei2,
    s !! "grid_static_features" = Some (VTensor [N_grid; gsd])
    /\ get_num (<["N_grid" := VInt N_grid]> s) = Ok (N_mesh, ign)
    /\ s !! "grid_state_dim" = Some (VInt gs)
    /\ s !! "grid_forcing_dim" = Some (VInt gf)
    /\ s !! "batch_static_feature_dim" = Some (VInt bs)
    /\ s !! "g2m_features" = Some (VTensor [g2m_e; g2m_d])
    /\ s !! "m2g_features" = Some (VTensor [m2g_e; m2g_d])
    /\ s !! "g2m_edge_index" = Some (VTensor ei1)
    /\ s !! "m2g_edge_index" = Some (VTensor ei2)
    /\ InteractionNet_init ei1 = Ok tt /\ InteractionNet_init ei2 = Ok tt.
Proof.
  intros s Hrun.
  unfold BaseGraphModel_init, new_net, getattr_int, getattr, setattr in Hrun.
  change (ld ∪ <["hierarchical" := VBool h]> self0) with s in Hrun.
  destruct (s !! "grid_static_features") as [[| | |[|N_grid [|gsd [|]]]| | |]|];
    try discriminate Hrun.
  cbn [rbind shape_of unpack2] in Hrun.
  destruct (get_num _) as [[N_mesh ign]|] eqn:Hnum; [|discriminate Hrun].
  cbn [rbind] in Hrun. rewrite ?lookup_insert_ne in Hrun by done.
  destruct (s !! "grid_state_dim") as [[|gs| | | | |]|]; try discriminate Hrun.
  cbn [rbind] in Hrun.
  destruct (s !! "grid_forcing_dim") as [[|gf| | | | |]|]; try discriminate Hrun.
  cbn [rbind] in Hrun.
  destruct (s !! "batch_static_feature_dim") as [[|bs| | | | |]|];
    try discriminate Hrun.
  cbn [rbind] in Hrun.
  destruct (s !! "g2m_features") as [[| | |[|g2m_e [|g2m_d [|]]]| | |]|];
    try discriminate Hrun.
  cbn [rbind shape_of unpack2] in Hrun.
  rewrite ?lookup_insert_ne in Hrun by done.
  destruct (s !! "m2g_features") as [[| | |[|m2g_e [|m2g_d [|]]]| | |]|];
    try discriminate Hrun.
  cbn [rbind shape_of unpack2] in Hrun.
  rewrite ?lookup_insert_ne in Hrun by done.
  destruct (s !! "g2m_edge_index") as [[| | |ei1| | |]|]; try discriminate Hrun.
  cbn [rbind shape_of] in Hrun.
  destruct (InteractionNet_init ei1) as [[]|] eqn:Hi1; [|discriminate Hrun].
  cbn [rbind] in Hrun. rewrite ?lookup_insert_ne in Hrun by done.
  destruct (s !! "m2g_edge_index") as [[| | |ei2| | |]|]; try discriminate Hrun.
  cbn [rbind shape_of] in Hrun.
  destruct (InteractionNet_init ei2) as [[]|] eqn:Hi2; [|discriminate Hrun].
  exists N_grid, gsd, N_mesh, ign, gs, gf, bs, g2m_e, g2m_d, m2g_e, m2g_d,
    ei1, ei2.
  by repeat split.
Qed.

(** X5.  [BaseGraphModel] itself cannot be instantiated: its constructor
    calls [get_num_mesh], which the base class leaves unimplemented.  The
    constructor never returns an object, and on a graph with 2-D grid
    features the exception is [NotImplementedError]. *)
Theorem BaseGraphModel_init_is_abstract (hp : HyperParam) (self0 ld : obj)
    (h : bool) :
  is_ok (BaseGraphModel_init InteractionNet_init BaseGraphModel_get_num_mesh
           hp self0 (h, ld)) = false
  /\ forall N_grid gsd,
       (ld ∪ <["hierarchical" := VBool h]> self0) !! "grid_static_features"
         = Some (VTensor [N_grid; gsd]) ->
       BaseGraphModel_init InteractionNet_init BaseGraphModel_get_num_mesh
         hp self0 (h, ld) = Raise NotImplementedError.
Proof.
  unfold BaseGraphModel_init, BaseGraphModel_get_num_mesh, getattr, setattr.
  split.
  - destruct (_ !! "grid_static_features") as [v|]; [|done].
    cbn [rbind]. destruct (shape_of v) as [sh|]; [|done].
    cbn [rbind]. by destruct (unpack2 sh) as [[a b]|].
  - by intros N_grid gsd ->.
Qed.

(** X12.  [GraphLAM.__init__] refuses a graph that is flagged as
    hierarchical: when [BaseGraphModel.__init__] succeeds and the
    [hierarchical] attribute is true, the assertion fails. *)
Theorem GraphLAM_init_refuses_hierarchical (hp : HyperParam)
    (self0 ld self1 : obj) (h : bool) (v : value) :
  BaseGraphModel_init InteractionNet_init get_num_mesh hp self0 (h, ld)
    = Ok self1 ->
  (ld ∪ <["hierarchical" := VBool h]> self0) !! "hierarchical" = Some v ->
  truthy v = true ->
  GraphLAM_init InteractionNet_init hp self0 (h, ld) = Raise AssertionError.
Proof.
  intros Hbase Hv Ht. unfold GraphLAM_init. rewrite Hbase. cbn [rbind].
  unfold getattr at 1.
  rewrite (base_init_frame _ _ _ _ _ _ _ _ Hbase)
    by (apply (bool_decide_unpack _); vm_compute; exact I).
  rewrite Hv. cbn [rbind]. by rewrite Ht.
Qed.

(** X13.  On a graph whose mesh features are a list of tensors, one per
    level, as a hierarchical graph has them, [GraphLAM.__init__] does not
    get as far as its assertion: [get_num_mesh] reads
    [self.mesh_static_features.shape] while [BaseGraphModel.__init__]
    runs, and a list has no [shape]. *)
Theorem GraphLAM_init_on_mesh_levels (hp : HyperParam) (self0 ld : obj)
    (h : bool) (N_grid gsd : nat) (levels : list (list nat)) :
  (ld ∪ <["hierarchical" := VBool h]> self0) !! "grid_static_features"
    = Some (VTensor [N_grid; gsd]) ->
  (ld ∪ <["hierarchical" := VBool h]> self0) !! "mesh_static_features"
    = Some (VTensorList levels) ->
  GraphLAM_init InteractionNet_init hp self0 (h, ld)
    = Raise (AttributeError "shape").
Proof.
  intros Hgrid Hmesh.
  unfold GraphLAM_init, BaseGraphModel_init, get_num_mesh, getattr, setattr.
  rewrite Hgrid. cbn [rbind shape_of unpack2].
  rewrite lookup_insert_ne by done. by rewrite Hmesh.
Qed.

End More.
End ConstructionMore.

Module HiConstructionMore.
Import Construction ConstructionClaims HiConstruction PyFacts.
Local Open Scope string_scope.
Local Open Scope res_scope.

Lemma mapR_ok {A B} (f : A -> res B) (l : list A) (ys : list B) :
  mapR f l = Ok ys -> Forall2 (fun x y => f x = Ok y) l ys.
Proof.
  revert ys. induction l as [|x l IH]; intros ys; simpl.
  - intros [= <-]. constructor.
  - destruct (f x) as [y|] eqn:Hx; [|discriminate]. cbn [rbind].
    destruct (mapR f l) as [ys'|]; [|discriminate]. cbn [rbind].
    intros [= <-]. constructor; [done|]. by apply IH.
Qed.

Lemma mapR_length {A B} (f : A -> res B) (l : list A) (ys : list B) :
  mapR f l = Ok ys -> length ys = length l.
Proof. intros Hm. symmetry. by eapply Forall2_length, mapR_ok. Qed.

Lemma mapR_lookup {A B} (f : A -> res B) (l : list A) (ys : list B) i x :
  mapR f l = Ok ys -> l !! i = Some x -> is_ok (f x) = true.
Proof.
  intros Hm Hx. apply mapR_ok in Hm.
  destruct (Forall2_lookup_l _ _ _ _ _ Hm Hx) as (y & _ & Hy). by rewrite Hy.
Qed.

(** Reading level [l] of a list of feature tensors works only below its
    length. *)
Lemma feature_dim_ok (self : obj) name (fs : list (list nat)) (l : nat) i :
  self !! name = Some (VTensorList fs) ->
  is_ok (feature_dim self name (Z.of_nat l) i) = true -> l < length fs.
Proof.
  intros Hn. unfold feature_dim, getattr. rewrite Hn. cbn [rbind index items].
  destruct (getitem (VTensor <$> fs) (Z.of_nat l)) as [f|] eqn:Hg;
    [|cbn [rbind is_ok]; discriminate].
  intros _. unfold getitem in Hg. rewrite !ltb_nat_false in Hg.
  cbv iota in Hg. rewrite ?ltb_nat_false, ?Nat2Z.id in Hg.
  destruct ((VTensor <$> fs) !! l) eqn:Hl; [|done].
  apply lookup_lt_Some in Hl. by rewrite length_fmap in Hl.
Qed.

Section More.
Variable InteractionNet_init : list nat -> res unit.

(** What a successful [BaseHiGraphModel.__init__] shows of a graph whose
    mesh and edge features are lists of tensors, and what it records. *)
Lemma hi_init_inv (hp : HyperParam) (self0 ld self1 : obj) (h : bool)
    (ms m2m up down : list (list nat)) :
  let s := ld ∪ <["hierarchical" := VBool h]> self0 in
  s !! "mesh_static_features" = Some (VTensorList ms) ->
  s !! "m2m_features" = Some (VTensorList m2m) ->
  s !! "mesh_up_features" = Some (VTensorList up) ->
  s !! "mesh_down_features" = Some (VTensorList down) ->
  BaseHiGraphModel_init InteractionNet_init hp self0 (h, ld) = Ok self1 ->
  (1 <= length ms /\ length ms <= length m2m)
  /\ (1 <= length up /\ length ms - 1 <= length up)
  /\ (1 <= length down /\ length ms - 1 <= length down)
  /\ self1 !! "N_levels" = Some (VInt (length ms))
  /\ exists N_mesh_levels,
       mapR (fun f => shape_at f 0) (VTensor <$> ms) = Ok N_mesh_levels
       /\ self1 !! "N_mesh_levels" = Some (VIntList N_mesh_levels)
       /\ self1 !! "N_mesh" = Some (VInt (sum_list N_mesh_levels)).
Proof.
  intros s Hms Hm2m Hup Hdown Hrun.
  unfold BaseHiGraphModel_init in Hrun.
  destruct (BaseGraphModel_init _ _ _ _ _) as [selfb|] eqn:Hbase;
    [|discriminate Hrun].
  cbn [rbind] in Hrun.
  assert (Hfr : forall name, name ∉ base_assigned -> selfb !! name = s !! name)
    by (intros name; apply (base_init_frame _ _ _ _ _ _ _ _ Hbase)).
  assert (Hms' : selfb !! "mesh_static_features" = Some (VTensorList ms))
    by (rewrite Hfr; [done|apply (bool_decide_unpack _); vm_compute; exact I]).
  assert (Hm2m' : selfb !! "m2m_features" = Some (VTensorList m2m))
    by (rewrite Hfr; [done|apply (bool_decide_unpack _); vm_compute; exact I]).
  assert (Hup' : selfb !! "mesh_up_features" = Some (VTensorList up))
    by (rewrite Hfr; [done|apply (bool_decide_unpack _); vm_compute; exact I]).
  assert (Hdown' : selfb !! "mesh_down_features" = Some (VTensorList down))
    by (rewrite Hfr; [done|apply (bool_decide_unpack _); vm_compute; exact I]).
  (* the number of mesh nodes that the base constructor recorded *)
  assert (HNm : exists rows0,
             mapR (fun f => shape_at f 0) (VTensor <$> ms) = Ok rows0
             /\ selfb !! "N_mesh" = Some (VInt (sum_list rows0))).
  { clear Hrun.
    unfold BaseGraphModel_init, BaseHiGraphModel_get_num_mesh, new_net,
      getattr_int, getattr, setattr in Hbase.
    change (ld ∪ <["hierarchical" := VBool h]> self0) with s in Hbase.
    destruct (s !! "grid_static_features") as [v|]; [|discriminate Hbase].
    cbn [rbind] in Hbase.
    destruct (shape_of v) as [sh|]; [|discriminate Hbase]. cbn [rbind] in Hbase.
    destruct (unpack2 sh) as [[N_grid gsd]|]; [|discriminate Hbase].
    cbn [rbind] in Hbase.
    rewrite lookup_insert_ne in Hbase by done. rewrite Hms in Hbase.
    cbn [rbind items] in Hbase.
    destruct (mapR _ (VTensor <$> ms)) as [rows0|]; [|discriminate Hbase].
    cbn [rbind] in Hbase. exists rows0. split; [done|].
    destruct (index _ 0) as [f0|]; [|discriminate Hbase]. cbn [rbind] in Hbase.
    destruct (shape_at f0 0) as [r0|]; [|discriminate Hbase].
    cbn [rbind] in Hbase.
    repeat bind_inv Hbase. injection Hbase as <-.
    rewrite !lookup_insert_ne by done. by rewrite lookup_insert_eq. }
  destruct HNm as (rows0 & Hrows0 & HNmesh).
  (* the constructor of the subclass *)
  unfold setattr in Hrun.
  unfold getattr at 1 in Hrun. rewrite Hms' in Hrun.
  cbn [rbind items] in Hrun. rewrite length_fmap in Hrun.
  unfold getattr at 1 in Hrun.
  rewrite lookup_insert_ne in Hrun by done. rewrite Hms' in Hrun.
  cbn [rbind items] in Hrun. rewrite Hrows0 in Hrun. cbn [rbind] in Hrun.
  pose proof (mapR_length _ _ _ Hrows0) as Hlen. rewrite length_fmap in Hlen.
  rewrite Hlen in Hrun.
  set (self2 := <["N_mesh_levels" := VIntList rows0]>
                  (<["N_levels" := VInt (length ms)]> selfb)) in *.
  assert (Hl2 : forall name, name <> "N_levels" -> name <> "N_mesh_levels" ->
                  self2 !! name = selfb !! name).
  { intros name H1 H2. unfold self2.
    by rewrite !lookup_insert_ne by done. }
  destruct (mapR (level_info self2 (length ms)) _) as [us|] eqn:Hloop;
    [|discriminate Hrun].
  cbn [rbind] in Hrun.
  destruct (feature_dim self2 "mesh_static_features" 0 1) eqn:Hd1;
    [|discriminate Hrun].
  cbn [rbind] in Hrun.
  destruct (feature_dim self2 "m2m_features" 0 1) eqn:Hd2; [|discriminate Hrun].
  cbn [rbind] in Hrun.
  destruct (feature_dim self2 "mesh_up_features" 0 1) eqn:Hd3;
    [|discriminate Hrun].
  cbn [rbind] in Hrun.
  destruct (feature_dim self2 "mesh_down_features" 0 1) eqn:Hd4;
    [|discriminate Hrun].
  cbn [rbind] in Hrun.
  assert (Hlv : forall l, l < length ms ->
                  is_ok (level_info self2 (length ms) l) = true).
  { intros l Hl. apply (mapR_lookup _ _ _ l l Hloop). by apply lookup_seq_lt. }
  assert (H1 : 1 <= length ms).
  { apply (feature_dim_ok self2 "mesh_static_features" ms 0 1);
      [by rewrite Hl2|]. change (Z.of_nat 0) with 0%Z. by rewrite Hd1. }
  assert (H2 : 1 <= length up).
  { apply (feature_dim_ok self2 "mesh_up_features" up 0 1);
      [by rewrite Hl2|]. change (Z.of_nat 0) with 0%Z. by rewrite Hd3. }
  assert (H3 : 1 <= length down).
  { apply (feature_dim_ok self2 "mesh_down_features" down 0 1);
      [by rewrite Hl2|]. change (Z.of_nat 0) with 0%Z. by rewrite Hd4. }
  assert (H4 : length ms <= length m2m).
  { pose proof (Hlv (length ms - 1) ltac:(lia)) as Hok.
    unfold level_info in Hok.
    destruct (feature_dim self2 "m2m_features" _ 0) eqn:Hf; [|done].
    assert (length ms - 1 < length m2m); [|lia].
    apply (feature_dim_ok self2 "m2m_features" m2m _ 0); [by rewrite Hl2|].
    by rewrite Hf. }
  assert (H5 : length ms - 1 <= length up /\ length ms - 1 <= length down).
  { destruct (decide (length ms = 1)) as [->|Hne]; [lia|].
    pose proof (Hlv (length ms - 2) ltac:(lia)) as Hok.
    unfold level_info in Hok.
    destruct (feature_dim self2 "m2m_features" _ 0); [|done].
    cbn [rbind] in Hok.
    replace (Z.of_nat (length ms - 2) <? Z.of_nat (length ms) - 1)%Z
      with true in Hok by (symmetry; apply Z.ltb_lt; lia).
    destruct (feature_dim self2 "mesh_up_features" _ 0) eqn:Hfu; [|done].
    cbn [rbind] in Hok.
    destruct (feature_dim self2 "mesh_down_features" _ 0) eqn:Hfd; [|done].
    assert (length ms - 2 < length up).
    { apply (feature_dim_ok self2 "mesh_up_features" up _ 0);
        [by rewrite Hl2|by rewrite Hfu]. }
    assert (length ms - 2 < length down).
    { apply (feature_dim_ok self2 "mesh_down_features" down _ 0);
        [by rewrite Hl2|by rewrite Hfd]. }
    lia. }
  clear Hloop Hd1 Hd2 Hd3 Hd4 Hlv.
  repeat bind_inv Hrun. injection Hrun as <-.
  split; [done|]. split; [lia|]. split; [lia|].
  rewrite !lookup_insert_ne by done.
  split.
  { unfold self2. rewrite lookup_insert_ne by done.
    by rewrite lookup_insert_eq. }
  exists rows0. split; [done|]. split.
  - unfold self2. by rewrite lookup_insert_eq.
  - by rewrite Hl2.
Qed.

(** X11.  A hierarchical model needs at least two mesh levels: when the
    graph has mesh features for its levels but no up (or no down) edge
    features, as a graph of one level has, [BaseHiGraphModel.__init__]
    does not return an object. *)
Theorem BaseHiGraphModel_init_needs_two_levels
    (hp : HyperParam) (self0 ld : obj) (h : bool)
    (ms m2m up down : list (list nat)) :
  let s := ld ∪ <["hierarchical" := VBool h]> self0 in
  s !! "mesh_static_features" = Some (VTensorList ms) ->
  s !! "m2m_features" = Some (VTensorList m2m) ->
  s !! "mesh_up_features" = Some (VTensorList up) ->
  s !! "mesh_down_features" = Some (VTensorList down) ->
  up = [] \/ down = [] ->
  is_ok (BaseHiGraphModel_init InteractionNet_init hp self0 (h, ld)) = false.
Proof.
  intros s Hms Hm2m Hup Hdown Hempty.
  destruct (BaseHiGraphModel_init _ _ _ _) as [self1|] eqn:Hrun; [|done].
  destruct (hi_init_inv hp self0 ld self1 h ms m2m up down
              Hms Hm2m Hup Hdown Hrun) as (_ & [Hu _] & [Hd _] & _).
  destruct Hempty as [->| ->]; simpl in *; lia.
Qed.

(** X10.  The level counts that [BaseHiGraphModel.__init__] checks, and
    what it records.  When it returns an object for a graph whose mesh and
    edge features are lists of tensors, there is at least one mesh level,
    same-level edge features for every level, and up and down edge features
    for every pair of adjacent levels (and at least one of each).  The
    object holds [N_levels], the list [N_mesh_levels] of the first
    dimensions of the mesh features, and [N_mesh], which is the sum of
    [N_mesh_levels]. *)
Theorem BaseHiGraphModel_init_level_counts
    (hp : HyperParam) (self0 ld self1 : obj) (h : bool)
    (ms m2m up down : list (list nat)) :
  let s := ld ∪ <["hierarchical" := VBool h]> self0 in
  s !! "mesh_static_features" = Some (VTensorList ms) ->
  s !! "m2m_features" = Some (VTensorList m2m) ->
  s !! "mesh_up_features" = Some (VTensorList up) ->
  s !! "mesh_down_features" = Some (VTensorList down) ->
  BaseHiGraphModel_init InteractionNet_init hp self0 (h, ld) = Ok self1 ->
  (1 <= length ms /\ length ms <= length m2m)
  /\ (1 <= length up /\ length ms - 1 <= length up)
  /\ (1 <= length down /\ length ms - 1 <= length down)
  /\ self1 !! "N_levels" = Some (VInt (length ms))
  /\ exists N_mesh_levels,
       length N_mesh_levels = length ms
       /\ (forall l sh, ms !! l = Some sh -> N_mesh_levels !! l = head sh)
       /\ self1 !! "N_mesh_levels" = Some (VIntList N_mesh_levels)
       /\ self1 !! "N_mesh" = Some (VInt (sum_list N_mesh_levels)).
Proof.
  intros s Hms Hm2m Hup Hdown Hrun.
  destruct (hi_init_inv hp self0 ld self1 h ms m2m up down
              Hms Hm2m Hup Hdown Hrun)
    as (H1 & H2 & H3 & HN & rows & Hrows & HNl & HNm).
  repeat (split; [done|]). exists rows.
  pose proof (mapR_length _ _ _ Hrows) as Hlen. rewrite length_fmap in Hlen.
  split; [done|]. split; [|by split].
  intros l sh Hl. apply mapR_ok in Hrows.
  assert (Hl' : (VTensor <$> ms) !! l = Some (VTensor sh))
    by (by rewrite list_lookup_fmap, Hl).
  destruct (Forall2_lookup_l _ _ _ _ _ Hrows Hl') as (r & Hr & Hsh).
  rewrite Hr. unfold shape_at in Hsh. cbn [shape_of rbind] in Hsh.
  destruct sh as [|a sh]; [done|]. simpl. by injection Hsh as ->.
Qed.

End More.
End HiConstructionMore.

(* ===================================================================== *)
(** * The dataset registry, case by case                               *)
(* ===================================================================== *)

Module DatasetsMore.
Import Datasets.
Local Open Scope string_scope.

(** The state the module body leaves when it runs to its end, read off the
    outcomes of the two dataset imports. *)
Lemma module_body_ok_inv (root : Path) (imp : string -> import_outcome)
    (st : module_state) :
  module_body root imp = Ok st ->
  imp "base" = Imported
  /\ registry st
     = (if imp "titan" is Imported
        then <["titan" := mkEntry "TitanDataset" (config_path root "titan")]>
        else id)
         ((if imp "smeagol" is Imported
           then <["smeagol" := mkEntry "SmeagolDataset"
                                 (config_path root "smeagol")]>
           else id) ∅)
  /\ warned st
     = ((if imp "smeagol" is Imported then []
         else ["Could not import SmeagolDataset"])
        ++ (if imp "titan" is Imported then []
            else ["Could not import TitanDataset"]))%list.
Proof.
  rewrite DatasetsClaims.module_body_eq.
  destruct (imp "base"); [|discriminate].
  unfold try_register.
  destruct (imp "smeagol") as [|es]; [|destruct (caught _ es); [|discriminate]];
    cbn [rbind registry warned];
    (destruct (imp "titan") as [|et]; [|destruct (caught _ et); [|discriminate]]);
    by intros [= <-].
Qed.

(** X20.  After the module body has run, [get_datasets] knows exactly the
    datasets whose import succeeded.  For such a dataset it uses the class
    that was imported and the configuration file that was passed, or
    [default_config_root / "<name>.json"] when none was, where
    [default_config_root] is the directory [config] two levels above the
    directory of the module.  For every other name, whether it is unknown
    or the name of a dataset whose import failed, it raises
    [ValueError]. *)
Theorem get_datasets_after_import
    (root : Path) (imp : string -> import_outcome) (st : module_state)
    (name : string) (config_file : option Path) :
  module_body root imp = Ok st ->
  (forall kls, (name, kls) ∈ dataset_modules -> imp name = Imported ->
     get_datasets st name config_file
     = Ok (kls, default (config_path root name) config_file))
  /\ ((forall kls, (name, kls) ∉ dataset_modules) \/ imp name <> Imported ->
      get_datasets st name config_file = Raise ValueError).
Proof.
  intros Hrun. destruct (module_body_ok_inv root imp st Hrun) as (_ & Hreg & _).
  unfold get_datasets. rewrite Hreg. clear Hreg Hrun. split.
  - intros kls Hd Himp.
    apply DatasetsClaims.dataset_modules_cases in Hd as [[-> ->]|[-> ->]];
      rewrite Himp.
    + destruct (imp "titan");
        [rewrite lookup_insert_ne by done|cbn [id]];
        rewrite lookup_insert_eq; by destruct config_file.
    + rewrite lookup_insert_eq. by destruct config_file.
  - intros Hno.
    assert (Hs : name = "smeagol" -> imp "smeagol" <> Imported).
    { intros ->. destruct Hno as [Hno|Hno]; [|done].
      exfalso. apply (Hno "SmeagolDataset"). apply elem_of_cons. by left. }
    assert (Ht : name = "titan" -> imp "titan" <> Imported).
    { intros ->. destruct Hno as [Hno|Hno]; [|done].
      exfalso. apply (Hno "TitanDataset"). apply elem_of_cons. right.
      apply elem_of_cons. by left. }
    destruct (decide (name = "titan")) as [->|Hnt].
    { destruct (imp "titan"); [by destruct Ht|]. cbn [id].
      destruct (imp "smeagol"); cbn [id];
        by rewrite ?lookup_insert_ne, lookup_empty by done. }
    destruct (decide (name = "smeagol")) as [->|Hns].
    { destruct (imp "smeagol"); [by destruct Hs|]. cbn [id].
      destruct (imp "titan"); cbn [id];
        by rewrite ?lookup_insert_ne, lookup_empty by done. }
    destruct (imp "titan"), (imp "smeagol"); cbn [id];
      by rewrite ?lookup_insert_ne, lookup_empty by done.
Qed.

(** X21.  The module body raises exactly when the import of [base] raises,
    or when the import of a dataset module raises an exception that the
    [except] clause of its block does not list; the exception is the one
    the import raised. *)
Theorem module_body_raises (root : Path) (imp : string -> import_outcome)
    (e : exn) :
  module_body root imp = Raise e
  <-> imp "base" = ImportRaises e
      \/ (imp "base" = Imported /\ imp "smeagol" = ImportRaises e
          /\ caught [ImportError] e = false)
      \/ (imp "base" = Imported
          /\ (imp "smeagol" = Imported
              \/ exists e', imp "smeagol" = ImportRaises e'
                            /\ caught [ImportError] e' = true)
          /\ imp "titan" = ImportRaises e
          /\ caught [ImportError; FileNotFoundError; ModuleNotFoundError] e
             = false).
Proof.
  rewrite DatasetsClaims.module_body_eq. unfold try_register.
  destruct (imp "base") as [|eb].
  2:{ split; [intros [= ->]; by left|].
      intros [[= ->]|[(? & _)|(? & _)]]; done. }
  destruct (imp "smeagol") as [|es]; [|destruct (caught [ImportError] es) eqn:Hcs];
    cbn [rbind].
  3:{ split.
      - intros [= <-]. right. by left.
      - intros [?|[(_ & [= <-] & _)|(_ & [?|(e' & [= <-] & Hc')] & _)]];
          [done|done|done|congruence]. }
  all: destruct (imp "titan") as [|et];
    [|destruct (caught [ImportError; FileNotFoundError; ModuleNotFoundError] et)
        eqn:Hct].
  all: split.
  all: try (intros Heq; discriminate Heq).
  all: try (intros [?|[(_ & Hs' & Hc')|(_ & _ & Ht' & Hc')]]; try done;
            try (injection Hs' as <-); try (injection Ht' as <-); congruence).
  all: intros [= <-]; right; right; split; [done|]; split; [|done].
  - by left.
  - right. by exists es.
Qed.

(** X22.  The two [except] clauses differ: a [FileNotFoundError] raised
    while importing [titan] is turned into a warning and the module is
    loaded without that dataset (with [smeagol] registered under
    [default_config_root / "smeagol.json"]), while the same exception
    raised while importing [smeagol] is not caught and the import of the
    package fails. *)
Theorem file_not_found_is_caught_for_titan_only
    (root : Path) (imp : string -> import_outcome) :
  imp "base" = Imported ->
  (imp "smeagol" = ImportRaises FileNotFoundError ->
   module_body root imp = Raise FileNotFoundError)
  /\ (imp "smeagol" = Imported ->
      imp "titan" = ImportRaises FileNotFoundError ->
      module_body root imp
      = Ok (mkState
              (<["smeagol" := mkEntry "SmeagolDataset"
                                    (config_path root "smeagol")]> ∅)
              ["Could not import TitanDataset"])).
Proof.
  intros Hb. rewrite DatasetsClaims.module_body_eq, Hb. split.
  - by intros ->.
  - by intros -> ->.
Qed.

(** X23.  When the module body runs to its end, each of the two datasets is
    either in the registry, under its own name, with its class and its
    default configuration file [default_config_root / "<name>.json"], or
    the subject of a warning; never both.  The registry holds nothing
    else. *)
Theorem registered_or_warned (root : Path)
    (imp : string -> import_outcome) (st : module_state) :
  module_body root imp = Ok st ->
  (forall d kls, (d, kls) ∈ dataset_modules ->
     (imp d = Imported
      /\ registry st !! d = Some (mkEntry kls (config_path root d))
      /\ ("Could not import " ++ kls) ∉ warned st)
     \/ (imp d <> Imported
         /\ registry st !! d = None
         /\ ("Could not import " ++ kls) ∈ warned st))
  /\ (forall name, is_Some (registry st !! name) ->
        exists kls, (name, kls) ∈ dataset_modules)
  /\ size (registry st) + length (warned st) = 2.
Proof.
  intros Hrun. destruct (module_body_ok_inv root imp st Hrun) as (_ & -> & ->).
  clear Hrun. split; [|split].
  - intros d kls Hd.
    apply DatasetsClaims.dataset_modules_cases in Hd as [[-> ->]|[-> ->]];
      destruct (imp "smeagol"), (imp "titan"); cbn [id app];
      rewrite ?lookup_insert_eq, ?lookup_insert_ne, ?lookup_empty by done;
      try rewrite lookup_insert_eq;
      first [ left; split; [reflexivity|]; split; [reflexivity|];
              rewrite ?elem_of_cons, ?elem_of_nil; intros Hin;
              repeat destruct Hin as [Hin|Hin]; done
            | right; split; [done|]; split; [reflexivity|];
              rewrite ?elem_of_cons; auto ].
  - intros name [x Hx]. unfold dataset_modules.
    destruct (decide (name = "smeagol")) as [->|Hn1];
      [eexists; apply elem_of_cons; by left|].
    destruct (decide (name = "titan")) as [->|Hn2];
      [eexists; apply elem_of_cons; right; apply elem_of_cons; by left|].
    destruct (imp "smeagol"), (imp "titan"); cbn [id] in Hx;
      rewrite ?lookup_insert_ne, ?lookup_empty in Hx by done; done.
  - destruct (imp "smeagol"), (imp "titan"); cbn [id app length];
      rewrite ?map_size_insert_None, ?map_size_empty; try done;
      rewrite ?lookup_insert_ne, ?lookup_empty; done.
Qed.

End DatasetsMore.

(* ===================================================================== *)
(** * The training entry point without evaluation                      *)
(* ===================================================================== *)

Module TrainVincentMore.
Import TrainVincent.
Local Open Scope string_scope.
Section More.
Context {Loader : Type}.
Implicit Types (training_dataset val_dataset test_dataset : Dataset Loader).

(** X24.  Without an evaluation mode ([tp.evaluation] is [None], the
    default, or the empty string) [main] trains: it calls [trainer.fit]
    with the loader of the training dataset and, for validation, the loader
    of the validation dataset.  The loader of the test dataset is read,
    but the trainer does not receive it. *)
Theorem main_trains_without_evaluation
    training_dataset val_dataset test_dataset (tp : TrainingParams) :
  evaluation tp = None \/ evaluation tp = Some "" ->
  main training_dataset val_dataset test_dataset tp
    = Ok (fit (loader training_dataset) (loader val_dataset)).
Proof. intros [Hev|Hev]; unfold main; by rewrite Hev. Qed.

End More.
End TrainVincentMore.

(* ===================================================================== *)
(** * The further properties on the small instances                      *)
(* ===================================================================== *)

Module ExtraWitnesses.
Import Small SmallFacts SmallFlat.
Import HiCalls.
Import Construction ConstructionClaims HiConstruction.
Local Open Scope string_scope.


(** The sequential model with two layers is well formed. *)
Lemma hilam2_wf : HiLAM.wf (HiLAM.init id_forward hi (hp 2)) 1.
Proof.
  split; [apply hi_wf_graph|].
  split; [|split; [|split]];
    repeat (apply Forall_cons; split;
            [apply id_level_gnns_ok; [done|vm_compute; lia|vm_compute; lia|];
             repeat (apply Forall_cons; split; [split; [done|done]|]);
             apply Forall_nil_2|]);
    apply Forall_nil_2.
Qed.

Lemma hilam_spec_calls :
  hi_spec_calls hi 1 (HiLAM.hi_processor_step hilam) (HiLAM.calls hilam).
Proof.
  intros B lv sm u dn tr Hreps.
  exact (HiLAMRun.hi_processor_step_ok hilam B 1 lv sm u dn tr hilam_wf Hreps).
Qed.

Lemma graphlam_wf : GraphLAM.wf graphlam 1 2.
Proof.
  split; [apply zero_embedder_ok|]. split; [done|].
  split; [apply zero_embedder_ok|]. split; [done|]. split; [done|].
  repeat (apply Forall_cons; split; [split; [done|apply id_net_spec]|]).
  apply Forall_nil_2.
Qed.

(* HiLAM *)
Lemma hilam_call_order_witness :
  exists r,
    HiLAM.hi_processor_step (HiLAM.init id_forward hi (hp 2))
      levels same up down []
    = Ok (r, Schedule.schedule 2 2).
Proof.
  destruct (HiLAMExtras.hilam_call_order id_forward hi (hp 2) 1 1
              levels same up down [] hilam2_wf small_reps_ok)
    as (r & Hrun & _).
  by exists r.
Defined.

Lemma hilam_each_gnn_once_witness :
  exists r calls,
    HiLAM.hi_processor_step (HiLAM.init id_forward hi (hp 2))
      levels same up down []
    = Ok (r, calls)
    /\ NoDup calls /\ length calls = 12.
Proof.
  destruct (HiLAMExtras.hilam_each_gnn_once id_forward hi (hp 2) 1 1
              levels same up down [] hilam2_wf small_reps_ok)
    as (r & calls & Hrun & _ & Hnd & Hlen).
  by exists r, calls.
Defined.

Lemma hilam_zero_layers_identity_witness :
  HiLAM.hi_processor_step (HiLAM.init id_forward hi (hp 0))
    levels same up down []
  = Ok ((levels, same, up, down), []).
Proof.
  apply (HiLAMExtras.hilam_zero_layers_identity id_forward hi (hp 0)
           levels same up down []). reflexivity.
Defined.

(* BaseHiGraphModel *)
Lemma process_step_call_order_witness :
  exists out,
    BaseHiGraphModel.process_step hi (HiLAM.hi_processor_step hilam)
      (rep 2 5%Z) []
    = Ok (out,
          [nm_mesh_embedders 1;
           nm_mesh_same_embedders 0; nm_mesh_same_embedders 1;
           nm_mesh_up_embedders 0; nm_mesh_down_embedders 0;
           nm_mesh_init_gnns 0;
           nm_mesh_down_same_gnns 0 1; nm_mesh_down_gnns 0 0;
           nm_mesh_down_same_gnns 0 0;
           nm_mesh_up_same_gnns 0 0; nm_mesh_up_gnns 0 0;
           nm_mesh_up_same_gnns 0 1;
           nm_mesh_read_gnns 0]).
Proof.
  destruct (HiExtras.process_step_call_order hi 1
              (HiLAM.hi_processor_step hilam) (HiLAM.calls hilam) 1 2
              (rep 2 5%Z) [] hi_wf hilam_spec_calls eq_refl (rep_shape 2 5%Z))
    as (out & Hrun & _).
  by exists out.
Defined.

Lemma process_step_is_abstract_witness :
  BaseHiGraphModel.process_step hi BaseHiGraphModel.hi_processor_step_abstract
    (rep 2 5%Z) []
  = Raise NotImplementedError.
Proof.
  apply (proj2 (HiExtras.process_step_is_abstract hi 1 1 2 (rep 2 5%Z) []
                  hi_wf eq_refl (rep_shape 2 5%Z))).
Defined.

Lemma hi_forward_pass_witness :
  exists out tr',
    BaseGraphModel.predict_step base
      (BaseHiGraphModel.as_base hi (HiLAM.hi_processor_step hilam))
      prev_state prev_prev_state batch_static_features forcing []
    = Ok (out, tr')
    /\ length tr' = 21 /\ shape3 out = shape3 prev_state.
Proof.
  destruct (HiExtras.hi_forward_pass hi dims (HiLAM.hi_processor_step hilam)
              (HiLAM.calls hilam) 1 prev_state prev_prev_state
              batch_static_features forcing []
              base_wf hi_wf eq_refl hilam_spec_calls small_batch_ok)
    as (out & Hrun & _ & Hshape).
  eexists out, _. split; [exact Hrun|]. by split.
Defined.

(* HiLAMParallel *)
Lemma parallel_call_order_witness :
  exists r,
    HiLAMParallel.hi_processor_step (parallel 2) levels same up down []
    = Ok (r, [nm_processor 0; nm_processor 1]).
Proof.
  destruct (ParallelMore.parallel_call_order id_forward hi (hp 2) (parallel 2)
              1 1 levels same up down [] eq_refl hi_wf_graph
              (fun i _ => new_net_spec (nm_processor i) _ _ _ _ _)
              small_reps_ok) as (r & Hrun & _).
  by exists r.
Defined.

(* BaseGraphModel *)
Lemma predict_step_is_abstract_witness :
  BaseGraphModel.predict_step base BaseGraphModel.abstract
    prev_state prev_prev_state batch_static_features forcing []
  = Raise NotImplementedError.
Proof.
  apply (proj2 (BaseMore.predict_step_is_abstract base dims 1 prev_state
                  prev_prev_state batch_static_features forcing []
                  base_wf small_batch_ok)).
Defined.

Lemma predict_step_shape_mismatch_witness :
  BaseGraphModel.predict_step base BaseGraphModel.abstract
    prev_state prev_prev_state batch_static_features (rep 2 2%Z) []
  = Raise RuntimeError.
Proof.
  apply (BaseMore.predict_step_shape_mismatch base BaseGraphModel.abstract
           prev_state prev_prev_state batch_static_features (rep 2 2%Z) []).
  do 2 apply Exists_cons_tl. apply Exists_cons_hd. right. vm_compute. lia.
Defined.

(* GraphLAM *)
Lemma graphlam_process_step_witness :
  exists out,
    GraphLAM.process_step graphlam (rep 2 5%Z) []
    = Ok (out, [nm_m2m_embedder; nm_processor 0; nm_processor 1])
    /\ has_shape 1 2 1 out.
Proof.
  destruct (GraphLAMMore.graphlam_process_step graphlam 1 2 1 (rep 2 5%Z) []
              graphlam_wf (rep_shape 2 5%Z))
    as (m2m_emb & edge_rep & out & tr' & _ & _ & -> & Hrun & Hout).
  by exists out.
Defined.

Lemma graphlam_forward_pass_witness :
  exists out,
    BaseGraphModel.predict_step base (GraphLAM.as_base graphlam)
      prev_state prev_prev_state batch_static_features forcing []
    = Ok (out,
          [nm_grid_embedder; nm_g2m_embedder; nm_m2g_embedder;
           nm_mesh_embedder; nm_g2m_gnn; nm_encoding_grid_mlp;
           nm_m2m_embedder; nm_processor 0; nm_processor 1;
           nm_m2g_gnn; nm_output_map])
    /\ shape3 out = shape3 prev_state.
Proof.
  destruct (GraphLAMMore.graphlam_forward_pass graphlam dims 1 prev_state
              prev_prev_state batch_static_features forcing []
              base_wf graphlam_wf small_batch_ok)
    as (out & Hrun & _ & Hshape).
  by exists out.
Defined.



Lemma small_loaded_lookups (h : bool) :
  let s := small_graph ∪ <["hierarchical" := VBool h]> small_self in
  s !! "grid_static_features" = Some (VTensor [4; 1])
  /\ get_num_mesh (<["N_grid" := VInt 4]> s) = Ok (2, 0)
  /\ s !! "grid_state_dim" = Some (VInt 5)
  /\ s !! "grid_forcing_dim" = Some (VInt 2)
  /\ s !! "batch_static_feature_dim" = Some (VInt 1)
  /\ s !! "g2m_features" = Some (VTensor [4; 3])
  /\ s !! "m2g_features" = Some (VTensor [4; 3])
  /\ s !! "g2m_edge_index" = Some (VTensor [2; 4])
  /\ s !! "m2g_edge_index" = Some (VTensor [2; 4])
  /\ s !! "hierarchical" = Some (VBool h).
Proof. destruct h; repeat split; vm_compute; reflexivity. Qed.

Lemma small_hi_lookups (h : bool) :
  let s := small_hi_graph ∪ <["hierarchical" := VBool h]> small_self in
  s !! "grid_static_features" = Some (VTensor [4; 1])
  /\ s !! "mesh_static_features" = Some (VTensorList [[2; 2]; [1; 2]])
  /\ s !! "m2m_features" = Some (VTensorList [[2; 3]; [1; 3]])
  /\ s !! "mesh_up_features" = Some (VTensorList [[2; 3]])
  /\ s !! "mesh_down_features" = Some (VTensorList [[2; 3]]).
Proof. destruct h; repeat split; vm_compute; reflexivity. Qed.

Lemma one_level_lookups (h : bool) :
  let s := one_level_graph ∪ <["hierarchical" := VBool h]> small_self in
  s !! "mesh_static_features" = Some (VTensorList [[2; 2]])
  /\ s !! "m2m_features" = Some (VTensorList [[2; 3]])
  /\ s !! "mesh_up_features" = Some (VTensorList [])
  /\ s !! "mesh_down_features" = Some (VTensorList []).
Proof. destruct h; repeat split; vm_compute; reflexivity. Qed.

Lemma small_hi_init_ok :
  is_ok (BaseHiGraphModel_init (fun _ => Ok tt) small_hp small_self
           (true, small_hi_graph)) = true.
Proof. vm_compute. reflexivity. Qed.

Lemma small_base_init_hier_ok :
  is_ok (BaseGraphModel_init (fun _ => Ok tt) get_num_mesh small_hp small_self
           (true, small_graph)) = true.
Proof. vm_compute. reflexivity. Qed.

Lemma BaseGraphModel_init_succeeds_witness :
  exists self1,
    BaseGraphModel_init (fun _ => Ok tt) get_num_mesh small_hp small_self
      (false, small_graph) = Ok self1
    /\ self1 !! "N_grid" = Some (VInt 4)
    /\ self1 !! "N_mesh" = Some (VInt 2)
    /\ self1 !! "g2m_edges" = Some (VInt 4).
Proof.
  destruct (small_loaded_lookups false)
    as (H1 & H2 & H3 & H4 & H5 & H6 & H7 & H8 & H9 & _).
  destruct (ConstructionMore.BaseGraphModel_init_succeeds (fun _ => Ok tt)
              get_num_mesh small_hp small_self small_graph false
              4 1 2 0 5 2 1 4 3 4 3 [2; 4] [2; 4]
              H1 H2 H3 H4 H5 H6 H7 H8 H9 eq_refl eq_refl)
    as (self1 & Hrun & Hg & Hm & He & _).
  by exists self1.
Defined.

Lemma BaseGraphModel_init_requires_witness :
  exists N_grid gsd,
    (small_graph ∪ <["hierarchical" := VBool false]> small_self)
      !! "grid_static_features" = Some (VTensor [N_grid; gsd]).
Proof.
  destruct (BaseGraphModel_init (fun _ => Ok tt) get_num_mesh small_hp small_self
              (false, small_graph)) as [self1|e] eqn:Hbase.
  - destruct (ConstructionMore.BaseGraphModel_init_requires (fun _ => Ok tt)
                get_num_mesh small_hp small_self small_graph self1 false Hbase)
      as (N_grid & gsd & ? & ? & ? & ? & ? & ? & ? & ? & ? & ? & ? & Hg & _).
    by exists N_grid, gsd.
  - pose proof small_base_init_ok as Hok. rewrite Hbase in Hok. discriminate Hok.
Defined.

Lemma GraphLAM_init_refuses_hierarchical_witness :
  GraphLAM_init (fun _ => Ok tt) small_hp small_self (true, small_graph)
  = Raise AssertionError.
Proof.
  destruct (BaseGraphModel_init (fun _ => Ok tt) get_num_mesh small_hp small_self
              (true, small_graph)) as [self1|e] eqn:Hbase.
  - destruct (small_loaded_lookups true) as (_ & _ & _ & _ & _ & _ & _ & _ & _ & Hh).
    exact (ConstructionMore.GraphLAM_init_refuses_hierarchical (fun _ => Ok tt)
             small_hp small_self small_graph self1 true (VBool true)
             Hbase Hh eq_refl).
  - pose proof small_base_init_hier_ok as Hok. rewrite Hbase in Hok.
    discriminate Hok.
Defined.

Lemma GraphLAM_init_on_mesh_levels_witness :
  GraphLAM_init (fun _ => Ok tt) small_hp small_self (true, small_hi_graph)
  = Raise (AttributeError "shape").
Proof.
  destruct (small_hi_lookups true) as (Hg & Hm & _).
  exact (ConstructionMore.GraphLAM_init_on_mesh_levels (fun _ => Ok tt)
           small_hp small_self small_hi_graph true 4 1 [[2; 2]; [1; 2]] Hg Hm).
Defined.

Lemma BaseHiGraphModel_init_needs_two_levels_witness :
  is_ok (BaseHiGraphModel_init (fun _ => Ok tt) small_hp small_self
           (true, one_level_graph)) = false.
Proof.
  destruct (one_level_lookups true) as (H1 & H2 & H3 & H4).
  apply (HiConstructionMore.BaseHiGraphModel_init_needs_two_levels
           (fun _ => Ok tt) small_hp small_self one_level_graph true
           [[2; 2]] [[2; 3]] [] [] H1 H2 H3 H4).
  by left.
Defined.

Lemma BaseHiGraphModel_init_level_counts_witness :
  exists self1,
    BaseHiGraphModel_init (fun _ => Ok tt) small_hp small_self
      (true, small_hi_graph) = Ok self1
    /\ self1 !! "N_levels" = Some (VInt 2)
    /\ exists N_mesh_levels,
         self1 !! "N_mesh_levels" = Some (VIntList N_mesh_levels)
         /\ self1 !! "N_mesh" = Some (VInt (sum_list N_mesh_levels)).
Proof.
  destruct (BaseHiGraphModel_init (fun _ => Ok tt) small_hp small_self
              (true, small_hi_graph)) as [self1|e] eqn:Hrun.
  - destruct (small_hi_lookups true) as (_ & H1 & H2 & H3 & H4).
    destruct (HiConstructionMore.BaseHiGraphModel_init_level_counts
                (fun _ => Ok tt) small_hp small_self small_hi_graph self1 true
                _ _ _ _ H1 H2 H3 H4 Hrun)
      as (_ & _ & _ & HN & rows & _ & _ & HNl & HNm).
    exists self1. split; [done|]. split; [done|]. by exists rows.
  - pose proof small_hi_init_ok as Hok. rewrite Hrun in Hok. discriminate Hok.
Defined.



(* datasets *)
Lemma smeagol_missing_runs :
  Datasets.module_body Datasets.site_packages Datasets.smeagol_missing
  = Ok (Datasets.mkState
          (<["titan" := Datasets.mkEntry "TitanDataset"
                          (Datasets.mkPath "/"
                             ["opt"; "site-packages"; "config";
                              "titan.json"])]> ∅)
          ["Could not import SmeagolDataset"]).
Proof. reflexivity. Qed.

Lemma get_datasets_after_import_witness :
  Datasets.get_datasets
    (Datasets.mkState
       (<["titan" := Datasets.mkEntry "TitanDataset"
                       (Datasets.mkPath "/"
                          ["opt"; "site-packages"; "config";
                           "titan.json"])]> ∅)
       ["Could not import SmeagolDataset"])
    "titan" None
  = Ok ("TitanDataset",
        Datasets.mkPath "/" ["opt"; "site-packages"; "config"; "titan.json"]).
Proof.
  apply (proj1 (DatasetsMore.get_datasets_after_import
                  Datasets.site_packages Datasets.smeagol_missing
                  _ "titan" None smeagol_missing_runs)
               "TitanDataset").
  - apply elem_of_cons. right. apply elem_of_cons. by left.
  - reflexivity.
Defined.

Lemma file_not_found_is_caught_for_titan_only_witness :
  Datasets.module_body Datasets.site_packages
    (fun m => if bool_decide (m = "titan")
              then Datasets.ImportRaises FileNotFoundError
              else Datasets.Imported)
  = Ok (Datasets.mkState
          (<["smeagol" := Datasets.mkEntry "SmeagolDataset"
                            (Datasets.mkPath "/"
                               ["opt"; "site-packages"; "config";
                                "smeagol.json"])]> ∅)
          ["Could not import TitanDataset"]).
Proof.
  destruct (DatasetsMore.file_not_found_is_caught_for_titan_only
              Datasets.site_packages
              (fun m => if bool_decide (m = "titan")
                        then Datasets.ImportRaises FileNotFoundError
                        else Datasets.Imported)) as [_ Htitan];
    [reflexivity|].
  apply Htitan; reflexivity.
Defined.

Lemma registered_or_warned_witness :
  exists st,
    Datasets.module_body Datasets.site_packages Datasets.smeagol_missing
      = Ok st
    /\ size (Datasets.registry st) + length (Datasets.warned st) = 2.
Proof.
  eexists. split; [exact smeagol_missing_runs|].
  exact (proj2 (proj2 (DatasetsMore.registered_or_warned
                         Datasets.site_packages Datasets.smeagol_missing _
                         smeagol_missing_runs))).
Defined.

(* train_vincent *)
Lemma main_trains_without_evaluation_witness :
  TrainVincent.main (TrainVincent.mkDataset 0) (TrainVincent.mkDataset 1)
    (TrainVincent.mkDataset 2)
    (TrainVincent.mkTrainingParams None "32" 1 200)
  = Ok (TrainVincent.fit 0 1).
Proof.
  apply (TrainVincentMore.main_trains_without_evaluation
           (TrainVincent.mkDataset 0) (TrainVincent.mkDataset 1)
           (TrainVincent.mkDataset 2)
           (TrainVincent.mkTrainingParams None "32" 1 200)).
  by left.
Defined.

Lemma main_val_uses_test_loader_witness :
  TrainVincent.main (TrainVincent.mkDataset 0) (TrainVincent.mkDataset 1)
    (TrainVincent.mkDataset 2)
    (TrainVincent.mkTrainingParams (Some "val") "32" 1 200)
  = Ok (TrainVincent.test 2).
Proof.
  apply (TrainVincentClaims.main_val_uses_test_loader
           (TrainVincent.mkDataset 0) (TrainVincent.mkDataset 1)
           (TrainVincent.mkDataset 2)
           (TrainVincent.mkTrainingParams (Some "val") "32" 1 200)).
  reflexivity.
Defined.

Lemma main_tests_on_test_loader_witness :
  TrainVincent.main (TrainVincent.mkDataset 0) (TrainVincent.mkDataset 1)
    (TrainVincent.mkDataset 2)
    (TrainVincent.mkTrainingParams (Some "val") "32" 1 200)
  = Ok (TrainVincent.test 2)
  /\ 2 = TrainVincent.loader (TrainVincent.mkDataset 2).
Proof.
  split; [reflexivity|].
  apply (TrainVincentClaims.main_tests_on_test_loader
           (TrainVincent.mkDataset 0) (TrainVincent.mkDataset 1)
           (TrainVincent.mkDataset 2)
           (TrainVincent.mkTrainingParams (Some "val") "32" 1 200) 2).
  reflexivity.
Defined.

End ExtraWitnesses.
